(** * DB_Transfer: the MSSQL to MariaDB migrator of [scripts/transform_original.py]

    A shallow embedding of the [DatabaseMigrator] class: the type mapper,
    the batched transfer engine with its row-by-row fallback, the
    orchestrator and the validator, followed by the properties that the
    design document states about them.

    Conventions.
    - Python [int] is [Z]; a count or an offset that the code only ever
      increments from 0 is [nat].
    - Python [str] is [string]; one character of the model stands for one
      character of the Python string.
    - [Optional[int]] is [option Z]; a Python dict keyed by strings is a
      [gmap string _].
    - The two database drivers are external: they appear as section
      variables (oracles), and an exception raised by a driver call is a
      [None] or an error value returned by the oracle. *)

From Stdlib Require Import ZArith QArith List Ascii String Bool Lia.
From stdpp Require Import base option list gmap strings pretty.

Local Open Scope string_scope.

(** ** Type mapper *)

Module TypeMapper.
Local Open Scope Z_scope.

(** [str.lower()] on the ASCII letters, the only ones that occur in the
    keys the mapper tests against. *)
Definition lower_ascii (c : ascii) : ascii :=
  let n := N_of_ascii c in
  if ((65 <=? n) && (n <=? 90))%N then ascii_of_N (n + 32) else c.

Fixpoint lower (s : string) : string :=
  match s with
  | EmptyString => EmptyString
  | String c s' => String (lower_ascii c) (lower s')
  end.

(** [self.datatype_mapping], in the order of the dict literal. *)
Definition datatype_mapping_items : list (string * string) :=
  [ ("int", "INT"); ("bigint", "BIGINT"); ("smallint", "SMALLINT");
    ("tinyint", "TINYINT"); ("bit", "BOOLEAN"); ("decimal", "DECIMAL");
    ("numeric", "DECIMAL"); ("money", "DECIMAL(19,4)"); ("float", "DOUBLE");
    ("real", "FLOAT"); ("datetime", "DATETIME"); ("datetime2", "DATETIME");
    ("date", "DATE"); ("time", "TIME"); ("varchar", "VARCHAR");
    ("nvarchar", "VARCHAR"); ("char", "CHAR"); ("nchar", "CHAR");
    ("text", "TEXT"); ("ntext", "LONGTEXT");
    ("uniqueidentifier", "VARCHAR(36)") ].

Definition datatype_mapping : gmap string string :=
  list_to_map datatype_mapping_items.

(** [x in [a, b]] for strings. *)
Definition str_in (x : string) (l : list string) : bool :=
  bool_decide (x ∈ l).

(** Truthiness of an [Optional[int]]: neither [None] nor [0]. *)
Definition truthy (o : option Z) : bool :=
  match o with
  | Some n => negb (n =? 0)
  | None => false
  end.

(** [length and length > 0] *)
Definition positive_length (o : option Z) : option Z :=
  match o with
  | Some n => if truthy o && (0 <? n) then Some n else None
  | None => None
  end.

(** [str(n)] for a Python int. *)
Definition str_of_int (n : Z) : string := pretty n.

Definition convert_datatype
    (mssql_type : string) (length precision scale : option Z) : string :=
  let mssql_type_lower := lower mssql_type in
  if str_in mssql_type_lower ["decimal"; "numeric"] then
    match precision, scale with
    | Some p, Some s =>
        if truthy precision
        then "DECIMAL(" ++ str_of_int p ++ "," ++ str_of_int s ++ ")"
        else "DECIMAL(10,2)"
    | _, _ => "DECIMAL(10,2)"
    end
  else if str_in mssql_type_lower ["varchar"; "nvarchar"] then
    match positive_length length with
    | Some n =>
        if 16383 <? n then "TEXT"
        else "VARCHAR(" ++ str_of_int n ++ ")"
    | None => "TEXT"
    end
  else if str_in mssql_type_lower ["char"; "nchar"] then
    match positive_length length with
    | Some n =>
        if 255 <? n then "VARCHAR(" ++ str_of_int n ++ ")"
        else "CHAR(" ++ str_of_int n ++ ")"
    | None => "CHAR(1)"
    end
  else
    default "TEXT" (datatype_mapping !! mssql_type_lower).

End TypeMapper.


(** ** Rows, pages and the target connection *)

Module Driver.
Local Open Scope nat_scope.

(** A cell of a pandas DataFrame as the transfer code inspects it: the
    Python natives, the numpy boxes that [convert_numpy_to_python] unwraps,
    and NaN, which [pd.isna] singles out among the floats (a finite float
    is the rational it denotes).  A timestamp, [np.datetime64] or
    [pd.Timestamp], carries the text that [strftime('%Y-%m-%d %H:%M:%S')]
    renders for it. *)
Inductive value :=
| VNone
| VNaN
| VStr (s : string)
| VInt (n : Z)
| VFloat (x : Q)
| VBool (b : bool)
| VNpInt (n : Z)
| VNpFloat (x : Q)
| VNpBool (b : bool)
| VNpStr (s : string)
| VTimestamp (rendered : string).

#[export] Instance Q_eq_dec : EqDecision Q.
Proof. solve_decision. Defined.

#[export] Instance value_eq_dec : EqDecision value.
Proof. solve_decision. Defined.

Definition row := list value.

(** A DataFrame with the default integer index: row [i] has index [i]. *)
Record DataFrame := { columns : list string; values : list row }.

(** [len(df)] *)
Definition len (df : DataFrame) : nat := length (values df).

(** [df.empty]: some axis has length 0. *)
Definition empty (df : DataFrame) : bool :=
  (len df =? 0) || (length (columns df) =? 0).

(** [mysql.connector.Error] with its [errno] and [msg]. *)
Inductive error := MySQLError (errno : Z) (msg : string).

(** What the migrator asks of the target connection and its cursor. *)
Inductive call :=
| Execute (r : row)
| ExecuteMany (rs : list row)
| Commit
| Rollback
| Close.

(** The target table as seen through one connection with autocommit off:
    the rows that are durable, the rows staged in the open transaction,
    and the calls received so far, oldest first. *)
Record conn := { committed : list row; pending : list row; calls : list call }.

Definition visible (c : conn) : list row := committed c ++ pending c.

Definition received (x : call) (c : conn) : conn :=
  {| committed := committed c; pending := pending c; calls := calls c ++ [x] |}.

Definition stage (rs : list row) (c : conn) : conn :=
  {| committed := committed c; pending := pending c ++ rs; calls := calls c |}.

(** A driver call either returns or raises. *)
Inductive outcome (A : Type) :=
| Ok (a : A)
| Raise (e : error).
Arguments Ok {A} a.
Arguments Raise {A} e.

Definition M (A : Type) : Type := conn -> outcome A * conn.

Definition ret {A} (a : A) : M A := fun c => (Ok a, c).

Definition bind {A B} (m : M A) (k : A -> M B) : M B :=
  fun c => match m c with
           | (Ok a, c') => k a c'
           | (Raise e, c') => (Raise e, c')
           end.

(** [try: body; return True  except ...: return False] *)
Definition succeeds {A} (m : M A) : conn -> bool * conn :=
  fun c => match m c with
           | (Ok _, c') => (true, c')
           | (Raise _, c') => (false, c')
           end.

#[export] Instance M_ret : MRet M := @ret.
#[export] Instance M_bind : MBind M := fun A B k m => bind m k.

Section Server.

(** The server's verdict on one more row, given the rows the connection
    already sees: [None] accepts it, [Some e] is the error it raises
    (duplicate key, data too long, out of range, ...). *)
Variable insert_error : list row -> row -> option error.

(** The server's verdict on a commit of the staged rows. *)
Variable commit_error : list row -> list row -> option error.

(** First error among the rows of one multi-row INSERT statement. *)
Fixpoint statement_error (seen : list row) (rs : list row) : option error :=
  match rs with
  | [] => None
  | r :: rs' =>
      match insert_error seen r with
      | Some e => Some e
      | None => statement_error (seen ++ [r]) rs'
      end
  end.

(** [cursor.execute(insert_sql, r)] *)
Definition execute (r : row) : M unit :=
  fun c =>
    let c := received (Execute r) c in
    match insert_error (visible c) r with
    | None => (Ok tt, stage [r] c)
    | Some e => (Raise e, c)
    end.

(** [cursor.executemany(insert_sql, rs)]: the connector sends one
    multi-row INSERT, which the server applies entirely or not at all. *)
Definition executemany (rs : list row) : M unit :=
  fun c =>
    let c := received (ExecuteMany rs) c in
    match statement_error (visible c) rs with
    | None => (Ok tt, stage rs c)
    | Some e => (Raise e, c)
    end.

(** [conn.commit()] *)
Definition commit : M unit :=
  fun c =>
    let c := received Commit c in
    match commit_error (committed c) (pending c) with
    | None =>
        (Ok tt, {| committed := committed c ++ pending c; pending := [];
                   calls := calls c |})
    | Some e => (Raise e, c)
    end.

(** [conn.rollback()] *)
Definition rollback (c : conn) : conn :=
  let c := received Rollback c in
  {| committed := committed c; pending := []; calls := calls c |}.

(** [conn.close()]: the server discards whatever is still uncommitted. *)
Definition close (c : conn) : conn :=
  let c := received Close c in
  {| committed := committed c; pending := []; calls := calls c |}.

End Server.

End Driver.

(** ** The batched transfer engine *)

Module Transfer.
Import Driver.
Local Open Scope nat_scope.
Local Open Scope list_scope.

(** [convert_numpy_to_python] *)
Definition convert_numpy_to_python (v : value) : value :=
  match v with
  | VNpInt n => VInt n
  | VNpFloat x => VFloat x
  | VNpBool b => VBool b
  | VNpStr s => VStr s
  | VTimestamp rendered => VStr rendered
  | _ => v
  end.

(** [value is None or pd.isna(value)] *)
Definition isna (v : value) : bool :=
  match v with
  | VNone | VNaN => true
  | _ => false
  end.

(** [isinstance(value, str)]; [np.str_] is a subclass of [str]. *)
Definition is_str (v : value) : option string :=
  match v with
  | VStr s | VNpStr s => Some s
  | _ => None
  end.

(** One cell of [processed_row] in [insert_batch_to_mariadb]. *)
Definition processed_value (v : value) : value :=
  if isna v then VNone
  else if is_str v is Some _ then v
  else convert_numpy_to_python v.

(** [data_tuples] of [insert_batch_to_mariadb]. *)
Definition data_tuples (df : DataFrame) : list row :=
  map (map processed_value) (values df).

(** [range(start, stop, step)] for a positive step. *)
Definition range (start stop step : nat) : list nat :=
  map (fun k => start + k * step) (seq 0 ((stop - start + (step - 1)) / step)).

Definition chunk_size : nat := 100.

(** The slice [data[i:i + chunk_size]]. *)
Definition chunk_at (data : list row) (i : nat) : list row :=
  take chunk_size (drop i data).

Section Engine.

Variable insert_error : list row -> row -> option error.
Variable commit_error : list row -> list row -> option error.

Abbreviation execute := (Driver.execute insert_error).
Abbreviation executemany := (Driver.executemany insert_error).
Abbreviation commit := (Driver.commit commit_error).

(** [for i in range(0, len(data_tuples), chunk_size):
       cursor.executemany(insert_sql, data_tuples[i:i + chunk_size])] *)
Fixpoint insert_chunks (data : list row) (starts : list nat) : M unit :=
  match starts with
  | [] => mret tt
  | i :: rest => executemany (chunk_at data i) ;; insert_chunks data rest
  end.

(** [insert_batch_to_mariadb]: both [except] clauses log and return
    [False]. *)
Definition insert_batch_to_mariadb (df : DataFrame) : conn -> bool * conn :=
  if empty df then fun c => (true, c)
  else
    let data := data_tuples df in
    succeeds
      (match data with
       | [r] => execute r
       | _ =>
           if length data <=? 100 then executemany data
           else insert_chunks data (range 0 (length data) chunk_size)
       end).

(** *** Row-by-row fallback *)

(** One cell of [processed_row] in [fallback_single_insert]. *)
Definition fallback_value (v : value) : value :=
  if isna v then VNone else v.

(** One cell of [problem_data]: a string longer than 50 characters is cut
    to its first 47 followed by three dots. *)
Definition problem_value (v : value) : value :=
  match is_str v with
  | Some s =>
      if 50 <? String.length s then VStr (String.substring 0 47 s ++ "...")%string
      else v
  | None => v
  end.

(** A cell that, when it is text, has at most 50 characters. *)
Definition short_text (v : value) : Prop :=
  forall s, is_str v = Some s -> String.length s <= 50.

(** [problem_data]: a dict filled in column order. *)
Definition problem_data (cols : list string) (r : row) : gmap string value :=
  foldl (fun d cv => <[cv.1 := problem_value cv.2]> d) ∅ (zip cols r).

(** The two error lines logged for one of the first failing rows: the
    1-based row number, the server's message, and the row's data. *)
Record error_report := {
  row_number : nat;
  message : string;
  data : gmap string value
}.

Record fallback_state := {
  success_count : nat;
  error_count : nat;
  reports : list error_report
}.

(** The body of [for index, row in df.iterrows()], over the rows that are
    left; [index] is the index of the first of them. *)
Fixpoint fallback_loop (cols : list string) (index : nat) (rows : list row)
    (st : fallback_state) (c : conn) : fallback_state * conn :=
  match rows with
  | [] => (st, c)
  | r :: rest =>
      match execute (map fallback_value r) c with
      | (Ok _, c) =>
          fallback_loop cols (S index) rest
            {| success_count := S (success_count st);
               error_count := error_count st;
               reports := reports st |} c
      | (Raise (MySQLError _ msg), c) =>
          let error_count := S (error_count st) in
          let reports :=
            if error_count <=? 5
            then reports st ++
                 [{| row_number := index + 1; message := msg;
                     data := problem_data cols r |}]
            else reports st in
          let st := {| success_count := success_count st;
                       error_count := error_count;
                       reports := reports |} in
          if 10 <? error_count then (st, c)
          else fallback_loop cols (S index) rest st c
      end
  end.

Definition fallback_run (df : DataFrame) (c : conn) : fallback_state * conn :=
  fallback_loop (columns df) 0 (values df)
    {| success_count := 0; error_count := 0; reports := [] |} c.

(** [fallback_single_insert] *)
Definition fallback_single_insert (df : DataFrame) (c : conn) : bool * conn :=
  let (st, c) := fallback_run df c in
  (error_count st =? 0, c).

(** *** Table transfer *)

(** The source engine as [migrate_table_data] queries it: the result of
    [SELECT COUNT( * )], and the page that
    [OFFSET offset ROWS FETCH NEXT batch_size ROWS ONLY] returns; [None]
    is a query that raises. *)
Record Source := {
  count_rows : option nat;
  read_sql : nat -> nat -> option DataFrame
}.

(** How one call of [migrate_table_data] ends; each case is one of its
    [return] statements, with the batch number that its log line shows. *)
Inductive session_end :=
| NotConnected
| CountFailed
| NoData
| BatchFailed (batch_number : nat)
| BatchRaised (batch_number : nat)
| FinalCommitFailed
| Migrated (migrated_count : nat).

(** The value that [migrate_table_data] returns. *)
Definition success (e : session_end) : bool :=
  match e with
  | NoData | Migrated _ => true
  | _ => false
  end.

(** A [while] loop either returns from the function or is left. *)
Inductive loop_exit :=
| Returned (e : session_end)
| Left (migrated_count : nat).

Variable batch_size : nat.

(** [preprocess_data]: a per-column normalisation of the page. *)
Variable preprocess_data : DataFrame -> DataFrame.

(** Rows that a page stages when it goes in. *)
Definition staged (df : DataFrame) : list row :=
  if empty df then [] else data_tuples df.

(** Rows that batch number [j] (counted from 1) stages when it goes in. *)
Definition batch_rows (src : Source) (j : nat) : list row :=
  match read_sql src ((j - 1) * batch_size) batch_size with
  | Some df => staged (preprocess_data df)
  | None => []
  end.

(** Rows of the batches [a+1 .. b]. *)
Definition rows_between (src : Source) (a b : nat) : list row :=
  concat (map (batch_rows src) (seq (S a) (b - a))).

(** [while offset < total_records: ...]; [None] when [fuel] iterations do
    not reach the end of the loop. *)
Fixpoint batch_loop (src : Source) (total_records : nat) (fuel : nat)
    (offset migrated_count batch_number : nat) (c : conn)
    : option (loop_exit * conn) :=
  if offset <? total_records then
    match fuel with
    | O => None
    | S fuel =>
        let batch_number := batch_number + 1 in
        match read_sql src offset batch_size with
        | None => Some (Returned (BatchRaised batch_number), close (rollback c))
        | Some df =>
            if empty df then Some (Left migrated_count, c)
            else
              let df := preprocess_data df in
              let (ok, c) := insert_batch_to_mariadb df c in
              if ok then
                let migrated_count := migrated_count + len df in
                if (batch_number mod 50 =? 0)
                   || (total_records <=? offset + batch_size)
                then
                  match commit c with
                  | (Ok _, c) =>
                      batch_loop src total_records fuel
                        (offset + batch_size) migrated_count batch_number c
                  | (Raise _, c) =>
                      Some (Returned (BatchRaised batch_number),
                            close (rollback c))
                  end
                else
                  batch_loop src total_records fuel
                    (offset + batch_size) migrated_count batch_number c
              else
                Some (Returned (BatchFailed batch_number), close (rollback c))
        end
    end
  else Some (Left migrated_count, c).

(** [migrate_table_data], from the two connection attempts on; the loop
    is given [total_records] iterations. *)
Definition migrate_table_session
    (mssql_engine : option Source) (mariadb_conn : option conn)
    : option (session_end * option conn) :=
  match mssql_engine, mariadb_conn with
  | Some src, Some c =>
      match count_rows src with
      | None => Some (CountFailed, Some (close (rollback c)))
      | Some total_records =>
          if total_records =? 0 then Some (NoData, Some (close c))
          else
            match batch_loop src total_records total_records 0 0 0 c with
            | None => None
            | Some (Returned e, c) => Some (e, Some c)
            | Some (Left migrated_count, c) =>
                match commit c with
                | (Ok _, c) => Some (Migrated migrated_count, Some (close c))
                | (Raise _, c) =>
                    Some (FinalCommitFailed, Some (close (rollback c)))
                end
            end
      end
  | _, _ => Some (NotConnected, mariadb_conn)
  end.

Definition migrate_table_data
    (mssql_engine : option Source) (mariadb_conn : option conn)
    : option bool :=
  match migrate_table_session mssql_engine mariadb_conn with
  | Some (e, _) => Some (success e)
  | None => None
  end.

End Engine.

End Transfer.

(** ** The orchestrator *)

Module Orchestrator.
Local Open Scope nat_scope.
Local Open Scope list_scope.

(** One row of the column list that [get_table_schema] returns. *)
Record Column := {
  col_name : string;
  data_type : string;
  max_length : option Z;
  numeric_precision : option Z;
  numeric_scale : option Z;
  is_nullable : string
}.

(** [table_order] of [migrate_full_database]. *)
Definition table_order : list string :=
  [ "CompanyOwner"; "Factory"; "Announcement"; "ViolationCase"; "Memo";
    "AllowRework"; "Appeal"; "IllegalProfit"; "Inspection"; "Detail" ].

(** [t in l] for table names. *)
Definition name_in (t : string) (l : list string) : bool :=
  bool_decide (t ∈ l).

(** The counters of [migrate_full_database], and the tables handed to
    [migrate_table_data] so far, oldest first. *)
Record tally := {
  structure_success_count : nat;
  data_success_count : nat;
  failed_tables : list string;
  transfers : list string
}.

Section Run.

(** [get_mssql_tables]: the source tables, or [[]] when listing fails. *)
Variable all_tables : list string.

(** [get_table_schema]: columns and primary key; both empty on failure. *)
Variable get_table_schema : string -> list Column * list string.

(** [create_mariadb_table] *)
Variable create_mariadb_table : string -> list Column -> list string -> bool.

(** [migrate_table_data] *)
Variable migrate_table_data : string -> list string -> bool.

(** First loop: table structures, in [table_order]. *)
Definition structure_step (count : nat) (table_name : string) : nat :=
  if name_in table_name all_tables then
    let (columns, primary_keys) := get_table_schema table_name in
    match columns with
    | [] => count
    | _ =>
        if create_mariadb_table table_name columns primary_keys
        then count + 1 else count
    end
  else count.

(** [if self.migrate_table_data(...): ... else: failed_tables.append(...)] *)
Definition transfer (table_name : string) (primary_keys : list string)
    (structures : nat) (t : tally) : tally :=
  if migrate_table_data table_name primary_keys then
    {| structure_success_count := structures;
       data_success_count := data_success_count t + 1;
       failed_tables := failed_tables t;
       transfers := transfers t ++ [table_name] |}
  else
    {| structure_success_count := structures;
       data_success_count := data_success_count t;
       failed_tables := failed_tables t ++ [table_name];
       transfers := transfers t ++ [table_name] |}.

(** Second loop: table data, in [table_order]. *)
Definition data_step (t : tally) (table_name : string) : tally :=
  if name_in table_name all_tables then
    let (_, primary_keys) := get_table_schema table_name in
    transfer table_name primary_keys (structure_success_count t) t
  else t.

(** Third loop: the tables that [table_order] does not name. *)
Definition remaining_step (t : tally) (table_name : string) : tally :=
  let (columns, primary_keys) := get_table_schema table_name in
  match columns with
  | [] => t
  | _ =>
      if create_mariadb_table table_name columns primary_keys
      then transfer table_name primary_keys (structure_success_count t + 1) t
      else t
  end.

Definition remaining_tables : list string :=
  List.filter (fun t => negb (name_in t table_order)) all_tables.

(** [migrate_full_database]: the returned flag and the final counters. *)
Definition migrate_full_database_run : bool * tally :=
  let nothing :=
    {| structure_success_count := 0; data_success_count := 0;
       failed_tables := []; transfers := [] |} in
  match all_tables with
  | [] => (false, nothing)
  | _ =>
      let structure_success_count := foldl structure_step 0 table_order in
      if structure_success_count =? 0 then
        (false,
         {| structure_success_count := 0; data_success_count := 0;
            failed_tables := []; transfers := [] |})
      else
        let t :=
          {| structure_success_count := structure_success_count;
             data_success_count := 0; failed_tables := [];
             transfers := [] |} in
        let t := foldl data_step t table_order in
        let t := foldl remaining_step t remaining_tables in
        (0 <? data_success_count t, t)
  end.

Definition migrate_full_database : bool := migrate_full_database_run.1.

(** The tables whose data the run sets out to move: those of
    [table_order] that exist, then every other table whose structure
    could be created. *)
Definition planned_transfers : list string :=
  List.filter (fun t => name_in t all_tables) table_order
  ++ List.filter (fun t =>
       match get_table_schema t with
       | ([], _) => false
       | (columns, primary_keys) => create_mariadb_table t columns primary_keys
       end) remaining_tables.

(** Outcome of the transfer of one table. *)
Definition transferred (table_name : string) : bool :=
  migrate_table_data table_name (get_table_schema table_name).2.

(** The counters agree with the list of transfers. *)
Definition consistent_tally (t : tally) : Prop :=
  data_success_count t = length (List.filter transferred (transfers t))
  /\ failed_tables t
     = List.filter (fun n => negb (transferred n)) (transfers t).

End Run.

End Orchestrator.

(** ** The validator *)

Module Validator.
Import Driver.
Local Open Scope nat_scope.
Local Open Scope list_scope.

Inductive side := MSSQL | MariaDB.

(** What the validator asks of the two databases. *)
Inductive query :=
| Connect (s : side)
| ListTables
| CountRows (s : side) (table : string)
| SampleRows (s : side) (table : string) (n : nat)
| NumericColumns (table : string)
| Extremes (s : side) (table column : string).

(** The table a query reads, if it reads one. *)
Definition query_table (q : query) : option string :=
  match q with
  | Connect _ | ListTables => None
  | CountRows _ t | SampleRows _ t _ | NumericColumns t | Extremes _ t _ =>
      Some t
  end.

(** A value of [MIN] or [MAX]: a number, or [None] for SQL NULL. *)
Definition extreme := option Q.

(** [a != b] on such values: Python compares numbers by value. *)
Definition differs (a b : extreme) : bool :=
  match a, b with
  | None, None => false
  | Some x, Some y => negb (Qeq_bool x y)
  | _, _ => true
  end.

(** The answers of the two databases.  A query that raises answers [None];
    for the two [MIN]/[MAX] queries the inner option is what [fetchone]
    returns.  [information_schema_columns] lists [COLUMN_NAME] and
    [DATA_TYPE] for the columns of a table. *)
Record Databases := {
  connect_mssql : bool;
  connect_mariadb : bool;
  get_mssql_tables : list string;
  mssql_count : string -> option Z;
  mariadb_count : string -> option Z;
  mssql_sample : string -> nat -> option (list row);
  mariadb_sample : string -> nat -> option (list row);
  information_schema_columns : string -> option (list (string * string));
  mssql_extremes : string -> string -> option (option (extreme * extreme));
  mariadb_extremes : string -> string -> option (option (extreme * extreme))
}.

(** The per-table dict of [validate_single_table]. *)
Record table_result := {
  record_count_match : bool;
  mssql_count_of : Z;
  mariadb_count_of : Z;
  sample_data_match : bool;
  extreme_values_match : bool;
  data_consistency : bool
}.

#[export] Instance table_result_eq_dec : EqDecision table_result.
Proof. solve_decision. Defined.

Section Validate.

Variable db : Databases.

(** [validate_sample_data]: the answer, and the queries issued. *)
Definition validate_sample_data (table_name : string) (sample_size : nat)
    : bool * list query :=
  match mssql_sample db table_name sample_size with
  | None => (false, [SampleRows MSSQL table_name sample_size])
  | Some mssql_sample =>
      match mssql_sample with
      | [] => (true, [SampleRows MSSQL table_name sample_size])
      | _ =>
          match mariadb_sample db table_name sample_size with
          | None =>
              (false, [SampleRows MSSQL table_name sample_size;
                       SampleRows MariaDB table_name sample_size])
          | Some mariadb_sample =>
              (length mssql_sample =? length mariadb_sample,
               [SampleRows MSSQL table_name sample_size;
                SampleRows MariaDB table_name sample_size])
          end
      end
  end.

(** [for col_name, data_type in numeric_columns: ...] of
    [validate_extreme_values]. *)
Fixpoint compare_extremes (table_name : string)
    (columns : list (string * string)) : bool * list query :=
  match columns with
  | [] => (true, [])
  | (col_name, _) :: rest =>
      match mssql_extremes db table_name col_name with
      | None => (false, [Extremes MSSQL table_name col_name])
      | Some mssql_extremes =>
          match mariadb_extremes db table_name col_name with
          | None =>
              (false, [Extremes MSSQL table_name col_name;
                       Extremes MariaDB table_name col_name])
          | Some mariadb_extremes =>
              let mismatch :=
                match mssql_extremes, mariadb_extremes with
                | Some (lo, hi), Some (lo', hi') =>
                    differs lo lo' || differs hi hi'
                | _, _ => false
                end in
              if mismatch then
                (false, [Extremes MSSQL table_name col_name;
                         Extremes MariaDB table_name col_name])
              else
                let (answer, queries) := compare_extremes table_name rest in
                (answer,
                 Extremes MSSQL table_name col_name
                 :: Extremes MariaDB table_name col_name :: queries)
          end
      end
  end.

(** The types that the column query of [validate_extreme_values] asks
    for in its [DATA_TYPE IN (...)]. *)
Definition numeric_types : list string :=
  ["int"; "bigint"; "decimal"; "numeric"; "float"; "real"; "money"].

(** The answer to that query. *)
Definition numeric_columns (table_name : string)
    : option (list (string * string)) :=
  match information_schema_columns db table_name with
  | Some columns =>
      Some (List.filter (fun c => bool_decide (c.2 ∈ numeric_types)) columns)
  | None => None
  end.

(** [validate_extreme_values] *)
Definition validate_extreme_values (table_name : string) : bool * list query :=
  match numeric_columns table_name with
  | None => (false, [NumericColumns table_name])
  | Some columns =>
      let (answer, queries) := compare_extremes table_name columns in
      (answer, NumericColumns table_name :: queries)
  end.

Definition initial_result : table_result :=
  {| record_count_match := false; mssql_count_of := 0; mariadb_count_of := 0;
     sample_data_match := false; extreme_values_match := false;
     data_consistency := false |}.

(** [validate_single_table]; an exception leaves [result] as it is at that
    point. *)
Definition validate_single_table (table_name : string)
    : table_result * list query :=
  let connects := [Connect MSSQL; Connect MariaDB] in
  if negb (connect_mssql db) || negb (connect_mariadb db) then
    (initial_result, connects)
  else
    match mssql_count db table_name with
    | None => (initial_result, connects ++ [CountRows MSSQL table_name])
    | Some mssql =>
        let counts :=
          [CountRows MSSQL table_name; CountRows MariaDB table_name] in
        match mariadb_count db table_name with
        | None =>
            ({| record_count_match := false; mssql_count_of := mssql;
                mariadb_count_of := 0; sample_data_match := false;
                extreme_values_match := false; data_consistency := false |},
             connects ++ counts)
        | Some mariadb =>
            let record_count_match := (mssql =? mariadb)%Z in
            let '(sample, extremes, queries) :=
              if record_count_match && (0 <? mssql)%Z then
                let (sample, q1) := validate_sample_data table_name 100 in
                let (extremes, q2) := validate_extreme_values table_name in
                (sample, extremes, q1 ++ q2)
              else (false, false, []) in
            ({| record_count_match := record_count_match;
                mssql_count_of := mssql; mariadb_count_of := mariadb;
                sample_data_match := sample;
                extreme_values_match := extremes;
                data_consistency :=
                  record_count_match && sample && extremes |},
             connects ++ counts ++ queries)
        end
    end.

(** The entry written for the table named Memo. *)
Definition memo_result : table_result :=
  {| record_count_match := true; mssql_count_of := 0; mariadb_count_of := 0;
     sample_data_match := true; extreme_values_match := true;
     data_consistency := true |}.

(** [validation_results] with the queries issued so far. *)
Record validation := {
  tables : gmap string table_result;
  overall_success : bool;
  queries : list query
}.

(** The body of [for table_name in tables]. *)
Definition validate_step (v : validation) (table_name : string) : validation :=
  if bool_decide (table_name = "Memo") then
    {| tables := <[table_name := memo_result]> (tables v);
       overall_success := overall_success v;
       queries := queries v |}
  else
    let (table_result, asked) := validate_single_table table_name in
    {| tables := <[table_name := table_result]> (tables v);
       overall_success :=
         if data_consistency table_result then overall_success v else false;
       queries := queries v ++ asked |}.

(** [validate_migration_complete] *)
Definition validate_migration_complete : validation :=
  foldl validate_step
    {| tables := ∅; overall_success := true; queries := [ListTables] |}
    (get_mssql_tables db).

(** The conjunction that defines [data_consistency]. *)
Definition conjunction_holds (r : table_result) : Prop :=
  data_consistency r
  = record_count_match r && sample_data_match r && extreme_values_match r.

(** What [validate_migration_complete] writes under a table name. *)
Definition entry (table_name : string) : table_result :=
  if bool_decide (table_name = "Memo") then memo_result
  else (validate_single_table table_name).1.

End Validate.

End Validator.

(** ** Sample data *)

Module Samples.
Import Driver Transfer.
Local Open Scope nat_scope.
Local Open Scope list_scope.

(** A connection that has just been opened on an empty table. *)
Definition fresh : conn := {| committed := []; pending := []; calls := [] |}.

(** Row [i] of a two-column table, as pandas delivers it. *)
Definition id_row (i : nat) : row := [VNpInt (Z.of_nat i); VStr "x"].

Definition id_rows (n : nat) : list row := map id_row (seq 0 n).

Definition page (rows : list row) : DataFrame :=
  {| columns := ["id"; "name"]; values := rows |}.

(** A source table that does not change while it is read. *)
Definition table_source (rows : list row) : Source :=
  {| count_rows := Some (length rows);
     read_sql := fun offset n => Some (page (take n (drop offset rows))) |}.

Definition accept_all : list row -> row -> option error := fun _ _ => None.

Definition refuse_all : list row -> row -> option error :=
  fun _ _ => Some (MySQLError 1406 "Data too long for column").

(** A server that refuses one particular row. *)
Definition refuse_row (bad : row) : list row -> row -> option error :=
  fun _ r =>
    if decide (r = bad) then Some (MySQLError 1062 "Duplicate entry")
    else None.

Definition commit_always : list row -> list row -> option error :=
  fun _ _ => None.

(** A source with three tables, one of them outside [table_order]; every
    structure can be created, and only the transfer of Factory fails. *)
Definition source_tables : list string := ["Extra"; "Factory"; "Memo"].

Definition id_column : Orchestrator.Column :=
  {| Orchestrator.col_name := "id"; Orchestrator.data_type := "int";
     Orchestrator.max_length := None;
     Orchestrator.numeric_precision := Some 10%Z;
     Orchestrator.numeric_scale := Some 0%Z;
     Orchestrator.is_nullable := "NO" |}.

Definition schema_of (table_name : string)
    : list Orchestrator.Column * list string :=
  ([id_column], ["id"]).

Definition create_ok (table_name : string)
    (columns : list Orchestrator.Column) (primary_keys : list string) : bool :=
  true.

Definition all_but_factory (table_name : string) (primary_keys : list string)
    : bool :=
  negb (String.eqb table_name "Factory").

(** Two databases after a migration.  Every table has the same number of
    rows on both sides: none in Empty, two elsewhere.  The samples have the
    same size and different rows, and the largest [id] differs. *)
Definition shop : Validator.Databases :=
  {| Validator.connect_mssql := true;
     Validator.connect_mariadb := true;
     Validator.get_mssql_tables := ["Empty"; "Memo"; "Orders"];
     Validator.mssql_count :=
       fun t => Some (if String.eqb t "Empty" then 0%Z else 2%Z);
     Validator.mariadb_count :=
       fun t => Some (if String.eqb t "Empty" then 0%Z else 2%Z);
     Validator.mssql_sample :=
       fun _ _ => Some [[VInt 1; VStr "a"]; [VInt 2; VStr "b"]];
     Validator.mariadb_sample :=
       fun _ _ => Some [[VInt 7; VStr "y"]; [VInt 8; VStr "z"]];
     Validator.information_schema_columns :=
       fun _ => Some [("id", "int"); ("name", "nvarchar")];
     Validator.mssql_extremes :=
       fun _ _ => Some (Some (Some (inject_Z 1), Some (inject_Z 10)));
     Validator.mariadb_extremes :=
       fun _ _ => Some (Some (Some (inject_Z 1), Some (inject_Z 20))) |}.

(** The same two databases, with a single column declared smallint. *)
Definition ranked : Validator.Databases :=
  {| Validator.connect_mssql := true;
     Validator.connect_mariadb := true;
     Validator.get_mssql_tables := ["Orders"];
     Validator.mssql_count := fun _ => Some 2%Z;
     Validator.mariadb_count := fun _ => Some 2%Z;
     Validator.mssql_sample := Validator.mssql_sample shop;
     Validator.mariadb_sample := Validator.mariadb_sample shop;
     Validator.information_schema_columns :=
       fun _ => Some [("rank", "smallint")];
     Validator.mssql_extremes := Validator.mssql_extremes shop;
     Validator.mariadb_extremes := Validator.mariadb_extremes shop |}.

End Samples.
(** ** Predicates for the further properties *)

Module Cells.
Import Driver.

(** A cell that is none of NaN, a numpy integer, float or boolean box, or
    a timestamp object. *)
Definition plain (v : value) : Prop :=
  match v with
  | VNaN | VNpInt _ | VNpFloat _ | VNpBool _ | VTimestamp _ => False
  | _ => True
  end.

(** A call that inserts rows. *)
Definition is_insert (x : call) : Prop :=
  match x with
  | Execute _ | ExecuteMany _ => True
  | _ => False
  end.

End Cells.

(** ** What a table transfer is to do

    A transfer is described by the first batch that does not go in,
    apart from the loop of [migrate_table_data]. *)

Module Checkpoints.
Import Driver Transfer.
Local Open Scope nat_scope.
Local Open Scope list_scope.

Definition is_commit (x : call) : bool :=
  match x with
  | Commit => true
  | _ => false
  end.

(** The number of commits among the calls of a connection. *)
Definition commits (cs : list call) : nat :=
  length (List.filter is_commit cs).

Section Table.

Variable insert_error : list row -> row -> option error.
Variable batch_size : nat.
Variable preprocess_data : DataFrame -> DataFrame.
Variable src : Source.
Variable total_records : nat.

(** The number of batches it takes to pass the row count. *)
Definition batches : nat := (total_records + batch_size - 1) / batch_size.

(** The offset of batch [j], counted from 1. *)
Definition offset_of (j : nat) : nat := (j - 1) * batch_size.

(** The number of rows batch [j] adds to [migrated_count]. *)
Definition batch_len (j : nat) : nat :=
  match read_sql src (offset_of j) batch_size with
  | Some df => len (preprocess_data df)
  | None => 0
  end.

(** [migrated_count] after the batches [1 .. n]. *)
Definition migrated_upto (n : nat) : nat :=
  list_sum (map batch_len (seq 1 n)).

(** What becomes of batch [j]: the table ends before it, the server
    refuses one of its rows whatever it has seen, or its page cannot be
    read. *)
Inductive fate := Beyond | Refused | Unreadable.

Definition befalls (j : nat) (f : fate) : Prop :=
  match f with
  | Beyond => total_records <= offset_of j
  | Refused =>
      offset_of j < total_records
      /\ exists df r,
           read_sql src (offset_of j) batch_size = Some df
           /\ empty df = false
           /\ r ∈ staged (preprocess_data df)
           /\ forall seen, insert_error seen r <> None
  | Unreadable =>
      offset_of j < total_records
      /\ read_sql src (offset_of j) batch_size = None
  end.

(** How the call is to end. *)
Definition ending (j : nat) (f : fate) : session_end :=
  match f with
  | Beyond => Migrated (migrated_upto batches)
  | Refused => BatchFailed j
  | Unreadable => BatchRaised j
  end.

(** The batches whose rows are to be durable at the end: all of them, or
    those up to the last multiple of 50 below [j]. *)
Definition durable_batches (j : nat) (f : fate) : nat :=
  match f with
  | Beyond => batches
  | Refused | Unreadable => 50 * ((j - 1) / 50)
  end.

(** The commits the call is to issue: one after every 50th batch and,
    when the table is passed, one after the last batch unless it is a
    50th one, and one after the loop. *)
Definition commits_due (j : nat) (f : fate) : nat :=
  match f with
  | Beyond => batches / 50 + (if batches mod 50 =? 0 then 0 else 1) + 1
  | Refused | Unreadable => (j - 1) / 50
  end.

(** The last two calls on the connection. *)
Definition last_calls (f : fate) : list call :=
  match f with
  | Beyond => [Commit; Close]
  | Refused | Unreadable => [Rollback; Close]
  end.

End Table.

End Checkpoints.

(** ** What the row-by-row fallback is to find

    The fallback is described apart from its loop: which rows the server
    refuses when the page is sent row by row, and how a row is shown in
    the log. *)

Module Diagnosis.
Import Driver Transfer.
Local Open Scope nat_scope.
Local Open Scope list_scope.

Section Rows.

Variable insert_error : list row -> row -> option error.

(** The rows of a page that the server refuses when they are sent one
    by one in their order, every accepted row being staged before the
    next is sent: for each one its position in the page counted from 1
    ([index] is the index of the first row of [rows]), the message of
    the server, and the row. *)
Fixpoint refusals (seen : list row) (index : nat) (rows : list row)
    : list (nat * string * row) :=
  match rows with
  | [] => []
  | r :: rest =>
      match insert_error seen (map fallback_value r) with
      | None => refusals (seen ++ [map fallback_value r]) (S index) rest
      | Some (MySQLError _ msg) =>
          (index + 1, msg, r) :: refusals seen (S index) rest
      end
  end.

End Rows.

(** The cell [v] is logged as [w]: a text of more than 50 characters by
    its first 47 characters followed by three dots, anything else as it
    is. *)
Definition logged_as (v w : value) : Prop :=
  (forall s, is_str v = Some s -> 50 < String.length s ->
     w = VStr (String.substring 0 47 s ++ "...")%string)
  /\ ((forall s, is_str v = Some s -> String.length s <= 50) -> w = v).

(** The dict [d] shows the row [r] under the column names [cols]: every
    entry is a cell of the row under the name of its column, and every
    cell is there under the name of its column, unless a later cell has
    the same column name. *)
Definition describes (cols : list string) (r : row)
    (d : gmap string value) : Prop :=
  (forall col w, d !! col = Some w ->
     exists i v, cols !! i = Some col /\ r !! i = Some v /\ logged_as v w)
  /\ (forall i col v,
        cols !! i = Some col -> r !! i = Some v ->
        (forall j, i < j -> cols !! j = Some col -> r !! j = None) ->
        exists w, d !! col = Some w /\ logged_as v w).

End Diagnosis.

(** ** The batched insert with row-by-row diagnosis *)

Module Remaining.
Import Driver Transfer.
Local Open Scope nat_scope.
Local Open Scope list_scope.

Section Insert.

(** The server's verdict on one more row, as in [Driver]. *)
Variable insert_error : list row -> row -> option error.

(** The server's verdict on a multi-row statement as such, whatever its
    rows, given the rows the connection sees: a packet above the
    server's limit, a lock wait that times out, a connection that is
    lost.  [None] leaves the verdict to the rows. *)
Variable batch_error : list row -> list row -> option error.

(** [data_tuples] of [batch_insert_remaining]: NaN and [None] become
    [None], every other cell is passed as it is. *)
Definition remaining_tuples (df : DataFrame) : list row :=
  map (map fallback_value) (values df).

(** [cursor.executemany(insert_sql, rs)] on a server that can refuse the
    statement as such. *)
Definition executemany (rs : list row) : M unit :=
  fun c =>
    match batch_error (visible c) rs with
    | Some e => (Raise e, received (ExecuteMany rs) c)
    | None => Driver.executemany insert_error rs c
    end.

(** [batch_insert_remaining]: one [executemany]; when the server raises,
    the page is retried row by row by [fallback_single_insert]. *)
Definition batch_insert_remaining (df : DataFrame) (c : conn) : bool * conn :=
  match executemany (remaining_tuples df) c with
  | (Ok _, c) => (true, c)
  | (Raise (MySQLError _ _), c) => fallback_single_insert insert_error df c
  end.

End Insert.

End Remaining.

(** ** More sample data *)

Module MoreSamples.
Import Driver Transfer Samples.
Local Open Scope list_scope.

(** Every structure can be created, except that of Factory. *)
Definition create_all_but_factory (table_name : string)
    (columns : list Orchestrator.Column) (primary_keys : list string) : bool :=
  negb (String.eqb table_name "Factory").

(** A server that takes no multi-row statement (its packet limit is
    too low, say) and a server that takes every one. *)
Definition no_batches : list row -> list row -> option error :=
  fun _ _ => Some (MySQLError 1153 "Got a packet bigger than max_allowed_packet").

Definition any_batch : list row -> list row -> option error :=
  fun _ _ => None.

(** Two databases after a migration of two tables that went well. *)
Definition tidy : Validator.Databases :=
  {| Validator.connect_mssql := true;
     Validator.connect_mariadb := true;
     Validator.get_mssql_tables := ["Memo"; "Orders"];
     Validator.mssql_count := fun _ => Some 2%Z;
     Validator.mariadb_count := fun _ => Some 2%Z;
     Validator.mssql_sample := Validator.mssql_sample shop;
     Validator.mariadb_sample := Validator.mariadb_sample shop;
     Validator.information_schema_columns :=
       fun _ => Some [("id", "int"); ("name", "nvarchar")];
     Validator.mssql_extremes := Validator.mssql_extremes shop;
     Validator.mariadb_extremes := Validator.mssql_extremes shop |}.

End MoreSamples.

(** ** Predicates on validator queries *)

Module Queries.
Import Validator.

(** A query that connects or counts rows, as opposed to one that samples
    rows or reads column types or extremes. *)
Definition is_count_or_connect (q : query) : Prop :=
  match q with
  | Connect _ | CountRows _ _ => True
  | _ => False
  end.

(** Two answers to a [MIN]/[MAX] query that the validator takes for
    equal: a side whose [fetchone] gave nothing is not compared. *)
Definition extremes_agree
    (source target : option (extreme * extreme)) : Prop :=
  match source, target with
  | Some (lo, hi), Some (lo', hi') =>
      differs lo lo' = false /\ differs hi hi' = false
  | _, _ => True
  end.

End Queries.

(** ** The schema introspector *)

Module Introspector.
Import Orchestrator.
Local Open Scope list_scope.

(** The queries of [get_table_schema]. *)
Inductive lookup :=
| ConnectSource
| TableExists
| ListAvailable
| InformationSchemaColumns
| SysColumns
| ProbeQuery
| KeyColumnUsage
| SysKeyConstraints
| ReferentialConstraints.

#[export] Instance lookup_eq_dec : EqDecision lookup.
Proof. solve_decision. Defined.

(** One entry of [cursor.description] after the probe query, as far as the
    code reads it: [desc[0]], [desc[1]] (an integer code, or [None] for
    any other object), [desc[2]], [desc[4]], [desc[5]] and the truth value
    of [desc[6]]. *)
Record description := {
  desc_name : string;
  desc_type_code : option Z;
  desc_display_size : option Z;
  desc_precision : option Z;
  desc_scale : option Z;
  desc_null_ok : bool
}.

(** The answers of the source catalog about one table; [None] is a query
    that raises.  A column row is kept up to [IS_NULLABLE]: the seventh
    field, [COLUMN_DEFAULT], is read by no code.  The list of available
    tables, asked for when the table does not exist, only feeds the log. *)
Record Catalog := {
  connected : bool;
  table_exists : string -> option bool;
  information_schema : string -> option (list Column);
  sys_columns : string -> option (list Column);
  probe : string -> option (list description);
  key_column_usage : string -> option (list string);
  sys_key_constraints : string -> option (list string);
  referential_constraints : string -> option (list (string * string * string))
}.

(** [type_mapping] of the third method, in the order of the dict
    literal. *)
Definition type_mapping_items : list (Z * string) :=
  [ (1, "varchar"); (4, "int"); (6, "float"); (7, "real"); (8, "float");
    (12, "varchar"); (91, "date"); (93, "datetime"); (-1, "text");
    (-7, "bit") ]%Z.

Definition type_mapping : gmap Z string := list_to_map type_mapping_items.

(** [type_mapping.get(desc[1], 'varchar')] *)
Definition type_of_code (code : option Z) : string :=
  match code with
  | Some n => default "varchar" (type_mapping !! n)
  | None => "varchar"
  end.

(** [col_info] built from one description entry. *)
Definition column_of_description (d : description) : Column :=
  {| col_name := desc_name d;
     data_type := type_of_code (desc_type_code d);
     max_length := TypeMapper.positive_length (desc_display_size d);
     numeric_precision := desc_precision d;
     numeric_scale := desc_scale d;
     is_nullable := if desc_null_ok d then "YES" else "NO" |}.

(** What [get_table_schema] returns, and the queries it issued. *)
Record found := {
  columns : list Column;
  primary_keys : list string;
  foreign_keys : list (string * string * string);
  lookups : list lookup
}.

Definition nothing (asked : list lookup) : found :=
  {| columns := []; primary_keys := []; foreign_keys := [];
     lookups := asked |}.

Section Describe.

Variable cat : Catalog.
Variable table_name : string.

(** [try: ... columns = cursor.fetchall()  except: columns = []] *)
Definition rows_or_none {A} (answer : option (list A)) : list A :=
  default [] answer.

(** The three methods, tried until one gives a column. *)
Definition find_columns : list Column * list lookup :=
  match rows_or_none (information_schema cat table_name) with
  | c :: cs => (c :: cs, [InformationSchemaColumns])
  | [] =>
      match rows_or_none (sys_columns cat table_name) with
      | c :: cs => (c :: cs, [InformationSchemaColumns; SysColumns])
      | [] =>
          (map column_of_description (rows_or_none (probe cat table_name)),
           [InformationSchemaColumns; SysColumns; ProbeQuery])
      end
  end.

(** The primary key: the second query is tried when the first one gives
    no row; an exception in either leaves the key empty. *)
Definition find_primary_keys : list string * list lookup :=
  match key_column_usage cat table_name with
  | None => ([], [KeyColumnUsage])
  | Some (k :: ks) => (k :: ks, [KeyColumnUsage])
  | Some [] =>
      match sys_key_constraints cat table_name with
      | None => ([], [KeyColumnUsage; SysKeyConstraints])
      | Some keys => (keys, [KeyColumnUsage; SysKeyConstraints])
      end
  end.

(** [get_table_schema] *)
Definition get_table_schema : found :=
  if negb (connected cat) then nothing [ConnectSource]
  else
    match table_exists cat table_name with
    | None => nothing [ConnectSource; TableExists]
    | Some false => nothing [ConnectSource; TableExists; ListAvailable]
    | Some true =>
        let (cols, asked_columns) := find_columns in
        match cols with
        | [] => nothing ([ConnectSource; TableExists] ++ asked_columns)
        | _ =>
            let (keys, asked_keys) := find_primary_keys in
            {| columns := cols;
               primary_keys := keys;
               foreign_keys :=
                 rows_or_none (referential_constraints cat table_name);
               lookups :=
                 [ConnectSource; TableExists] ++ asked_columns ++ asked_keys
                 ++ [ReferentialConstraints] |}
        end
    end.

End Describe.

(** [get_table_schema] as the orchestrator uses it. *)
Definition schema_of (cat : Catalog) (table_name : string)
    : list Column * list string :=
  (columns (get_table_schema cat table_name),
   primary_keys (get_table_schema cat table_name)).

End Introspector.

(** ** Sample catalogs *)

Module CatalogSamples.
Import Introspector.
Local Open Scope list_scope.

(** A source whose information-schema views cannot be read and whose
    foreign keys cannot be listed; the system catalogs answer. *)
Definition legacy : Catalog :=
  {| connected := true;
     table_exists := fun _ => Some true;
     information_schema := fun _ => None;
     sys_columns := fun _ => Some [Samples.id_column];
     probe := fun _ => None;
     key_column_usage := fun _ => Some [];
     sys_key_constraints := fun _ => Some ["id"];
     referential_constraints := fun _ => None |}.

(** A source that cannot be reached for schema queries. *)
Definition offline : Catalog :=
  {| connected := false;
     table_exists := fun _ => Some true;
     information_schema := fun _ => Some [Samples.id_column];
     sys_columns := fun _ => None;
     probe := fun _ => None;
     key_column_usage := fun _ => Some ["id"];
     sys_key_constraints := fun _ => None;
     referential_constraints := fun _ => Some [] |}.

(** A description entry with the ODBC code of a decimal column. *)
Definition decimal_entry : description :=
  {| desc_name := "amount"; desc_type_code := Some 3%Z;
     desc_display_size := Some 12%Z; desc_precision := Some 10%Z;
     desc_scale := Some 2%Z; desc_null_ok := true |}.

End CatalogSamples.

(** ** Target administration: [create_mariadb_table] and
    [clean_mariadb_tables]

    Both methods open a connection of their own to the target and send
    it a fixed sequence of statements.  The target is an oracle: whether
    it can be reached, which statement it refuses (given what the
    connection has received so far), and what [SHOW TABLES] returns.
    A refused statement raises in the method; [close] never raises. *)

Module Admin.
Import TypeMapper Orchestrator.
Local Open Scope nat_scope.
Local Open Scope list_scope.

Inductive statement :=
| ShowTables
| SetForeignKeyChecks (enabled : bool)
| DropTableIfExists (table : string)
| CreateTable (sql : string)
| Describe (table : string).

Inductive event :=
| Execute (s : statement)
| Commit
| Close.

#[global] Instance statement_eq_dec : EqDecision statement.
Proof. solve_decision. Defined.

#[global] Instance event_eq_dec : EqDecision event.
Proof. solve_decision. Defined.

Record Target := {
  connects : bool;
  raises : list event -> event -> bool;
  shown : list string
}.

(** One call on the connection: the call is recorded, and the result
    says whether it returned. *)
Definition send (tgt : Target) (e : event) (log : list event)
    : bool * list event :=
  (negb (raises tgt log e), log ++ [e]).

Definition newline : string := String (ascii_of_nat 10) EmptyString.

Definition indent16 : string := "                ".

Definition indent12 : string := "            ".

(** ["NULL" if col[5] == "YES" else "NOT NULL"] *)
Definition nullable (col : Column) : string :=
  if String.eqb (is_nullable col) "YES" then "NULL" else "NOT NULL".

Definition col_def (col : Column) : string :=
  ("`" ++ col_name col ++ "` "
   ++ convert_datatype (data_type col) (max_length col)
        (numeric_precision col) (numeric_scale col)
   ++ " " ++ nullable col)%string.

Definition pk_def (primary_keys : list string) : string :=
  ("PRIMARY KEY ("
   ++ String.concat ", " (map (fun pk => "`" ++ pk ++ "`") primary_keys)
   ++ ")")%string.

Definition col_definitions (columns : list Column)
    (primary_keys : list string) : list string :=
  map col_def columns
  ++ match primary_keys with
     | [] => []
     | _ :: _ => [pk_def primary_keys]
     end.

Definition create_sql (table_name : string) (columns : list Column)
    (primary_keys : list string) : string :=
  ("CREATE TABLE `" ++ table_name ++ "` (" ++ newline
   ++ indent16
   ++ String.concat ("," ++ newline ++ indent16)
        (col_definitions columns primary_keys)
   ++ newline ++ indent12
   ++ ") ENGINE=InnoDB DEFAULT CHARSET=utf8mb4 COLLATE=utf8mb4_bin")%string.

(** [create_mariadb_table]; the result and the calls the connection
    received.  The [foreign_keys] argument of the method is not read by
    its body.  The outcome of the [DROP] is discarded by the inner
    [try]. *)
Definition create_mariadb_table (tgt : Target) (table_name : string)
    (columns : list Column) (primary_keys : list string)
    : bool * list event :=
  if connects tgt then
    let '(_, log) := send tgt (Execute (DropTableIfExists table_name)) [] in
    let '(ok, log) :=
      send tgt (Execute (CreateTable
                  (create_sql table_name columns primary_keys))) log in
    if negb ok then (false, log ++ [Close]) else
    let '(ok, log) := send tgt Commit log in
    if negb ok then (false, log ++ [Close]) else
    let '(ok, log) := send tgt (Execute (Describe table_name)) log in
    if negb ok then (false, log ++ [Close]) else
    (true, log ++ [Close])
  else (false, []).

(** [target_tables] of [clean_mariadb_tables]. *)
Definition target_tables : list string :=
  [ "Detail"; "Inspection"; "IllegalProfit"; "Appeal"; "AllowRework";
    "Memo"; "ViolationCase"; "Announcement"; "Factory"; "CompanyOwner" ].

Section Names.

(** Python's [str.lower] on table names, which are held as the bytes of
    their UTF-8 text.  It maps more than the letters A to Z (the Kelvin
    sign to [k], accented capitals to their small letters), so it is kept
    abstract: what is proved holds whatever it does. *)
Variable str_lower : string -> string.

(** [any(t.lower() == table.lower() for t in tables)] *)
Definition table_exists (tables : list string) (table : string) : bool :=
  existsb (fun t => String.eqb (str_lower t) (str_lower table)) tables.

(** One turn of the loop over [target_tables]: [cleaned_count] and the
    calls so far. *)
Definition drop_step (tgt : Target) (tables : list string)
    (st : nat * list event) (table : string) : nat * list event :=
  let '(cleaned_count, log) := st in
  if table_exists tables table then
    let '(ok, log) := send tgt (Execute (DropTableIfExists table)) log in
    if ok then (cleaned_count + 1, log) else (cleaned_count, log)
  else (cleaned_count, log).

(** [clean_mariadb_tables]: the result, [cleaned_count] and the calls the
    connection received. *)
Definition clean_mariadb_tables (tgt : Target)
    : bool * (nat * list event) :=
  if connects tgt then
    let '(ok, log) := send tgt (Execute ShowTables) [] in
    if negb ok then (false, (0, log ++ [Close])) else
    let tables := shown tgt in
    let '(ok, log) := send tgt (Execute (SetForeignKeyChecks false)) log in
    if negb ok then (false, (0, log ++ [Close])) else
    let '(cleaned_count, log) :=
      foldl (drop_step tgt tables) (0, log) target_tables in
    let '(ok, log) := send tgt (Execute (SetForeignKeyChecks true)) log in
    if negb ok then (false, (cleaned_count, log ++ [Close])) else
    let '(ok, log) := send tgt Commit log in
    if negb ok then (false, (cleaned_count, log ++ [Close])) else
    (true, (cleaned_count, log ++ [Close]))
  else (false, (0, [])).

End Names.

(** The tables a call asked the target to drop. *)
Definition dropped (log : list event) : list string :=
  omap (fun e => match e with
                 | Execute (DropTableIfExists table) => Some table
                 | _ => None
                 end) log.

Definition is_drop (e : event) : bool :=
  match e with
  | Execute (DropTableIfExists _) => true
  | _ => false
  end.

End Admin.

(** ** The command line: [main]

    [main] calls each method of the migrator at most once, so a run is
    determined by what each call gives; [None] stands for an exception
    that leaves the method.  The result is the exit status of the
    process and the methods called, in order.  An interrupt from the
    keyboard is not modelled. *)

Module Cli.
Local Open Scope list_scope.

Inductive action := Migrate | Validate | Optimize | Clean | All.

Inductive step :=
| CleanTables
| MigrateDatabase
| CheckTarget
| ListSource
| ValidateMigration
| OptimizeTables.

#[global] Instance step_eq_dec : EqDecision step.
Proof. solve_decision. Defined.

Record Migrator := {
  clean_mariadb_tables : option bool;
  migrate_full_database : option bool;
  check_mariadb_tables_exist : option (list string);
  get_mssql_tables : option (list string);
  (** [validate_migration_complete(...)['overall_success']] *)
  validate_migration_complete : option bool;
  optimize_mariadb_tables : option unit
}.

Definition run := list step -> Z * list step.

(** A method call inside the [try] of [main]: an exception ends the
    process with status 1. *)
Definition call {A : Type} (s : step) (result : option A)
    (rest : A -> run) : run :=
  fun done =>
    match result with
    | None => (1%Z, done ++ [s])
    | Some a => rest a (done ++ [s])
    end.

(** Falling off the end of [main]. *)
Definition finish : run := fun done => (0%Z, done).

(** [sys.exit(1)] *)
Definition exit1 : run := fun done => (1%Z, done).

Section Names.

(** Python's [str.lower] on table names, kept abstract as in
    [Admin.table_exists]. *)
Variable str_lower : string -> string.

Definition missing_tables (existing_tables mssql_tables : list string)
    : list string :=
  List.filter
    (fun table =>
       negb (existsb (fun t => String.eqb (str_lower t) (str_lower table))
               existing_tables))
    mssql_tables.

Definition main (a : action) (m : Migrator) : Z * list step :=
  match a with
  | Clean =>
      call CleanTables (clean_mariadb_tables m) (fun _ => finish) []
  | Migrate =>
      call MigrateDatabase (migrate_full_database m) (fun _ => finish) []
  | Validate =>
      call CheckTarget (check_mariadb_tables_exist m) (fun existing_tables =>
      call ListSource (get_mssql_tables m) (fun mssql_tables =>
        match missing_tables existing_tables mssql_tables with
        | _ :: _ =>
            call MigrateDatabase (migrate_full_database m)
              (fun migrate_success =>
                 if migrate_success
                 then call ValidateMigration (validate_migration_complete m)
                        (fun _ => finish)
                 else exit1)
        | [] =>
            call ValidateMigration (validate_migration_complete m)
              (fun _ => finish)
        end)) []
  | Optimize =>
      call CheckTarget (check_mariadb_tables_exist m) (fun existing_tables =>
        match existing_tables with
        | [] =>
            call MigrateDatabase (migrate_full_database m)
              (fun migrate_success =>
                 if migrate_success
                 then call OptimizeTables (optimize_mariadb_tables m)
                        (fun _ => finish)
                 else exit1)
        | _ :: _ =>
            call OptimizeTables (optimize_mariadb_tables m)
              (fun _ => finish)
        end) []
  | All =>
      call MigrateDatabase (migrate_full_database m) (fun _ =>
      call ValidateMigration (validate_migration_complete m) (fun _ =>
      call OptimizeTables (optimize_mariadb_tables m) (fun _ => finish))) []
  end.

End Names.

(** No call of the run raises. *)
Definition quiet (m : Migrator) : Prop :=
  is_Some (clean_mariadb_tables m)
  /\ is_Some (migrate_full_database m)
  /\ is_Some (check_mariadb_tables_exist m)
  /\ is_Some (get_mssql_tables m)
  /\ is_Some (validate_migration_complete m)
  /\ is_Some (optimize_mariadb_tables m).

End Cli.

(** ** Sample targets and runs *)

Module AdminSamples.
Import Admin Cli.
Local Open Scope list_scope.

(** On names written with ASCII characters only, [str.lower] lowers the
    letters A to Z and nothing else; the names of the samples are such
    names. *)
Definition ascii_lower : string -> string := TypeMapper.lower.

(** A target that refuses every [DROP] and nothing else. *)
Definition keeps_tables : Target :=
  {| connects := true;
     raises := fun _ e => is_drop e;
     shown := ["factory"; "Memo"; "Customers"] |}.

(** A target that accepts the [CREATE] and the commit but refuses
    [DESCRIBE]. *)
Definition no_describe : Target :=
  {| connects := true;
     raises := fun _ e =>
       match e with Execute (Describe _) => true | _ => false end;
     shown := [] |}.

(** A target that accepts everything. *)
Definition willing : Target :=
  {| connects := true; raises := fun _ _ => false;
     shown := ["factory"; "Memo"; "Customers"] |}.

(** A migrator whose migration reports a failure and whose target holds
    one of the two source tables under another capitalisation. *)
Definition failing : Migrator :=
  {| Cli.clean_mariadb_tables := Some false;
     migrate_full_database := Some false;
     check_mariadb_tables_exist := Some ["factory"];
     get_mssql_tables := Some ["Factory"; "Memo"];
     validate_migration_complete := Some false;
     optimize_mariadb_tables := Some tt |}.

End AdminSamples.

(** * Properties *)

Example convert_datatype_try :
  TypeMapper.convert_datatype "NVarChar" (Some 50%Z) None None = "VARCHAR(50)"
  /\ TypeMapper.convert_datatype "Money" None None None = "DECIMAL(19,4)"
  /\ TypeMapper.convert_datatype "geography" (Some (-1)%Z) None None = "TEXT"
  /\ TypeMapper.convert_datatype "numeric" None (Some 0%Z) (Some 2%Z) = "DECIMAL(10,2)"
  /\ TypeMapper.convert_datatype "char" (Some (-1)%Z) None None = "CHAR(1)".
Proof. vm_compute. repeat split. Qed.

(** ** Properties of the type mapper *)

Section TypeMapperFacts.
Import TypeMapper.
Local Open Scope Z_scope.

Lemma datatype_mapping_lookup (k v : string) :
  datatype_mapping !! k = Some v -> (k, v) ∈ datatype_mapping_items.
Proof. apply elem_of_list_to_map_2. Qed.

Lemma datatype_mapping_nonempty (k v : string) :
  datatype_mapping !! k = Some v -> v <> "".
Proof.
  intros Hk. apply datatype_mapping_lookup in Hk.
  assert (Hall : Forall (fun kv => kv.2 <> "") datatype_mapping_items).
  { unfold datatype_mapping_items. repeat constructor; discriminate. }
  rewrite Forall_forall in Hall. apply (Hall (k, v)), Hk.
Qed.

Lemma convert_datatype_nonempty (t : string) (l p s : option Z) :
  convert_datatype t l p s <> "".
Proof.
  unfold convert_datatype.
  destruct (str_in (lower t) ["decimal"; "numeric"]).
  { destruct p as [p|], s as [s|]; try discriminate.
    destruct (truthy (Some p)); discriminate. }
  destruct (str_in (lower t) ["varchar"; "nvarchar"]).
  { destruct (positive_length l) as [n|]; try discriminate.
    destruct (16383 <? n); discriminate. }
  destruct (str_in (lower t) ["char"; "nchar"]).
  { destruct (positive_length l) as [n|]; try discriminate.
    destruct (255 <? n); discriminate. }
  destruct (datatype_mapping !! lower t) as [v|] eqn:Hv; simpl.
  - eapply datatype_mapping_nonempty, Hv.
  - discriminate.
Qed.

Lemma str_in_mapped (k : string) (l : list string) :
  Forall (fun x => is_Some (datatype_mapping !! x)) l ->
  datatype_mapping !! k = None -> str_in k l = false.
Proof.
  intros Hall Hk. unfold str_in. apply bool_decide_eq_false. intros Hin.
  rewrite Forall_forall in Hall. destruct (Hall k Hin) as [v Hv]. congruence.
Qed.

Lemma convert_datatype_unknown (t : string) (l p s : option Z) :
  datatype_mapping !! lower t = None -> convert_datatype t l p s = "TEXT".
Proof.
  intros Hk. unfold convert_datatype.
  rewrite !(str_in_mapped (lower t)) by
    (try assumption; repeat constructor; vm_compute; eauto).
  rewrite Hk. reflexivity.
Qed.

(** C3: [convert_datatype] is a total function that returns a non-empty
    type string for every source type name, length, precision and scale;
    a name that is not a key of the mapping table yields ["TEXT"]; and
    the four sample calls give TEXT, VARCHAR(50), DECIMAL(10,2) and
    VARCHAR(300). *)
Theorem convert_datatype_total :
  (forall (t : string) (l p s : option Z), convert_datatype t l p s <> "")
  /\ (forall (t : string) (l p s : option Z),
        datatype_mapping !! lower t = None ->
        convert_datatype t l p s = "TEXT")
  /\ convert_datatype "varchar" (Some 20000) None None = "TEXT"
  /\ convert_datatype "varchar" (Some 50) None None = "VARCHAR(50)"
  /\ convert_datatype "decimal" None (Some 10) (Some 2) = "DECIMAL(10,2)"
  /\ convert_datatype "char" (Some 300) None None = "VARCHAR(300)".
Proof.
  split; [exact convert_datatype_nonempty|].
  split; [exact convert_datatype_unknown|].
  repeat split; vm_compute; reflexivity.
Qed.

Lemma convert_datatype_total_witness :
  convert_datatype "XML" (Some 12) None None = "TEXT".
Proof.
  apply (proj1 (proj2 convert_datatype_total)). vm_compute. reflexivity.
Defined.

End TypeMapperFacts.

(** ** The target connection *)

Section DriverFacts.
Import Driver.
Local Open Scope nat_scope.
Local Open Scope list_scope.

Variable insert_error : list row -> row -> option error.
Variable commit_error : list row -> list row -> option error.

(** A driver call never touches the durable rows, except [commit]. *)
Lemma execute_ok (r : row) (c c' : conn) (u : unit) :
  execute insert_error r c = (Ok u, c') ->
  committed c' = committed c /\ pending c' = pending c ++ [r]
  /\ calls c' = calls c ++ [Execute r].
Proof.
  unfold execute. destruct (insert_error _ r); intros H; inversion H; subst; simpl; auto.
Qed.

Lemma execute_raise (r : row) (c c' : conn) (e : error) :
  execute insert_error r c = (Raise e, c') ->
  committed c' = committed c /\ pending c' = pending c
  /\ calls c' = calls c ++ [Execute r].
Proof.
  unfold execute. destruct (insert_error _ r); intros H; inversion H; subst; simpl; auto.
Qed.

Lemma executemany_ok (rs : list row) (c c' : conn) (u : unit) :
  executemany insert_error rs c = (Ok u, c') ->
  committed c' = committed c /\ pending c' = pending c ++ rs
  /\ calls c' = calls c ++ [ExecuteMany rs].
Proof.
  unfold executemany. destruct (statement_error _ _ rs); intros H; inversion H; subst; simpl; auto.
Qed.

Lemma executemany_raise (rs : list row) (c c' : conn) (e : error) :
  executemany insert_error rs c = (Raise e, c') ->
  committed c' = committed c /\ pending c' = pending c
  /\ calls c' = calls c ++ [ExecuteMany rs].
Proof.
  unfold executemany. destruct (statement_error _ _ rs); intros H; inversion H; subst; simpl; auto.
Qed.

Lemma commit_ok (c c' : conn) (u : unit) :
  commit commit_error c = (Ok u, c') ->
  committed c' = committed c ++ pending c /\ pending c' = []
  /\ calls c' = calls c ++ [Commit].
Proof.
  unfold commit. destruct (commit_error _ _); intros H; inversion H; subst; simpl; auto.
Qed.

Lemma commit_raise (c c' : conn) (e : error) :
  commit commit_error c = (Raise e, c') ->
  committed c' = committed c /\ pending c' = pending c
  /\ calls c' = calls c ++ [Commit].
Proof.
  unfold commit. destruct (commit_error _ _); intros H; inversion H; subst; simpl; auto.
Qed.

Lemma close_rollback (c : conn) :
  committed (close (rollback c)) = committed c
  /\ pending (close (rollback c)) = []
  /\ calls (close (rollback c)) = calls c ++ [Rollback; Close].
Proof. simpl. rewrite <- app_assoc. auto. Qed.

End DriverFacts.

(** ** Page insertion *)

Section InsertFacts.
Import Driver Transfer.
Local Open Scope nat_scope.
Local Open Scope list_scope.

Variable insert_error : list row -> row -> option error.

Lemma range_from_0 (n : nat) :
  range 0 n chunk_size = map (fun k => k * chunk_size) (seq 0 ((n + 99) / 100)).
Proof. unfold range, chunk_size. rewrite Nat.sub_0_r. reflexivity. Qed.

Lemma chunks_cover (m : nat) : forall data : list row,
  length data <= m * chunk_size ->
  concat (map (chunk_at data) (map (fun k => k * chunk_size) (seq 0 m))) = data.
Proof.
  induction m as [|m IH]; intros data Hlen.
  - destruct data; [reflexivity | simpl in Hlen; lia].
  - rewrite <- cons_seq, <- fmap_S_seq. simpl.
    assert (Htail :
      concat (map (chunk_at data)
                (map (fun k => k * chunk_size) (S <$> seq 0 m)))
      = drop chunk_size data).
    { etransitivity;
        [| apply (IH (drop chunk_size data)); rewrite length_drop;
           unfold chunk_size in *; lia].
      f_equal. rewrite !map_map. apply map_ext.
      intros k. simpl. unfold chunk_at. rewrite drop_drop. reflexivity. }
    rewrite Htail. unfold chunk_at. rewrite drop_0. apply take_drop.
Qed.

Lemma chunk_count (n : nat) : n <= (n + 99) / 100 * chunk_size.
Proof.
  unfold chunk_size.
  pose proof (Nat.div_mod_eq (n + 99) 100).
  pose proof (Nat.mod_upper_bound (n + 99) 100). lia.
Qed.

Lemma chunk_at_length (data : list row) (k : nat) :
  k < (length data + 99) / 100 ->
  length (chunk_at data (k * chunk_size))
  = min chunk_size (length data - k * chunk_size)
  /\ 0 < length (chunk_at data (k * chunk_size)) <= chunk_size.
Proof.
  intros Hk. unfold chunk_at. rewrite length_take, length_drop.
  split; [reflexivity|]. unfold chunk_size in *.
  assert (k * 100 < length data).
  { pose proof (Nat.div_mod_eq (length data + 99) 100).
    pose proof (Nat.mod_upper_bound (length data + 99) 100). nia. }
  lia.
Qed.

(** The chunk loop issues one [executemany] per start index, in order,
    and stops at the first one that raises. *)
Lemma insert_chunks_calls (data : list row) (starts : list nat) :
  forall c : conn,
    match insert_chunks insert_error data starts c with
    | (Ok _, c') =>
        committed c' = committed c
        /\ pending c' = pending c ++ concat (map (chunk_at data) starts)
        /\ calls c' = calls c ++ map (fun i => ExecuteMany (chunk_at data i)) starts
    | (Raise _, c') =>
        committed c' = committed c
        /\ exists k, k < length starts
           /\ calls c' = calls c
                ++ map (fun i => ExecuteMany (chunk_at data i)) (take (S k) starts)
    end.
Proof.
  induction starts as [|i rest IH]; intros c; simpl.
  - rewrite !app_nil_r. auto.
  - unfold mbind, M_bind, bind.
    destruct (executemany insert_error (chunk_at data i) c)
      as [[u|e] c1] eqn:Hex.
    + apply executemany_ok in Hex as (Hc & Hp & Hl).
      specialize (IH c1).
      destruct (insert_chunks insert_error data rest c1) as [[u'|e'] c2].
      * destruct IH as (IHc & IHp & IHl). rewrite IHc, IHp, IHl, Hc, Hp, Hl.
        rewrite <- !app_assoc. auto.
      * destruct IH as (IHc & k & Hk & IHl). split; [congruence|].
        exists (S k). split; [lia|]. rewrite IHl, Hl, <- app_assoc. reflexivity.
    + apply executemany_raise in Hex as (Hc & Hp & Hl). split; [exact Hc|].
      exists 0. split; [lia|]. rewrite Hl. reflexivity.
Qed.

(** A page that goes in leaves the durable rows alone and stages exactly
    its rows; a page that does not leaves the durable rows alone. *)
Lemma insert_batch_effect (df : DataFrame) (c : conn) :
  committed (insert_batch_to_mariadb insert_error df c).2 = committed c
  /\ ((insert_batch_to_mariadb insert_error df c).1 = true ->
      empty df = false ->
      pending (insert_batch_to_mariadb insert_error df c).2
      = pending c ++ data_tuples df).
Proof.
  unfold insert_batch_to_mariadb.
  destruct (empty df); [simpl; split; [reflexivity | intros _ [=]]|].
  unfold succeeds. cbv zeta.
  destruct (data_tuples df) as [|r [|r' data]] eqn:Hdata.
  - simpl. rewrite app_nil_r. auto.
  - destruct (execute insert_error r c) as [[u|e] c1] eqn:Hex; simpl.
    + apply execute_ok in Hex as (Hc & Hp & _). auto.
    + apply execute_raise in Hex as (Hc & _). split; [auto | intros [=]].
  - set (rows := r :: r' :: data) in *.
    destruct (length rows <=? 100).
    + destruct (executemany insert_error rows c) as [[u|e] c1] eqn:Hex; simpl.
      * apply executemany_ok in Hex as (Hc & Hp & _). auto.
      * apply executemany_raise in Hex as (Hc & _). split; [auto | intros [=]].
    + pose proof (insert_chunks_calls rows (range 0 (length rows) chunk_size) c) as H.
      destruct (insert_chunks insert_error rows _ c) as [[u|e] c1]; simpl.
      * destruct H as (Hc & Hp & _). split; [exact Hc|]. intros _ _.
        rewrite Hp, range_from_0, chunks_cover; [reflexivity | apply chunk_count].
      * destruct H as (Hc & _). split; [auto | intros [=]].
Qed.

Lemma data_tuples_length (df : DataFrame) : length (data_tuples df) = len df.
Proof. unfold data_tuples, len. apply length_map. Qed.

(** C4: how a non-empty page reaches the cursor.  One row: a single
    [execute].  Two to a hundred rows: one [executemany] of the whole page.
    More than a hundred: one [executemany] per slice
    [data[100*j : 100*j + 100]], in order, up to and including the first
    one the server refuses, and all of them when the page goes in; the
    slices partition the page and hold between 1 and 100 rows each.  For
    101 rows the slices are the first 100 rows and the last one. *)
Theorem insert_batch_dispatch (df : DataFrame) (c : conn) :
  empty df = false ->
  let data := data_tuples df in
  let slices := (len df + 99) / 100 in
  let slice j := chunk_at data (j * chunk_size) in
  let res := insert_batch_to_mariadb insert_error df c in
  (len df = 1 ->
     exists r, data = [r] /\ calls res.2 = calls c ++ [Execute r])
  /\ (2 <= len df <= 100 -> calls res.2 = calls c ++ [ExecuteMany data])
  /\ (100 < len df ->
      (exists k, 0 < k <= slices
         /\ calls res.2
            = calls c ++ map (fun j => ExecuteMany (slice j)) (seq 0 k))
      /\ (res.1 = true ->
          calls res.2
          = calls c ++ map (fun j => ExecuteMany (slice j)) (seq 0 slices))
      /\ concat (map slice (seq 0 slices)) = data
      /\ (forall j, j < slices ->
            length (slice j) = min 100 (len df - 100 * j)
            /\ 0 < length (slice j) <= 100))
  /\ (len df = 101 ->
      map slice (seq 0 slices) = [take 100 data; drop 100 data]
      /\ length (take 100 data) = 100 /\ length (drop 100 data) = 1).
Proof.
  intros Hne data slices slice res.
  assert (Hlen : length data = len df) by apply data_tuples_length.
  subst res. unfold insert_batch_to_mariadb. rewrite Hne.
  fold data. unfold succeeds. cbv zeta. clearbody data.
  assert (Hmany : forall (A : row -> M unit) (B : M unit),
            length data <> 1 ->
            match data with [r] => A r | _ => B end = B).
  { intros A B Hn. destruct data as [|r [|r' rest]]; simpl in Hn;
      try reflexivity; lia. }
  split; [|split; [|split]].
  - intros H1. destruct data as [|r [|r' rest]]; simpl in Hlen; try lia.
    exists r. split; [reflexivity|].
    destruct (execute insert_error r c) as [[u|e] c1] eqn:Hex; simpl.
    + apply execute_ok in Hex. tauto.
    + apply execute_raise in Hex. tauto.
  - intros [H2 H100]. rewrite Hmany by lia.
    replace (length data <=? 100) with true
      by (symmetry; apply Nat.leb_le; lia).
    destruct (executemany insert_error data c) as [[u|e] c1] eqn:Hex; simpl.
    + apply executemany_ok in Hex. tauto.
    + apply executemany_raise in Hex. tauto.
  - intros H100.
    assert (Hcover : concat (map slice (seq 0 slices)) = data).
    { subst slice slices. rewrite <- Hlen.
      etransitivity;
        [| apply (chunks_cover ((length data + 99) / 100) data), chunk_count].
      rewrite map_map. reflexivity. }
    assert (Hsizes : forall j, j < slices ->
              length (slice j) = min 100 (len df - 100 * j)
              /\ 0 < length (slice j) <= 100).
    { intros j Hj. subst slice slices. rewrite <- Hlen in *.
      destruct (chunk_at_length data j Hj) as [-> Hb].
      unfold chunk_size in *. split; [f_equal; lia | exact Hb]. }
    rewrite Hmany by lia.
    replace (length data <=? 100) with false
      by (symmetry; apply Nat.leb_gt; lia).
    rewrite range_from_0, Hlen. fold slices.
    pose proof (insert_chunks_calls data
                  (map (fun k => k * chunk_size) (seq 0 slices)) c) as H.
    destruct (insert_chunks insert_error data _ c) as [[u|e] c1]; simpl.
    + destruct H as (_ & _ & Hcalls).
      rewrite map_map in Hcalls.
      assert (0 < slices).
      { subst slices. apply Nat.div_str_pos. lia. }
      split; [exists slices; split; [lia | exact Hcalls]|].
      split; [intros _; exact Hcalls | split; [exact Hcover | exact Hsizes]].
    + destruct H as (_ & k & Hk & Hcalls).
      rewrite length_map, length_seq in Hk.
      rewrite firstn_map, take_seq, map_map in Hcalls.
      replace (S k `min` slices) with (S k) in Hcalls by lia.
      split; [exists (S k); split; [lia | exact Hcalls]|].
      split; [intros [=] | split; [exact Hcover | exact Hsizes]].
  - intros H101. subst slice slices. rewrite H101.
    change ((101 + 99) / 100) with 2. simpl.
    unfold chunk_at, chunk_size. rewrite drop_0.
    assert (Hd : length (drop 100 data) = 1) by (rewrite length_drop; lia).
    rewrite (take_ge (drop 100 data)) by lia.
    repeat split; [|exact Hd]. rewrite length_take. lia.
Qed.

End InsertFacts.

(** ** Pages that go in and pages that do not *)

Section InsertVerdicts.
Import Driver Transfer Checkpoints.
Local Open Scope nat_scope.
Local Open Scope list_scope.

Variable insert_error : list row -> row -> option error.

Lemma commits_app (l1 l2 : list call) :
  commits (l1 ++ l2) = commits l1 + commits l2.
Proof. unfold commits. rewrite List.filter_app, length_app. reflexivity. Qed.

Lemma chunk_at_subset (data : list row) (i : nat) (r : row) :
  r ∈ chunk_at data i -> r ∈ data.
Proof.
  unfold chunk_at. intros Hr. apply elem_of_take in Hr as (j & Hj & _).
  rewrite lookup_drop in Hj. apply list_elem_of_lookup. eexists. exact Hj.
Qed.

Lemma statement_error_accepts (rs : list row) :
  (forall r seen, r ∈ rs -> insert_error seen r = None) ->
  forall seen, statement_error insert_error seen rs = None.
Proof.
  induction rs as [|r rs IH]; intros Hok seen; simpl; [reflexivity|].
  rewrite Hok by (apply list_elem_of_here).
  apply IH. intros r' seen' Hr'. apply Hok. apply list_elem_of_further, Hr'.
Qed.

Lemma statement_error_refuses (rs : list row) (bad : row) :
  bad ∈ rs ->
  (forall seen, insert_error seen bad <> None) ->
  forall seen, statement_error insert_error seen rs <> None.
Proof.
  induction rs as [|r rs IH]; intros Hin Hbad seen; [inversion Hin|].
  simpl. destruct (insert_error seen r) as [e|] eqn:Hr; [discriminate|].
  apply elem_of_cons in Hin as [-> | Hin].
  - exfalso. exact (Hbad seen Hr).
  - apply IH; assumption.
Qed.

Lemma insert_chunks_accepts (data : list row) (starts : list nat) :
  (forall r seen, r ∈ data -> insert_error seen r = None) ->
  forall c, (insert_chunks insert_error data starts c).1 = Ok tt.
Proof.
  intros Hok. induction starts as [|i rest IH]; intros c; simpl;
    [reflexivity|].
  unfold mbind, M_bind, bind, executemany.
  rewrite statement_error_accepts; [apply IH|].
  intros r seen Hr. apply Hok. eapply chunk_at_subset. exact Hr.
Qed.

Lemma insert_chunks_refuses (data : list row) (bad : row)
    (starts : list nat) :
  (forall seen, insert_error seen bad <> None) ->
  bad ∈ concat (map (chunk_at data) starts) ->
  forall c, exists e, (insert_chunks insert_error data starts c).1 = Raise e.
Proof.
  intros Hbad. induction starts as [|i rest IH]; intros Hin c;
    [inversion Hin|].
  simpl in Hin |- *. unfold mbind, M_bind, bind, executemany.
  destruct (statement_error insert_error
              (visible (received (ExecuteMany (chunk_at data i)) c))
              (chunk_at data i)) as [e|] eqn:Hstmt.
  - exists e. reflexivity.
  - apply elem_of_app in Hin as [Hin | Hin].
    + exfalso. exact (statement_error_refuses _ bad Hin Hbad _ Hstmt).
    + apply IH. exact Hin.
Qed.

(** The insert calls of a page add no commit. *)
Lemma insert_batch_commits (df : DataFrame) (c : conn) :
  commits (calls (insert_batch_to_mariadb insert_error df c).2)
  = commits (calls c).
Proof.
  unfold insert_batch_to_mariadb. destruct (empty df); [reflexivity|].
  unfold succeeds. cbv zeta.
  destruct (data_tuples df) as [|r [|r' data]].
  - change (commits (calls c ++ [ExecuteMany []]) = commits (calls c)).
    rewrite commits_app. cbn. lia.
  - destruct (execute insert_error r c) as [[u|e] c1] eqn:Hex; simpl.
    + apply execute_ok in Hex as (_ & _ & ->).
      rewrite commits_app. cbn. lia.
    + apply execute_raise in Hex as (_ & _ & ->).
      rewrite commits_app. cbn. lia.
  - set (rows := r :: r' :: data) in *.
    destruct (length rows <=? 100).
    + destruct (executemany insert_error rows c) as [[u|e] c1] eqn:Hex; simpl.
      * apply executemany_ok in Hex as (_ & _ & ->).
        rewrite commits_app. cbn. lia.
      * apply executemany_raise in Hex as (_ & _ & ->).
        rewrite commits_app. cbn. lia.
    + assert (Hmany : forall starts : list nat,
                commits (map (fun i => ExecuteMany (chunk_at rows i)) starts)
                = 0).
      { intros starts. induction starts as [|i starts IHs]; [reflexivity|].
        exact IHs. }
      pose proof (insert_chunks_calls insert_error rows
                    (range 0 (length rows) chunk_size) c) as H.
      destruct (insert_chunks insert_error rows _ c) as [[u|e] c1]; simpl.
      * destruct H as (_ & _ & ->). rewrite commits_app, Hmany. lia.
      * destruct H as (_ & k & _ & ->). rewrite commits_app, Hmany. lia.
Qed.

(** A page whose rows the server accepts whatever it has seen goes in. *)
Lemma insert_batch_accepts (df : DataFrame) (c : conn) :
  (forall r seen, r ∈ staged df -> insert_error seen r = None) ->
  (insert_batch_to_mariadb insert_error df c).1 = true.
Proof.
  unfold staged, insert_batch_to_mariadb.
  destruct (empty df); [reflexivity|]. intros Hok.
  unfold succeeds. cbv zeta.
  destruct (data_tuples df) as [|r [|r' data]].
  - reflexivity.
  - unfold execute. rewrite Hok by (apply list_elem_of_here). reflexivity.
  - set (rows := r :: r' :: data) in *.
    destruct (length rows <=? 100).
    + unfold executemany. rewrite statement_error_accepts by exact Hok.
      reflexivity.
    + pose proof (insert_chunks_accepts rows
                    (range 0 (length rows) chunk_size) Hok c) as Hin.
      destruct (insert_chunks insert_error rows _ c) as [[u|e] c1];
        [reflexivity | discriminate Hin].
Qed.

(** A page with a row that the server refuses whatever it has seen does
    not go in. *)
Lemma insert_batch_refuses (df : DataFrame) (bad : row) (c : conn) :
  bad ∈ staged df ->
  (forall seen, insert_error seen bad <> None) ->
  (insert_batch_to_mariadb insert_error df c).1 = false.
Proof.
  unfold staged, insert_batch_to_mariadb.
  destruct (empty df); [intros Hin; inversion Hin|]. intros Hin Hbad.
  unfold succeeds. cbv zeta.
  destruct (data_tuples df) as [|r [|r' data]] eqn:Hdata.
  - inversion Hin.
  - apply list_elem_of_singleton in Hin as ->. unfold execute.
    destruct (insert_error _ r) as [e|] eqn:Hr; [reflexivity|].
    exfalso. exact (Hbad _ Hr).
  - set (rows := r :: r' :: data) in *.
    destruct (length rows <=? 100).
    + unfold executemany.
      destruct (statement_error insert_error _ rows) as [e|] eqn:Hstmt;
        [reflexivity|].
      exfalso. exact (statement_error_refuses rows bad Hin Hbad _ Hstmt).
    + destruct (insert_chunks_refuses rows bad
                  (range 0 (length rows) chunk_size) Hbad) with (c := c)
        as [e He].
      { rewrite range_from_0, chunks_cover; [exact Hin | apply chunk_count]. }
      destruct (insert_chunks insert_error rows _ c) as [[u|e'] c1];
        [discriminate He | reflexivity].
Qed.

End InsertVerdicts.

(** ** Row-by-row fallback *)

Section ProblemData.
Import Driver Transfer.
Local Open Scope nat_scope.

Lemma string_length_app (s t : string) :
  String.length (s ++ t) = String.length s + String.length t.
Proof. induction s as [|a s IH]; simpl; [reflexivity | now rewrite IH]. Qed.

Lemma string_length_prefix (n : nat) : forall s : string,
  String.length (String.substring 0 n s) = min n (String.length s).
Proof.
  induction n as [|n IH]; intros [|a s]; simpl; try reflexivity.
  now rewrite IH.
Qed.

(** A string that is logged is never longer than 50 characters: it is the
    value itself when that is short enough, and otherwise its first 47
    characters and three dots. *)
Lemma problem_value_cut (v : value) :
  match is_str v with
  | Some s =>
      if 50 <? String.length s
      then problem_value v = VStr (String.substring 0 47 s ++ "...")
           /\ String.length (String.substring 0 47 s ++ "...") = 50
      else problem_value v = v
  | None => problem_value v = v
  end.
Proof.
  unfold problem_value. destruct (is_str v) as [s|]; [|reflexivity].
  destruct (50 <? String.length s) eqn:Hlen; [|reflexivity].
  split; [reflexivity|]. apply Nat.ltb_lt in Hlen.
  rewrite string_length_app, string_length_prefix.
  change (String.length "...") with 3. lia.
Qed.

Lemma problem_value_short (v : value) : short_text (problem_value v).
Proof.
  intros s Hs. pose proof (problem_value_cut v) as H.
  destruct (is_str v) as [s0|] eqn:Hv.
  - destruct (50 <? String.length s0) eqn:Hlen.
    + destruct H as [H Hl]. rewrite H in Hs. simpl in Hs.
      injection Hs as <-. lia.
    + rewrite H, Hv in Hs. injection Hs as <-.
      apply Nat.ltb_ge in Hlen. exact Hlen.
  - rewrite H, Hv in Hs. discriminate.
Qed.

Lemma problem_data_short (cols : list string) (r : row) :
  map_Forall (fun _ v => short_text v) (problem_data cols r).
Proof.
  unfold problem_data.
  assert (Hgen : forall (l : list (string * value)) (d : gmap string value),
            map_Forall (fun _ v => short_text v) d ->
            map_Forall (fun _ v => short_text v)
              (foldl (fun d cv => <[cv.1 := problem_value cv.2]> d) d l)).
  { induction l as [|[k v] l IH]; intros d Hd; simpl; [exact Hd|].
    apply IH, map_Forall_insert_2; [apply problem_value_short | exact Hd]. }
  apply Hgen, map_Forall_empty.
Qed.

End ProblemData.

(** *** What a report shows *)

Section DiagnosisFacts.
Import Driver Transfer Diagnosis.
Local Open Scope nat_scope.
Local Open Scope list_scope.

Lemma logged_as_problem_value (v : value) : logged_as v (problem_value v).
Proof.
  unfold logged_as, problem_value. destruct (is_str v) as [s|].
  - destruct (50 <? String.length s) eqn:Hlen.
    + split.
      * intros s0 Hs0 _. injection Hs0 as <-. reflexivity.
      * intros Hshort. apply Nat.ltb_lt in Hlen.
        specialize (Hshort s eq_refl). lia.
    + split.
      * intros s0 Hs0 Hlong. injection Hs0 as <-.
        apply Nat.ltb_ge in Hlen. lia.
      * reflexivity.
  - split; [intros s Hs; discriminate Hs | reflexivity].
Qed.

Local Abbreviation log_cell :=
  (fun (d : gmap string value) (cv : string * value) =>
     <[cv.1 := problem_value cv.2]> d).

(** A column name that no cell carries keeps the entry it had. *)
Lemma logged_cells_absent (l : list (string * value)) :
  forall (d : gmap string value) (col : string),
    (forall j v, l !! j <> Some (col, v)) ->
    foldl log_cell d l !! col = d !! col.
Proof.
  induction l as [|[k x] l IH]; intros d col Hnone; simpl; [reflexivity|].
  rewrite IH.
  - apply lookup_insert_ne. intros Heq. subst k. exact (Hnone 0 x eq_refl).
  - intros j v. exact (Hnone (S j) v).
Qed.

(** The last cell under a column name is the one the dict shows. *)
Lemma logged_cells_last (l : list (string * value)) :
  forall (d : gmap string value) (i : nat) (col : string) (v : value),
    l !! i = Some (col, v) ->
    (forall j v', i < j -> l !! j <> Some (col, v')) ->
    foldl log_cell d l !! col = Some (problem_value v).
Proof.
  induction l as [|[k x] l IH]; intros d i col v Hi Hlast;
    [destruct i; discriminate Hi|].
  destruct i as [|i]; simpl in *.
  - injection Hi as -> ->. rewrite logged_cells_absent.
    + apply lookup_insert_eq.
    + intros j v'. apply (Hlast (S j) v'). lia.
  - apply (IH _ i); [exact Hi|].
    intros j v' Hj. apply (Hlast (S j) v'). lia.
Qed.

(** Every entry of the dict comes from a cell. *)
Lemma logged_cells_from (l : list (string * value)) :
  forall (d : gmap string value) (col : string) (w : value),
    foldl log_cell d l !! col = Some w ->
    d !! col = Some w
    \/ exists i v, l !! i = Some (col, v) /\ w = problem_value v.
Proof.
  induction l as [|[k x] l IH]; intros d col w; simpl; [auto|].
  intros Hw. apply IH in Hw as [Hw | (i & v & Hi & ->)].
  - destruct (decide (k = col)) as [->|Hne].
    + rewrite lookup_insert_eq in Hw. injection Hw as <-.
      right. exists 0, x. auto.
    + rewrite lookup_insert_ne in Hw by exact Hne. auto.
  - right. exists (S i), v. auto.
Qed.

Lemma problem_data_describes (cols : list string) (r : row) :
  describes cols r (problem_data cols r).
Proof.
  unfold describes, problem_data. split.
  - intros col w Hw.
    apply logged_cells_from in Hw as [Hw | (i & v & Hi & ->)].
    + rewrite lookup_empty in Hw. discriminate Hw.
    + apply lookup_zip_with_Some in Hi as (c & v' & Heq & Hc & Hv).
      injection Heq as <- <-.
      exists i, v. split; [exact Hc|].
      split; [exact Hv | apply logged_as_problem_value].
  - intros i col v Hc Hv Hlast. exists (problem_value v).
    split; [|apply logged_as_problem_value].
    apply (logged_cells_last _ _ i).
    + apply lookup_zip_with_Some. exists col, v. auto.
    + intros j v' Hj Hjv.
      apply lookup_zip_with_Some in Hjv as (c & x & Heq & Hcj & Hvj).
      injection Heq as <- <-.
      assert (Hnone : Some v' = None)
        by (rewrite <- Hvj; exact (Hlast j Hj Hcj)).
      discriminate Hnone.
Qed.

End DiagnosisFacts.

Section FallbackFacts.
Import Driver Transfer Diagnosis.
Local Open Scope nat_scope.
Local Open Scope list_scope.
Local Arguments Nat.min : simpl never.

Variable insert_error : list row -> row -> option error.

Ltac fallback_step r c :=
  simpl;
  destruct (execute insert_error (map fallback_value r) c)
    as [[u|[errno msg]] c1] eqn:Hex.

(** The loop over [pre ++ post] is the loop over [pre], followed by the
    loop over [post] unless the first one stopped on its eleventh error. *)
Lemma fallback_loop_app (cols : list string) (pre post : list row) :
  forall (i : nat) (st : fallback_state) (c : conn),
    error_count st <= 10 ->
    fallback_loop insert_error cols i (pre ++ post) st c
    = let (st1, c1) := fallback_loop insert_error cols i pre st c in
      if 10 <? error_count st1 then (st1, c1)
      else fallback_loop insert_error cols (i + length pre) post st1 c1.
Proof.
  induction pre as [|r pre IH]; intros i st c Hst.
  - simpl. replace (10 <? error_count st) with false
      by (symmetry; apply Nat.ltb_ge; lia).
    rewrite Nat.add_0_r. reflexivity.
  - fallback_step r c.
    + rewrite IH by (simpl; lia). simpl.
      replace (i + S (length pre)) with (S (i + length pre)) by lia.
      reflexivity.
    + destruct (10 <? S (error_count st)) eqn:Hlim.
      * simpl. rewrite Hlim. reflexivity.
      * apply Nat.ltb_ge in Hlim. rewrite IH by (simpl; lia). simpl.
        replace (i + S (length pre)) with (S (i + length pre)) by lia.
        reflexivity.
Qed.

(** Counters only grow, and the error counter stops at 11. *)
Lemma fallback_loop_counts (cols : list string) (rows : list row) :
  forall (i : nat) (st : fallback_state) (c : conn),
    error_count st <= 10 ->
    let st' := (fallback_loop insert_error cols i rows st c).1 in
    error_count st <= error_count st' <= 11
    /\ success_count st <= success_count st'.
Proof.
  induction rows as [|r rows IH]; intros i st c Hst; [simpl; lia|].
  fallback_step r c.
  - specialize (IH (S i) {| success_count := S (success_count st);
                           error_count := error_count st;
                           reports := reports st |} c1 Hst).
    simpl in IH. lia.
  - destruct (10 <? S (error_count st)) eqn:Hlim; [simpl; lia|].
    apply Nat.ltb_ge in Hlim.
    match goal with
    | |- context [fallback_loop _ _ _ _ ?s _] => specialize (IH (S i) s c1)
    end.
    simpl in IH. lia.
Qed.

(** The rows sent to the server are a prefix of the page, one [execute]
    each, as many as there were successes and errors. *)
Lemma fallback_loop_calls (cols : list string) (rows : list row) :
  forall (i : nat) (st : fallback_state) (c : conn),
    let res := fallback_loop insert_error cols i rows st c in
    exists n, n <= length rows
      /\ n + success_count st + error_count st
         = success_count res.1 + error_count res.1
      /\ calls res.2
         = calls c ++ map (fun r => Execute (map fallback_value r)) (take n rows)
      /\ committed res.2 = committed c.
Proof.
  induction rows as [|r rows IH]; intros i st c.
  - exists 0. simpl. rewrite app_nil_r. auto with lia.
  - fallback_step r c.
    + apply execute_ok in Hex as (Hc & _ & Hl).
      match goal with
      | |- context [fallback_loop _ _ _ _ ?s _] =>
          destruct (IH (S i) s c1) as (n & Hn & Hcount & Hcalls & Hcomm)
      end.
      exists (S n). simpl in *. rewrite Hcalls, Hl, <- app_assoc.
      repeat split; auto with lia. congruence.
    + apply execute_raise in Hex as (Hc & _ & Hl).
      destruct (10 <? S (error_count st)) eqn:Hlim.
      * exists 1. simpl. rewrite ?take_0, Hl. repeat split; auto with lia.
      * match goal with
        | |- context [fallback_loop _ _ _ _ ?s _] =>
            destruct (IH (S i) s c1) as (n & Hn & Hcount & Hcalls & Hcomm)
        end.
        exists (S n). simpl in *. rewrite Hcalls, Hl, <- app_assoc.
        repeat split; auto with lia. congruence.
Qed.

(** Reports are written for the first five errors and for no other: each
    is about a row of the page, and after five errors the list no longer
    changes. *)
Lemma fallback_loop_reports (cols : list string) (rows : list row) :
  forall (i : nat) (st : fallback_state) (c : conn),
    let st' := (fallback_loop insert_error cols i rows st c).1 in
    (length (reports st) = min 5 (error_count st) ->
     length (reports st') = min 5 (error_count st'))
    /\ (5 <= error_count st -> reports st' = reports st)
    /\ exists new, reports st' = reports st ++ new
       /\ Forall (fun rep =>
            i < row_number rep
            /\ exists r, rows !! (row_number rep - S i) = Some r
                 /\ data rep = problem_data cols r) new.
Proof.
  induction rows as [|r rows IH]; intros i st c.
  - simpl. split; [auto|]. split; [auto|]. exists []. rewrite app_nil_r. auto.
  - fallback_step r c.
    + match goal with
      | |- context [fallback_loop _ _ _ _ ?s _] =>
          destruct (IH (S i) s c1) as (Hlen & Hfrozen & new & Hnew & Hall)
      end.
      simpl in *. split; [exact Hlen|]. split; [exact Hfrozen|].
      exists new. split; [exact Hnew|].
      eapply Forall_impl; [exact Hall|]. intros rep (Hi & r0 & Hr0 & Hd).
      split; [lia|]. exists r0. split; [|exact Hd].
      replace (row_number rep - S i) with (S (row_number rep - S (S i))) by lia.
      exact Hr0.
    + set (st1 := {| success_count := success_count st;
                     error_count := S (error_count st);
                     reports := _ |}).
      assert (Hst1 :
        (length (reports st) = min 5 (error_count st) ->
         length (reports st1) = min 5 (error_count st1))
        /\ (5 <= error_count st -> reports st1 = reports st)
        /\ exists new, reports st1 = reports st ++ new
           /\ Forall (fun rep =>
                i < row_number rep
                /\ exists r0, (r :: rows) !! (row_number rep - S i) = Some r0
                     /\ data rep = problem_data cols r0) new).
      { subst st1. simpl.
        match goal with
        | |- context [if ?b then _ else reports st] => destruct b eqn:H5
        end.
        - apply Nat.leb_le in H5. split; [|split; [lia|]].
          + intros Hl. rewrite length_app, Hl. cbn [length]. lia.
          + eexists. split; [reflexivity|]. constructor; [|constructor].
            simpl. split; [lia|]. exists r.
            replace (i + 1 - S i) with 0 by lia. auto.
        - apply Nat.leb_gt in H5. split; [lia|]. split; [auto|].
          exists []. rewrite app_nil_r. auto. }
      destruct Hst1 as (Hlen1 & Hfrozen1 & new1 & Hnew1 & Hall1).
      destruct (10 <? S (error_count st)) eqn:Hlim.
      * simpl. split; [exact Hlen1|]. split; [exact Hfrozen1|].
        exists new1. auto.
      * destruct (IH (S i) st1 c1) as (Hlen & Hfrozen & new & Hnew & Hall).
        split; [auto|]. split.
        { intros H5. rewrite Hfrozen by (simpl; lia). auto. }
        exists (new1 ++ new). split.
        { rewrite Hnew, Hnew1, app_assoc. reflexivity. }
        apply Forall_app. split; [exact Hall1|].
        eapply Forall_impl; [exact Hall|]. intros rep (Hi & r0 & Hr0 & Hd).
        split; [lia|]. exists r0. split; [|exact Hd].
        replace (row_number rep - S i)
          with (S (row_number rep - S (S i))) by lia.
        exact Hr0.
Qed.

(** When the server refuses every row, nothing is inserted and the loop
    stops after 11 rows. *)
Lemma fallback_loop_all_refused (cols : list string) (rows : list row) :
  (forall seen r, insert_error seen r <> None) ->
  forall (i : nat) (st : fallback_state) (c : conn),
    error_count st <= 10 ->
    let st' := (fallback_loop insert_error cols i rows st c).1 in
    success_count st' = success_count st
    /\ error_count st' = min 11 (error_count st + length rows).
Proof.
  intros Hrefuse.
  induction rows as [|r rows IH]; intros i st c Hst; [simpl; lia|].
  fallback_step r c.
  - exfalso. unfold execute in Hex.
    destruct (insert_error _ (map fallback_value r)) eqn:He; [congruence|].
    apply Hrefuse in He. exact He.
  - destruct (10 <? S (error_count st)) eqn:Hlim.
    + apply Nat.ltb_lt in Hlim. simpl. lia.
    + apply Nat.ltb_ge in Hlim.
      match goal with
      | |- context [fallback_loop _ _ _ _ ?s _] =>
          specialize (IH (S i) s c1)
      end.
      simpl in IH. lia.
Qed.

Local Abbreviation report_of cols :=
  (fun f : nat * string * row =>
     {| row_number := f.1.1; message := f.1.2;
        data := problem_data cols f.2 |}).

(** The refused rows are rows of the page, at the positions given. *)
Lemma refusals_rows (rows : list row) :
  forall (seen : list row) (i : nat),
    length (refusals insert_error seen i rows) <= length rows
    /\ Forall (fun f => i < f.1.1 /\ rows !! (f.1.1 - S i) = Some f.2)
         (refusals insert_error seen i rows).
Proof.
  induction rows as [|r rows IH]; intros seen i; cbn [refusals length];
    [split; [lia | constructor]|].
  destruct (insert_error seen (map fallback_value r)) as [[errno msg]|].
  - destruct (IH seen (S i)) as [Hlen Hall]. split; [cbn [length]; lia|].
    constructor.
    + cbn [fst snd]. split; [lia|].
      replace (i + 1 - S i) with 0 by lia. reflexivity.
    + eapply Forall_impl; [exact Hall|]. intros [[n m] r0] [Hn Hr].
      cbn [fst snd] in *. split; [lia|].
      replace (n - S i) with (S (n - S (S i))) by lia. exact Hr.
  - destruct (IH (seen ++ [map fallback_value r]) (S i)) as [Hlen Hall].
    split; [lia|].
    eapply Forall_impl; [exact Hall|]. intros [[n m] r0] [Hn Hr].
    cbn [fst snd] in *. split; [lia|].
    replace (n - S i) with (S (n - S (S i))) by lia. exact Hr.
Qed.

(** The loop against what it is to find: it counts the refused rows up
    to the eleventh, reports the first five with the server's message,
    tries every row when at most ten are refused, and otherwise stops at
    the eleventh refused row. *)
Lemma fallback_loop_refusals (cols : list string) (rows : list row) :
  forall (i : nat) (st : fallback_state) (c : conn),
    error_count st <= 10 ->
    error_count (fallback_loop insert_error cols i rows st c).1
    = min 11 (error_count st
              + length (refusals insert_error (visible c) i rows))
    /\ reports (fallback_loop insert_error cols i rows st c).1
       = reports st
         ++ map (report_of cols)
              (take (5 - error_count st)
                 (refusals insert_error (visible c) i rows))
    /\ (error_count st + length (refusals insert_error (visible c) i rows)
        <= 10 ->
        success_count (fallback_loop insert_error cols i rows st c).1
        + length (refusals insert_error (visible c) i rows)
        = success_count st + length rows)
    /\ (forall n msg r,
          refusals insert_error (visible c) i rows !! (10 - error_count st)
          = Some (n, msg, r) ->
          success_count (fallback_loop insert_error cols i rows st c).1
          + error_count (fallback_loop insert_error cols i rows st c).1 + i
          = success_count st + error_count st + n).
Proof.
  induction rows as [|r rows IH]; intros i st c Hst.
  - cbn [fallback_loop refusals length fst]. rewrite take_nil.
    cbn [map]. rewrite app_nil_r.
    split; [lia|]. split; [reflexivity|]. split; [lia|].
    intros n msg r0 Hr0. discriminate Hr0.
  - cbn [fallback_loop refusals]. unfold execute at 1 2 3 4 5.
    change (visible (received (Execute (map fallback_value r)) c))
      with (visible c).
    destruct (insert_error (visible c) (map fallback_value r))
      as [[errno msg]|] eqn:Hr.
    + set (c1 := received (Execute (map fallback_value r)) c).
      change (visible c) with (visible c1).
      pose proof (refusals_rows rows (visible c1) (S i)) as [_ Hpos].
      destruct (10 <? S (error_count st)) eqn:Hlim.
      * apply Nat.ltb_lt in Hlim. cbn [fst error_count reports success_count].
        replace (S (error_count st) <=? 5) with false
          by (symmetry; apply Nat.leb_gt; lia).
        replace (5 - error_count st) with 0 by lia.
        cbn [take map length]. rewrite app_nil_r.
        split; [lia|]. split; [reflexivity|]. split; [lia|].
        intros n msg0 r0. replace (10 - error_count st) with 0 by lia.
        intros Hf. injection Hf as <- <- <-. lia.
      * apply Nat.ltb_ge in Hlim.
        match goal with
        | |- context [fallback_loop _ _ _ _ ?s c1] =>
            destruct (IH (S i) s c1) as (Hec & Hrep & Hall & Hstop);
              [cbn [error_count]; lia|]
        end.
        cbn [error_count reports success_count] in Hec, Hrep, Hall, Hstop.
        cbn [length]. split; [rewrite Hec; lia|]. split.
        { rewrite Hrep. destruct (S (error_count st) <=? 5) eqn:H5.
          - apply Nat.leb_le in H5.
            replace (5 - error_count st) with (S (5 - S (error_count st)))
              by lia.
            cbn [take map]. rewrite <- app_assoc. reflexivity.
          - apply Nat.leb_gt in H5.
            replace (5 - error_count st) with 0 by lia.
            replace (5 - S (error_count st)) with 0 by lia.
            cbn [take map]. reflexivity. }
        split; [intros Hfew; specialize (Hall ltac:(lia)); lia|].
        intros n msg0 r0.
        replace (10 - error_count st) with (S (10 - S (error_count st)))
          by lia.
        intros Hf. cbn [lookup list_lookup] in Hf.
        pose proof (Hstop n msg0 r0 Hf) as Hsum.
        rewrite List.Forall_forall in Hpos.
        assert (Hn : S i < n).
        { apply (Hpos (n, msg0, r0)). apply list_elem_of_In.
          apply list_elem_of_lookup. eexists. exact Hf. }
        lia.
    + match goal with
      | |- context [fallback_loop _ _ _ _ ?s ?c1] =>
          assert (Hseen : visible c ++ [map fallback_value r] = visible c1)
            by (unfold visible; cbn; rewrite app_assoc; reflexivity);
          rewrite Hseen;
          pose proof (refusals_rows rows (visible c1) (S i)) as [Hle Hpos];
          destruct (IH (S i) s c1) as (Hec & Hrep & Hall & Hstop);
            [cbn [error_count]; lia|]
      end.
      cbn [error_count reports success_count] in Hec, Hrep, Hall, Hstop.
      cbn [length]. split; [exact Hec|]. split; [exact Hrep|].
      split; [intros Hfew; specialize (Hall Hfew); lia|].
      intros n msg0 r0 Hf. pose proof (Hstop n msg0 r0 Hf) as Hsum.
      rewrite List.Forall_forall in Hpos.
      assert (Hn : S i < n).
      { apply (Hpos (n, msg0, r0)). apply list_elem_of_In.
        apply list_elem_of_lookup. eexists. exact Hf. }
      lia.
Qed.

(** C8: the row-by-row fallback.  It reports success exactly when no row
    failed, that is when the server refuses no row of the page.  The
    error counter is the number of refused rows, capped at 11: as soon as
    it exceeds 10 the loop stops, so the rows sent to the server are a
    prefix of the page that ends with the eleventh refused row, and
    whatever follows is never tried; with at most 10 refused rows every
    row is tried.  In particular when the server refuses every row of a
    page of more than 10 rows, exactly 11 errors are counted and nothing
    is inserted.  An error report is written for the first five refused
    rows and for no other: it carries the position of the row in the
    page, the message the server gave for it, and the cells of the row
    under their column names, where a text of more than 50 characters is
    cut to its first 47 followed by three dots and every other cell is
    shown as it is. *)
Theorem fallback_single_insert_cap (df : DataFrame) (c : conn) :
  let run := fallback_run insert_error df c in
  let upto (pre : list row) :=
    fallback_run insert_error {| columns := columns df; values := pre |} c in
  let refused := refusals insert_error (visible c) 0 (values df) in
  ((fallback_single_insert insert_error df c).1 = true
     <-> error_count run.1 = 0)
  /\ (fallback_single_insert insert_error df c).2 = run.2
  /\ error_count run.1 = min 11 (length refused)
  /\ calls run.2
     = calls c ++ map (fun r => Execute (map fallback_value r))
                   (take (success_count run.1 + error_count run.1) (values df))
  /\ (forall pre post, values df = pre ++ post ->
        10 < error_count (upto pre).1 -> run = upto pre)
  /\ ((forall seen r, insert_error seen r <> None) -> 10 < len df ->
        error_count run.1 = 11 /\ success_count run.1 = 0)
  /\ (length refused <= 10 ->
        success_count run.1 + error_count run.1 = len df)
  /\ (forall n msg r, refused !! 10 = Some (n, msg, r) ->
        success_count run.1 + error_count run.1 = n)
  /\ length (reports run.1) = min 5 (error_count run.1)
  /\ map (fun rep => (row_number rep, message rep)) (reports run.1)
     = map fst (take 5 refused)
  /\ Forall2 (fun rep f =>
        values df !! (row_number rep - 1) = Some f.2
        /\ describes (columns df) f.2 (data rep))
       (reports run.1) (take 5 refused)
  /\ Forall (fun rep =>
        (exists r, values df !! (row_number rep - 1) = Some r
           /\ data rep = problem_data (columns df) r)
        /\ map_Forall (fun _ v => short_text v) (data rep))
       (reports run.1)
  /\ (forall pre post, values df = pre ++ post ->
        5 <= error_count (upto pre).1 -> reports run.1 = reports (upto pre).1).
Proof.
  intros run upto refused. subst run upto refused.
  unfold fallback_single_insert, fallback_run.
  set (st0 := {| success_count := 0; error_count := 0; reports := [] |}).
  assert (Hst0 : error_count st0 <= 10) by (simpl; lia).
  pose proof (fallback_loop_counts (columns df) (values df) 0 st0 c Hst0)
    as [Hec _].
  pose proof (fallback_loop_calls (columns df) (values df) 0 st0 c)
    as (n & _ & Hn & Hcalls & _).
  pose proof (fallback_loop_reports (columns df) (values df) 0 st0 c)
    as (Hlen & _ & new & Hnew & Hall).
  pose proof (fallback_loop_all_refused (columns df) (values df)) as Hrefused.
  pose proof (fallback_loop_refusals (columns df) (values df) 0 st0 c Hst0)
    as (Hcount & Hreports & Htried & Hstop).
  pose proof (refusals_rows (values df) (visible c) 0) as [_ Hrows].
  simpl in Hec, Hn, Hcalls, Hlen, Hnew.
  cbn [error_count success_count reports st0 app] in Hcount, Hreports,
    Htried, Hstop.
  change (5 - 0) with 5 in Hreports. change (10 - 0) with 10 in Hstop.
  destruct (fallback_loop insert_error (columns df) 0 (values df) st0 c)
    as [st' c'] eqn:Hrun.
  cbn [fst snd] in *.
  split; [apply Nat.eqb_eq|]. split; [reflexivity|].
  split; [rewrite Hcount; reflexivity|].
  split; [rewrite Hcalls; do 3 f_equal; lia|].
  split.
  { intros pre post Hsplit Hpre. simpl in Hpre |- *. rewrite Hsplit in Hrun.
    rewrite fallback_loop_app in Hrun by exact Hst0.
    destruct (fallback_loop insert_error (columns df) 0 pre st0 c)
      as [st1 c1].
    simpl in Hpre. apply Nat.ltb_lt in Hpre. rewrite Hpre in Hrun.
    congruence. }
  split.
  { intros Hall_refused Hlong.
    specialize (Hrefused Hall_refused 0 st0 c Hst0). rewrite Hrun in Hrefused.
    unfold len in Hlong. simpl in Hrefused. lia. }
  split.
  { intros Hfew. specialize (Htried Hfew). unfold len. lia. }
  split.
  { intros k msg r Hk. specialize (Hstop k msg r Hk). lia. }
  split; [apply Hlen; reflexivity|].
  split.
  { rewrite Hreports, !map_map. apply map_ext. intros [[k msg] r].
    reflexivity. }
  split.
  { rewrite Hreports. apply Forall2_fmap_l, Forall_Forall2_diag.
    apply List.Forall_forall. intros [[k msg] r] Hin.
    apply List.Forall_forall with (x := (k, msg, r)) in Hrows;
      [|rewrite <- (firstn_skipn 5
                     (refusals insert_error (visible c) 0 (values df)));
        apply in_or_app; left; exact Hin].
    cbn [fst snd row_number data] in *. destruct Hrows as [Hk Hr]. split.
    - exact Hr.
    - apply problem_data_describes. }
  split.
  { rewrite Hnew. eapply Forall_impl; [exact Hall|].
    intros rep (_ & r & Hr & Hd). split.
    - exists r. auto.
    - rewrite Hd. apply problem_data_short. }
  intros pre post Hsplit Hpre. simpl in Hpre |- *. rewrite Hsplit in Hrun.
  rewrite fallback_loop_app in Hrun by exact Hst0.
  destruct (fallback_loop insert_error (columns df) 0 pre st0 c)
    as [st1 c1].
  simpl in Hpre |- *.
  destruct (10 <? error_count st1); [congruence|].
  pose proof (fallback_loop_reports (columns df) post (0 + length pre) st1 c1)
    as (_ & Hfrozen & _).
  rewrite Hrun in Hfrozen. simpl in Hfrozen. auto.
Qed.

End FallbackFacts.

(** ** Table transfer *)

Section TransferFacts.
Import Driver Transfer.
Local Open Scope nat_scope.
Local Open Scope list_scope.
Local Arguments Nat.modulo : simpl never.
Local Arguments Nat.div : simpl never.
Local Arguments Nat.mul : simpl never.

Variable insert_error : list row -> row -> option error.
Variable commit_error : list row -> list row -> option error.
Variable batch_size : nat.
Variable preprocess_data : DataFrame -> DataFrame.
Hypothesis batch_size_pos : 0 < batch_size.

Variable src : Source.
Variable total_records : nat.

(** The durable rows before the transfer starts. *)
Variable before : list row.

Local Abbreviation rows := (rows_between batch_size preprocess_data src).
Local Abbreviation loop :=
  (batch_loop insert_error commit_error batch_size preprocess_data src
     total_records).

Ltac div50 k :=
  pose proof (Nat.div_mod_eq k 50);
  pose proof (Nat.mod_upper_bound k 50).

Lemma rows_between_nil (a : nat) : rows a a = [].
Proof. unfold rows_between. rewrite Nat.sub_diag. reflexivity. Qed.

Lemma rows_between_snoc (a b : nat) :
  a <= b ->
  rows a (S b) = rows a b ++ batch_rows batch_size preprocess_data src (S b).
Proof.
  intros Hab. unfold rows_between.
  replace (S b - a) with (S (b - a)) by lia.
  rewrite seq_S, map_app, concat_app. simpl. rewrite app_nil_r.
  replace (S (a + (b - a))) with (S b) by lia. reflexivity.
Qed.

Lemma rows_between_app (a m b : nat) :
  a <= m -> m <= b -> rows a m ++ rows m b = rows a b.
Proof.
  intros Ham Hmb. unfold rows_between.
  replace (b - a) with ((m - a) + (b - m)) by lia.
  rewrite seq_app, map_app, concat_app.
  replace (S a + (m - a)) with (S m) by lia. reflexivity.
Qed.

Lemma insert_batch_staged (df : DataFrame) (c : conn) :
  (insert_batch_to_mariadb insert_error df c).1 = true ->
  pending (insert_batch_to_mariadb insert_error df c).2 = pending c ++ staged df.
Proof.
  intros Hok. unfold staged. destruct (empty df) eqn:He.
  - unfold insert_batch_to_mariadb. rewrite He. simpl. now rewrite app_nil_r.
  - now apply insert_batch_effect.
Qed.

(** The loop, entered after [k] batches with batch [m] the last one whose
    rows are durable.  It always ends within the fuel that remains.  When it
    returns from the function, batch [j] was the first to fail and the
    durable rows are those of the batches up to the last multiple of 50
    below [j].  When it is left, the durable rows are those up to the last
    checkpoint [m'] and the later batches are staged. *)
Lemma batch_loop_spec (fuel : nat) :
  forall (k m migrated_count : nat) (c : conn),
    total_records <= fuel + k * batch_size ->
    committed c = before ++ rows 0 m ->
    pending c = rows m k ->
    m <= k ->
    (m = 50 * (k / 50) \/ (m = k /\ total_records <= k * batch_size)) ->
    exists ex c',
      loop fuel (k * batch_size) migrated_count k c = Some (ex, c')
      /\ match ex with
         | Returned e =>
             exists j, k < j
               /\ (e = BatchFailed j \/ e = BatchRaised j)
               /\ (j - 1) * batch_size < total_records
               /\ committed c' = before ++ rows 0 (50 * ((j - 1) / 50))
               /\ pending c' = []
         | Left _ =>
             exists K m', k <= K /\ m' <= K
               /\ (m' = 50 * (K / 50)
                   \/ (m' = K /\ total_records <= K * batch_size))
               /\ committed c' = before ++ rows 0 m'
               /\ pending c' = rows m' K
               /\ (total_records <= K * batch_size
                   \/ exists df,
                        read_sql src (K * batch_size) batch_size = Some df
                        /\ empty df = true)
         end.
Proof.
  induction fuel as [|fuel IH]; intros k m mc c Hfuel Hc Hp Hmk Hm.
  - simpl. replace (k * batch_size <? total_records) with false
      by (symmetry; apply Nat.ltb_ge; lia).
    eexists _, _. split; [reflexivity|]. exists k, m. auto 10 with lia.
  - simpl. destruct (k * batch_size <? total_records) eqn:Hlt.
    2:{ apply Nat.ltb_ge in Hlt. eexists _, _. split; [reflexivity|].
        exists k, m. auto 10. }
    apply Nat.ltb_lt in Hlt.
    assert (Hm' : m = 50 * (k / 50)) by lia. clear Hm.
    assert (Hj : k + 1 - 1 = k) by lia.
    destruct (read_sql src (k * batch_size) batch_size) as [df|] eqn:Hread.
    2:{ eexists _, _. split; [reflexivity|]. exists (k + 1).
        rewrite Hj. destruct (close_rollback c) as (Hcc & Hcp & _).
        rewrite Hcc, Hcp, Hc, Hm'. auto 10 with lia. }
    destruct (empty df) eqn:Hempty.
    { eexists _, _. split; [reflexivity|]. exists k, m. eauto 12. }
    pose proof (insert_batch_effect insert_error (preprocess_data df) c)
      as [Hic _].
    pose proof (insert_batch_staged (preprocess_data df) c) as Hip.
    destruct (insert_batch_to_mariadb insert_error (preprocess_data df) c)
      as [ok c1].
    simpl in Hic, Hip. destruct ok.
    2:{ eexists _, _. split; [reflexivity|]. exists (k + 1).
        rewrite Hj. destruct (close_rollback c1) as (Hcc & Hcp & _).
        rewrite Hcc, Hcp, Hic, Hc, Hm'. auto 10 with lia. }
    assert (Hp1 : pending c1 = rows m (S k)).
    { rewrite Hip, Hp, rows_between_snoc by lia. unfold batch_rows.
      replace (S k - 1) with k by lia. rewrite Hread. reflexivity. }
    replace (k * batch_size + batch_size) with (S k * batch_size) by lia.
    replace (k + 1) with (S k) by lia.
    destruct ((S k mod 50 =? 0) || (total_records <=? S k * batch_size))
      eqn:Hcond.
    + destruct (commit commit_error c1) as [[u|e] c2] eqn:Hcommit.
      * apply commit_ok in Hcommit as (Hcc & Hcp & _).
        destruct (IH (S k) (S k) (mc + len (preprocess_data df)) c2)
          as (ex & c' & Hrun & Hpost).
        { lia. }
        { rewrite Hcc, Hic, Hc, Hp1, <- app_assoc, rows_between_app by lia.
          reflexivity. }
        { rewrite Hcp, rows_between_nil. reflexivity. }
        { lia. }
        { apply orb_true_iff in Hcond as [H50 | Hend].
          - left. apply Nat.eqb_eq in H50. div50 (S k). lia.
          - right. apply Nat.leb_le in Hend. lia. }
        exists ex, c'. split; [exact Hrun|].
        destruct ex as [e|mc'].
        -- destruct Hpost as (j & Hkj & Hrest). exists j. split; [lia | exact Hrest].
        -- destruct Hpost as (K & m' & HkK & Hrest). exists K, m'.
           split; [lia | exact Hrest].
      * apply commit_raise in Hcommit as (Hcc & _).
        eexists _, _. split; [reflexivity|]. exists (S k).
        replace (S k - 1) with k by lia.
        destruct (close_rollback c2) as (Hrc & Hrp & _).
        rewrite Hrc, Hrp, Hcc, Hic, Hc, Hm'. auto 10 with lia.
    + apply orb_false_iff in Hcond as [H50 Hend].
      apply Nat.eqb_neq in H50. apply Nat.leb_gt in Hend.
      destruct (IH (S k) m (mc + len (preprocess_data df)) c1)
        as (ex & c' & Hrun & Hpost).
      { lia. }
      { rewrite Hic. exact Hc. }
      { exact Hp1. }
      { lia. }
      { left. div50 (S k). div50 k. lia. }
      exists ex, c'. split; [exact Hrun|].
      destruct ex as [e|mc'].
      * destruct Hpost as (j & Hkj & Hrest). exists j. split; [lia | exact Hrest].
      * destruct Hpost as (K & m' & HkK & Hrest). exists K, m'.
        split; [lia | exact Hrest].
Qed.

(** *** A transfer against its description *)

Section Fate.
Import Checkpoints.

(** The connection the transfer starts from. *)
Variable c0 : conn.

(** Batch [j] is the first that does not go in, and [f] is what becomes
    of it. *)
Variable j : nat.
Variable f : fate.

Hypothesis some_rows : 0 < total_records.
Hypothesis first_batch : 1 <= j.
Hypothesis commits_accepted :
  forall held staged, commit_error held staged = None.
Hypothesis pages_before :
  forall k, k < j - 1 -> k * batch_size < total_records ->
    exists df, read_sql src (k * batch_size) batch_size = Some df
               /\ empty df = false.
Hypothesis rows_before :
  forall r seen, r ∈ rows 0 (j - 1) -> insert_error seen r = None.
Hypothesis fate_of_j :
  befalls insert_error batch_size preprocess_data src total_records j f.

Local Abbreviation n := (batches batch_size total_records).
Local Abbreviation migrated :=
  (migrated_upto batch_size preprocess_data src).

(** The batches that are durable after [k] batches, and the commit that
    the last batch brings when it is no 50th one. *)
Local Abbreviation checkpoint k :=
  (if total_records <=? k * batch_size then k%nat else 50 * (k / 50)).
Local Abbreviation extra k :=
  (if (total_records <=? k * batch_size) && negb (k mod 50 =? 0)
   then 1 else 0).

Lemma batch_rows_between (a b i : nat) (r : row) :
  a < i -> i <= b ->
  r ∈ batch_rows batch_size preprocess_data src i -> r ∈ rows a b.
Proof.
  intros Hai Hib Hr. unfold rows_between. apply list_elem_of_In, in_concat.
  exists (batch_rows batch_size preprocess_data src i). split.
  - apply in_map, in_seq. lia.
  - apply list_elem_of_In. exact Hr.
Qed.

Lemma migrated_step (k : nat) (df : DataFrame) :
  read_sql src (k * batch_size) batch_size = Some df ->
  migrated k + len (preprocess_data df) = migrated (S k).
Proof.
  intros Hread. unfold migrated_upto.
  rewrite seq_S, map_app, list_sum_app. cbn [map].
  assert (Hlast : batch_len batch_size preprocess_data src (1 + k)
                  = len (preprocess_data df)).
  { unfold batch_len, offset_of. replace (1 + k - 1) with k by lia.
    rewrite Hread. reflexivity. }
  rewrite Hlast. cbn [list_sum fold_right]. lia.
Qed.

Lemma batches_reached (k : nat) :
  0 < k -> (k - 1) * batch_size < total_records ->
  total_records <= k * batch_size -> n = k.
Proof.
  intros Hk Hlow Hhigh. unfold batches. symmetry.
  rewrite Nat.mul_sub_distr_r in Hlow.
  pose proof (Nat.mul_le_mono_r 1 k batch_size Hk).
  apply Nat.div_unique with (r := total_records + batch_size - 1
                                  - batch_size * k); lia.
Qed.

Lemma commit_goes (c : conn) :
  commit commit_error c
  = (Ok tt, {| committed := committed c ++ pending c; pending := [];
               calls := calls c ++ [Commit] |}).
Proof. unfold commit. cbv zeta. rewrite commits_accepted. reflexivity. Qed.

Lemma batch_loop_fate (fuel : nat) :
  forall (k : nat) (c : conn),
    total_records <= fuel + k * batch_size ->
    k <= j - 1 ->
    (k = 0 \/ (k - 1) * batch_size < total_records) ->
    committed c = before ++ rows 0 (checkpoint k) ->
    pending c = rows (checkpoint k) k ->
    commits (calls c) = commits (calls c0) + k / 50 + extra k ->
    exists c',
      loop fuel (k * batch_size) (migrated k) k c
      = Some (match f with
              | Beyond => Left (migrated n)
              | Refused => Returned (BatchFailed j)
              | Unreadable => Returned (BatchRaised j)
              end, c')
      /\ committed c'
         = before ++ rows 0 (durable_batches batch_size total_records j f)
      /\ pending c' = []
      /\ commits (calls c')
         = commits (calls c0)
           + match f with
             | Beyond => n / 50 + (if n mod 50 =? 0 then 0 else 1)
             | Refused | Unreadable => (j - 1) / 50
             end
      /\ match f with
         | Beyond => True
         | Refused | Unreadable =>
             exists earlier, calls c' = earlier ++ [Rollback; Close]
         end.
Proof.
  assert (Hfar : forall k, k = j - 1 -> k * batch_size < total_records ->
            f = Beyond -> False).
  { intros k Hk Hlt Hf. rewrite Hf in fate_of_j. cbn in fate_of_j.
    unfold offset_of in fate_of_j. rewrite <- Hk in fate_of_j. lia. }
  assert (Hnear : forall k, k <= j - 1 -> total_records <= k * batch_size ->
            f = Beyond).
  { intros k Hk Hge. destruct f; [reflexivity| |];
      cbn in fate_of_j; unfold offset_of in fate_of_j;
      destruct fate_of_j as [Hlt _];
      pose proof (Nat.mul_le_mono_r k (j - 1) batch_size Hk); lia. }
  induction fuel as [|fuel IH]; intros k c Hfuel Hk Hprev Hc Hp Hcm.
  - assert (Hge : total_records <= k * batch_size) by lia.
    pose proof (Hnear k Hk Hge) as Hf.
    assert (Hn : n = k) by (apply batches_reached; lia).
    simpl. replace (k * batch_size <? total_records) with false
      by (symmetry; apply Nat.ltb_ge; lia).
    replace (total_records <=? k * batch_size) with true in Hc, Hp, Hcm
      by (symmetry; apply Nat.leb_le; lia).
    rewrite Hf, Hn. exists c. split; [reflexivity|].
    split; [rewrite Hc; cbn; rewrite Hn; reflexivity|].
    split; [rewrite Hp; apply rows_between_nil|].
    split; [|exact I].
    rewrite Hcm. cbn [andb]. destruct (k mod 50 =? 0); cbn [negb]; lia.
  - simpl. destruct (k * batch_size <? total_records) eqn:Hlt.
    2:{ apply Nat.ltb_ge in Hlt.
        pose proof (Hnear k Hk Hlt) as Hf.
        assert (Hn : n = k) by (apply batches_reached; lia).
        replace (total_records <=? k * batch_size) with true in Hc, Hp, Hcm
          by (symmetry; apply Nat.leb_le; lia).
        rewrite Hf, Hn. exists c. split; [reflexivity|].
        split; [rewrite Hc; cbn; rewrite Hn; reflexivity|].
        split; [rewrite Hp; apply rows_between_nil|].
        split; [|exact I].
        rewrite Hcm. cbn [andb]. destruct (k mod 50 =? 0); cbn [negb]; lia. }
    apply Nat.ltb_lt in Hlt.
    replace (total_records <=? k * batch_size) with false in Hc, Hp, Hcm
      by (symmetry; apply Nat.leb_gt; lia).
    cbn [andb] in Hcm.
    assert (Hj : k + 1 - 1 = k) by lia.
    destruct (decide (k = j - 1)) as [Hlast | Hearlier].
    + (* batch [j] *)
      assert (Hkj : k + 1 = j) by lia.
      destruct f eqn:Hf; [exfalso; exact (Hfar k Hlast Hlt eq_refl)| |];
        cbn in fate_of_j; unfold offset_of in fate_of_j;
        rewrite <- Hlast in fate_of_j.
      * destruct fate_of_j as (_ & df & bad & Hread & Hempty & Hbad & Hnever).
        rewrite Hread, Hempty.
        pose proof (insert_batch_refuses insert_error (preprocess_data df)
                      bad c Hbad Hnever) as Hno.
        pose proof (insert_batch_effect insert_error (preprocess_data df) c)
          as [Hic _].
        pose proof (insert_batch_commits insert_error (preprocess_data df) c)
          as Hicm.
        destruct (insert_batch_to_mariadb insert_error (preprocess_data df) c)
          as [ok c1].
        cbn [fst snd] in Hno, Hic, Hicm. subst ok. rewrite Hkj.
        eexists. split; [reflexivity|].
        destruct (close_rollback c1) as (Hcc & Hcp & Hcl).
        split; [rewrite Hcc, Hic, Hc; cbn [durable_batches];
                rewrite <- Hlast; reflexivity|].
        split; [exact Hcp|].
        split; [rewrite Hcl, commits_app, Hicm, Hcm, <- Hlast; cbn; lia|].
        exists (calls c1). exact Hcl.
      * destruct fate_of_j as (_ & Hread). rewrite Hread, Hkj.
        eexists. split; [reflexivity|].
        destruct (close_rollback c) as (Hcc & Hcp & Hcl).
        split; [rewrite Hcc, Hc; cbn [durable_batches];
                rewrite <- Hlast; reflexivity|].
        split; [exact Hcp|].
        split; [rewrite Hcl, commits_app, Hcm, <- Hlast; cbn; lia|].
        exists (calls c). exact Hcl.
    + (* an earlier batch *)
      assert (Hbefore : k < j - 1) by lia.
      destruct (pages_before k Hbefore Hlt) as (df & Hread & Hempty).
      rewrite Hread, Hempty.
      assert (Hok : (insert_batch_to_mariadb insert_error
                       (preprocess_data df) c).1 = true).
      { apply insert_batch_accepts. intros r seen Hr. apply rows_before.
        apply (batch_rows_between 0 (j - 1) (S k)); [lia | lia |].
        unfold batch_rows. replace (S k - 1) with k by lia.
        rewrite Hread. exact Hr. }
      pose proof (insert_batch_effect insert_error (preprocess_data df) c)
        as [Hic _].
      pose proof (insert_batch_staged (preprocess_data df) c Hok) as Hip.
      pose proof (insert_batch_commits insert_error (preprocess_data df) c)
        as Hicm.
      destruct (insert_batch_to_mariadb insert_error (preprocess_data df) c)
        as [ok c1].
      cbn [fst snd] in Hok, Hic, Hip, Hicm. subst ok.
      assert (Hp1 : pending c1 = rows (50 * (k / 50)) (S k)).
      { div50 k. rewrite Hip, Hp, rows_between_snoc by lia. unfold batch_rows.
        replace (S k - 1) with k by lia. rewrite Hread. reflexivity. }
      rewrite (migrated_step k df Hread).
      replace (k * batch_size + batch_size) with (S k * batch_size) by lia.
      replace (k + 1) with (S k) by lia.
      destruct ((S k mod 50 =? 0) || (total_records <=? S k * batch_size))
        eqn:Hcond.
      * rewrite commit_goes.
        apply (IH (S k)); cbn [committed pending calls].
        -- lia.
        -- lia.
        -- right. replace (S k - 1) with k by lia. exact Hlt.
        -- assert (Hcp : (if total_records <=? S k * batch_size
                          then S k else 50 * (S k / 50)) = S k).
           { destruct (total_records <=? S k * batch_size) eqn:Hend;
               [reflexivity|].
             apply orb_true_iff in Hcond as [H50 | Hend']; [|congruence].
             apply Nat.eqb_eq in H50. div50 (S k). lia. }
           rewrite Hcp, Hic, Hc, Hp1, <- app_assoc.
           div50 k. rewrite rows_between_app by lia. reflexivity.
        -- assert (Hcp : (if total_records <=? S k * batch_size
                          then S k else 50 * (S k / 50)) = S k).
           { destruct (total_records <=? S k * batch_size) eqn:Hend;
               [reflexivity|].
             apply orb_true_iff in Hcond as [H50 | Hend']; [|congruence].
             apply Nat.eqb_eq in H50. div50 (S k). lia. }
           rewrite Hcp, rows_between_nil. reflexivity.
        -- rewrite commits_app, Hicm, Hcm. cbn [commits List.filter is_commit
             length]. div50 k. div50 (S k).
           destruct (S k mod 50 =? 0) eqn:H50.
           ++ apply Nat.eqb_eq in H50. rewrite andb_false_r. lia.
           ++ apply Nat.eqb_neq in H50. cbn [orb] in Hcond. rewrite Hcond.
              cbn [andb negb]. lia.
      * apply orb_false_iff in Hcond as [H50 Hendb].
        pose proof Hendb as Hend.
        apply Nat.eqb_neq in H50. apply Nat.leb_gt in Hend.
        apply (IH (S k)).
        -- lia.
        -- lia.
        -- right. replace (S k - 1) with k by lia. exact Hlt.
        -- rewrite Hendb, Hic, Hc. div50 k. div50 (S k).
           replace (50 * (S k / 50)) with (50 * (k / 50)) by lia.
           reflexivity.
        -- rewrite Hendb, Hp1. div50 k. div50 (S k).
           replace (50 * (S k / 50)) with (50 * (k / 50)) by lia.
           reflexivity.
        -- rewrite Hendb, Hicm, Hcm. cbn [andb]. div50 k. div50 (S k). lia.
Qed.

End Fate.

(** One table transfer with a positive batch size, on a connection with
    nothing staged, whatever the source and the server do.  The call
    always returns.  If batch [j] is the first to fail, the session is
    rolled back and the target holds exactly the rows of the batches up
    to the last multiple of 50 below [j].  If the transfer succeeds, the
    rows of every batch that ran are durable.  Nothing is ever left
    staged. *)
Lemma migrate_table_session_ends (c0 : conn) :
  count_rows src = Some total_records ->
  committed c0 = before ->
  pending c0 = [] ->
  exists e c',
    migrate_table_session insert_error commit_error batch_size
      preprocess_data (Some src) (Some c0) = Some (e, Some c')
    /\ migrate_table_data insert_error commit_error batch_size
         preprocess_data (Some src) (Some c0) = Some (success e)
    /\ pending c' = []
    /\ match e with
       | NoData => total_records = 0 /\ committed c' = before
       | Migrated _ =>
           exists K, committed c' = before ++ rows 0 K
             /\ (total_records <= K * batch_size
                 \/ exists df,
                      read_sql src (K * batch_size) batch_size = Some df
                      /\ empty df = true)
             /\ exists earlier, calls c' = earlier ++ [Commit; Close]
       | BatchFailed j | BatchRaised j =>
           0 < j /\ (j - 1) * batch_size < total_records
           /\ committed c' = before ++ rows 0 (50 * ((j - 1) / 50))
       | FinalCommitFailed =>
           exists K m', m' <= K
             /\ (m' = 50 * (K / 50)
                 \/ (m' = K /\ total_records <= K * batch_size))
             /\ committed c' = before ++ rows 0 m'
       | NotConnected | CountFailed => False
       end.
Proof.
  intros Hcount Hbefore Hfresh.
  unfold migrate_table_data, migrate_table_session. rewrite Hcount.
  destruct (total_records =? 0) eqn:Hzero.
  { apply Nat.eqb_eq in Hzero. eexists _, _.
    split; [reflexivity|]. simpl. auto. }
  destruct (batch_loop_spec total_records 0 0 0 c0) as (ex & c1 & Hrun & Hpost).
  { lia. }
  { rewrite rows_between_nil, app_nil_r. exact Hbefore. }
  { rewrite rows_between_nil. exact Hfresh. }
  { lia. }
  { left. reflexivity. }
  rewrite Nat.mul_0_l in Hrun. rewrite Hrun.
  destruct ex as [e|mc].
  - destruct Hpost as (j & Hj & He & Hlt & Hc & Hp).
    exists e, c1. split; [reflexivity|]. split; [reflexivity|].
    split; [exact Hp|]. destruct He as [-> | ->]; auto.
  - destruct Hpost as (K & m' & _ & HmK & Hm' & Hc & Hp & Hend).
    destruct (commit commit_error c1) as [[u|err] c2] eqn:Hcommit.
    + apply commit_ok in Hcommit as (Hcc & Hcp & Hcl).
      eexists _, _. split; [reflexivity|]. split; [reflexivity|].
      split; [reflexivity|]. exists K. simpl. split; [|split; [exact Hend|]].
      * rewrite Hcc, Hc, Hp, <- app_assoc, rows_between_app by lia.
        reflexivity.
      * exists (calls c1). rewrite Hcl, <- app_assoc. reflexivity.
    + apply commit_raise in Hcommit as (Hcc & _).
      eexists _, _. split; [reflexivity|]. split; [reflexivity|].
      split; [reflexivity|]. exists K, m'. simpl. rewrite Hcc, Hc. auto.
Qed.


End TransferFacts.

Section TransferRuns.
Import Driver Transfer Samples.
Local Open Scope nat_scope.
Local Open Scope list_scope.

Lemma insert_batch_dispatch_witness :
  calls (insert_batch_to_mariadb accept_all (page (id_rows 101)) fresh).2
  = calls fresh
    ++ map (fun j =>
              ExecuteMany
                (chunk_at (data_tuples (page (id_rows 101))) (j * chunk_size)))
         (seq 0 ((len (page (id_rows 101)) + 99) / 100)).
Proof.
  pose proof (insert_batch_dispatch accept_all (page (id_rows 101)) fresh
                eq_refl) as (_ & _ & Hmany & _).
  destruct Hmany as (_ & Hall & _); [vm_compute; lia|].
  apply Hall. vm_compute. reflexivity.
Defined.

(** Pages of 1, 100 and 101 rows, as the cursor sees them. *)
Example insert_batch_dispatch_run :
  calls (insert_batch_to_mariadb accept_all (page (id_rows 1)) fresh).2
  = [Execute [VInt 0; VStr "x"]]
  /\ calls (insert_batch_to_mariadb accept_all (page (id_rows 100)) fresh).2
     = [ExecuteMany (data_tuples (page (id_rows 100)))]
  /\ calls (insert_batch_to_mariadb accept_all (page (id_rows 101)) fresh).2
     = [ExecuteMany (data_tuples (page (id_rows 100)));
        ExecuteMany [[VInt 100; VStr "x"]]].
Proof. vm_compute. repeat split. Qed.

Lemma fallback_single_insert_cap_witness :
  error_count (fallback_run refuse_all (page (id_rows 15)) fresh).1 = 11
  /\ success_count (fallback_run refuse_all (page (id_rows 15)) fresh).1 = 0.
Proof.
  pose proof (fallback_single_insert_cap refuse_all (page (id_rows 15)) fresh)
    as (_ & _ & _ & _ & _ & Hrefused & _).
  apply Hrefused; [intros seen r; discriminate | vm_compute; lia].
Defined.

(** Fifteen rows, all refused: eleven are tried, five are reported. *)
Example fallback_single_insert_run :
  let res := fallback_run refuse_all (page (id_rows 15)) fresh in
  (fallback_single_insert refuse_all (page (id_rows 15)) fresh).1 = false
  /\ error_count res.1 = 11
  /\ length (calls res.2) = 11
  /\ map row_number (reports res.1) = [1; 2; 3; 4; 5].
Proof. vm_compute. repeat split. Qed.

(** Three rows, the second refused: one report, for row 2, with the
    server's message and the cells of the row. *)
Example fallback_report_run :
  reports (fallback_run (refuse_row [VNpInt 1; VStr "x"]) (page (id_rows 3))
             fresh).1
  = [{| row_number := 2; message := "Duplicate entry";
        data := <["name" := VStr "x"]> (<["id" := VNpInt 1]> ∅) |}].
Proof. vm_compute. reflexivity. Qed.

(** A long text value in a report. *)
Example problem_value_run :
  problem_value
    (VStr "0123456789012345678901234567890123456789012345678901234567890")
  = VStr "01234567890123456789012345678901234567890123456..."
  /\ problem_value (VStr "short") = VStr "short"
  /\ problem_value (VInt 7) = VInt 7.
Proof. vm_compute. repeat split. Qed.


(** The run behind the witness: batch 111 is refused after two
    checkpoints, and the first 100 rows stay in the target. *)
Example migrate_table_checkpoints_run :
  exists c',
    migrate_table_session (refuse_row [VInt 110; VStr "x"]) commit_always 1 id
      (Some (table_source (id_rows 120))) (Some fresh)
    = Some (BatchFailed 111, Some c')
    /\ committed c' = data_tuples (page (id_rows 100))
    /\ pending c' = [].
Proof. eexists. vm_compute. repeat split. Qed.

(** A table of 120 rows moved one row per batch with no failure: the
    call commits after batch 50, after batch 100, after the last batch
    and after the loop. *)
Example migrate_table_commits_run :
  exists c',
    migrate_table_session accept_all commit_always 1 id
      (Some (table_source (id_rows 120))) (Some fresh)
    = Some (Migrated 120, Some c')
    /\ Checkpoints.commits (calls c') = 4
    /\ length (committed c') = 120
    /\ Checkpoints.commits_due 1 120 121 Checkpoints.Beyond = 4.
Proof. eexists. vm_compute. repeat split. Qed.

(** C1: a table transfer is to commit only when every one of its batches
    succeeded, and to leave no row of the table in the target when one
    failed.  The code does otherwise.  With batch size 1, 51 source rows
    and a server that refuses the last one, batch 50 triggers a commit,
    batch 51 fails, and the call rolls back and returns [False] with the
    first 50 rows durable in the target. *)
Theorem migrate_table_data_partial_commit :
  exists c',
    migrate_table_session (refuse_row [VInt 50; VStr "x"]) commit_always 1 id
      (Some (table_source (id_rows 51))) (Some fresh)
    = Some (BatchFailed 51, Some c')
    /\ migrate_table_data (refuse_row [VInt 50; VStr "x"]) commit_always 1 id
         (Some (table_source (id_rows 51))) (Some fresh) = Some false
    /\ committed c' = data_tuples (page (id_rows 50))
    /\ length (committed c') = 50
    /\ Commit ∈ calls c'
    /\ drop 52 (calls c') = [Rollback; Close].
Proof.
  eexists. split; [vm_compute; reflexivity|].
  split; [vm_compute; reflexivity|].
  split; [vm_compute; reflexivity|].
  split; [vm_compute; reflexivity|].
  split; [|vm_compute; reflexivity].
  apply list_elem_of_lookup. exists 50. vm_compute. reflexivity.
Qed.

End TransferRuns.

(** ** The orchestrator *)

Section OrchestratorFacts.
Import Orchestrator.
Local Open Scope nat_scope.
Local Open Scope list_scope.

Variable all_tables : list string.
Variable get_table_schema : string -> list Column * list string.
Variable create_mariadb_table : string -> list Column -> list string -> bool.
Variable migrate_table_data : string -> list string -> bool.

Local Abbreviation ok := (transferred get_table_schema migrate_table_data).
Local Abbreviation transfer' := (transfer migrate_table_data).

Local Abbreviation consistent_tally :=
  (Orchestrator.consistent_tally get_table_schema migrate_table_data).

Lemma transfer_tally (name : string) (structures : nat) (t : tally) :
  consistent_tally t ->
  consistent_tally (transfer' name (get_table_schema name).2 structures t)
  /\ transfers (transfer' name (get_table_schema name).2 structures t)
     = transfers t ++ [name].
Proof.
  intros [Hcount Hfailed]. unfold transfer, consistent_tally.
  destruct (migrate_table_data name (get_table_schema name).2) eqn:Hok;
    simpl; rewrite !List.filter_app, Hcount, Hfailed; simpl;
    unfold transferred; rewrite Hok; simpl;
    rewrite ?length_app, ?app_nil_r; simpl; auto with lia.
Qed.

Lemma data_loop_tally (names : list string) :
  forall t : tally,
    consistent_tally t ->
    consistent_tally (foldl (data_step all_tables get_table_schema
                               migrate_table_data) t names)
    /\ transfers (foldl (data_step all_tables get_table_schema
                           migrate_table_data) t names)
       = transfers t ++ List.filter (fun n => name_in n all_tables) names.
Proof.
  induction names as [|name names IH]; intros t Ht; simpl.
  - rewrite app_nil_r. auto.
  - unfold data_step at 2 4. destruct (name_in name all_tables).
    + destruct (transfer_tally name (structure_success_count t) t Ht)
        as [Ht' Htr].
      destruct (get_table_schema name) as [columns primary_keys].
      simpl in Ht', Htr. destruct (IH _ Ht') as [Hc Hl].
      split; [exact Hc|]. rewrite Hl, Htr, <- app_assoc. reflexivity.
    + apply IH, Ht.
Qed.

Lemma remaining_loop_tally (names : list string) :
  forall t : tally,
    consistent_tally t ->
    consistent_tally (foldl (remaining_step get_table_schema
                               create_mariadb_table migrate_table_data)
                        t names)
    /\ transfers (foldl (remaining_step get_table_schema
                           create_mariadb_table migrate_table_data) t names)
       = transfers t
         ++ List.filter (fun n =>
              match get_table_schema n with
              | ([], _) => false
              | (columns, primary_keys) =>
                  create_mariadb_table n columns primary_keys
              end) names.
Proof.
  induction names as [|name names IH]; intros t Ht; simpl.
  - rewrite app_nil_r. auto.
  - unfold remaining_step at 2 4.
    pose proof (transfer_tally name (structure_success_count t + 1) t Ht)
      as [Ht' Htr].
    destruct (get_table_schema name) as [[|col columns] primary_keys].
    + apply IH, Ht.
    + destruct (create_mariadb_table name (col :: columns) primary_keys).
      * simpl in Ht', Htr. destruct (IH _ Ht') as [Hc Hl].
        split; [exact Hc|]. rewrite Hl, Htr, <- app_assoc. reflexivity.
      * apply IH, Ht.
Qed.

Lemma some_transferred (names : list string) :
  0 < length (List.filter ok names)
  <-> exists name, name ∈ names /\ ok name = true.
Proof.
  split.
  - intros Hpos. destruct (List.filter ok names) as [|name rest] eqn:Hf;
      [simpl in Hpos; lia|].
    assert (Hin : In name (List.filter ok names)) by (rewrite Hf; left; auto).
    apply filter_In in Hin as [Hin Hok]. exists name.
    split; [apply list_elem_of_In, Hin | exact Hok].
  - intros (name & Hin & Hok). apply list_elem_of_In in Hin.
    assert (Hf : In name (List.filter ok names)) by (apply filter_In; auto).
    destruct (List.filter ok names); [destruct Hf | simpl; lia].
Qed.

(** C7: [migrate_full_database] returns [True] exactly when the transfer
    of at least one table succeeded.  Every table whose transfer fails is
    appended to [failed_tables], and the tables that are handed to
    [migrate_table_data] are the planned ones, whatever the outcome of the
    transfers before them: no failure stops the run.  The run ends before
    any transfer only when the source lists no table or no structure of
    [table_order] could be created. *)
Theorem migrate_full_database_best_effort :
  let run := migrate_full_database_run all_tables get_table_schema
               create_mariadb_table migrate_table_data in
  let structures :=
    foldl (structure_step all_tables get_table_schema create_mariadb_table)
      0 table_order in
  (migrate_full_database all_tables get_table_schema create_mariadb_table
     migrate_table_data = true
   <-> exists name, name ∈ transfers run.2 /\ ok name = true)
  /\ failed_tables run.2
     = List.filter (fun name => negb (ok name)) (transfers run.2)
  /\ data_success_count run.2 = length (List.filter ok (transfers run.2))
  /\ (all_tables <> [] -> structures <> 0 ->
      transfers run.2
      = planned_transfers all_tables get_table_schema create_mariadb_table)
  /\ (all_tables = [] \/ structures = 0 ->
      transfers run.2 = [] /\ run.1 = false).
Proof.
  intros run structures. subst run.
  unfold migrate_full_database, migrate_full_database_run.
  fold structures.
  destruct all_tables as [|first others] eqn:Hall.
  { simpl. split; [|repeat split; auto; congruence].
    split; [discriminate|]. intros (name & Hin & _).
    apply elem_of_nil in Hin. destruct Hin. }
  rewrite <- Hall.
  destruct (structures =? 0) eqn:Hzero.
  { apply Nat.eqb_eq in Hzero. simpl.
    split; [|repeat split; auto; congruence].
    split; [discriminate|]. intros (name & Hin & _).
    apply elem_of_nil in Hin. destruct Hin. }
  apply Nat.eqb_neq in Hzero.
  set (t0 := {| structure_success_count := structures;
                data_success_count := 0; failed_tables := [];
                transfers := [] |}).
  assert (Ht0 : consistent_tally t0) by (split; reflexivity).
  destruct (data_loop_tally table_order t0 Ht0) as [Ht1 Htr1].
  set (t1 := foldl (data_step all_tables get_table_schema migrate_table_data)
               t0 table_order) in *.
  destruct (remaining_loop_tally (remaining_tables all_tables) t1 Ht1)
    as [[Hcount Hfailed] Htr2].
  set (t2 := foldl (remaining_step get_table_schema create_mariadb_table
                      migrate_table_data) t1 (remaining_tables all_tables))
    in *.
  simpl. split.
  { rewrite Hcount, Nat.ltb_lt. apply some_transferred. }
  split; [exact Hfailed|]. split; [exact Hcount|]. split.
  { intros _ _. rewrite Htr2, Htr1. reflexivity. }
  intros [Hnone | Hnone]; [congruence | contradiction].
Qed.

End OrchestratorFacts.

(** ** The validator *)

Section ValidatorFacts.
Import Driver Validator.
Local Open Scope nat_scope.
Local Open Scope list_scope.

Variable db : Databases.

Lemma validate_single_table_conjunction (table_name : string) :
  conjunction_holds (validate_single_table db table_name).1.
Proof.
  unfold validate_single_table, conjunction_holds.
  destruct (negb (connect_mssql db) || negb (connect_mariadb db));
    [reflexivity|].
  destruct (mssql_count db table_name); [|reflexivity].
  destruct (mariadb_count db table_name); [|reflexivity].
  destruct (_ && _);
    [destruct (validate_sample_data _ _ _), (validate_extreme_values _ _)|];
    reflexivity.
Qed.

(** A listed column whose extremes differ makes the comparison fail,
    wherever it stands in the list. *)
Lemma compare_extremes_mismatch (table_name : string)
    (columns : list (string * string)) (col_name data_type : string)
    (lo hi lo' hi' : extreme) :
  (col_name, data_type) ∈ columns ->
  mssql_extremes db table_name col_name = Some (Some (lo, hi)) ->
  mariadb_extremes db table_name col_name = Some (Some (lo', hi')) ->
  differs lo lo' || differs hi hi' = true ->
  (compare_extremes db table_name columns).1 = false.
Proof.
  intros Hin Hms Hma Hdiff.
  induction columns as [|[c ty] rest IH]; [apply elem_of_nil in Hin; destruct Hin|].
  simpl. destruct (mssql_extremes db table_name c) as [ms|] eqn:Hc1;
    [|reflexivity].
  destruct (mariadb_extremes db table_name c) as [ma|] eqn:Hc2; [|reflexivity].
  match goal with
  | |- context [if ?b then _ else _] => destruct b eqn:Hmis
  end; [reflexivity|].
  apply elem_of_cons in Hin as [Hhead | Hrest].
  - injection Hhead as <- <-. rewrite Hms in Hc1. rewrite Hma in Hc2.
    injection Hc1 as <-. injection Hc2 as <-. congruence.
  - specialize (IH Hrest).
    destruct (compare_extremes db table_name rest). exact IH.
Qed.

(** Every query that [validate_single_table] issues is a connection
    attempt or reads the table it was called for. *)
Lemma compare_extremes_queries (table_name : string)
    (columns : list (string * string)) :
  Forall (fun q => query_table q = Some table_name)
    (compare_extremes db table_name columns).2.
Proof.
  induction columns as [|[c ty] rest IH]; simpl; [constructor|].
  destruct (mssql_extremes db table_name c); [|repeat constructor].
  destruct (mariadb_extremes db table_name c); [|repeat constructor].
  match goal with
  | |- context [if ?b then _ else _] => destruct b
  end; [repeat constructor|].
  destruct (compare_extremes db table_name rest). simpl in *.
  repeat constructor. exact IH.
Qed.

Ltac each_query :=
  repeat match goal with
         | |- Forall _ (_ :: _) => constructor; [simpl; auto|]
         | |- Forall _ [] => constructor
         end.

Lemma validate_single_table_queries (table_name : string) :
  Forall (fun q => query_table q = None \/ query_table q = Some table_name)
    (validate_single_table db table_name).2.
Proof.
  assert (Hsample : Forall (fun q => query_table q = None
                                     \/ query_table q = Some table_name)
                      (validate_sample_data db table_name 100).2).
  { unfold validate_sample_data.
    destruct (mssql_sample db table_name 100) as [[|r s]|];
      [| destruct (mariadb_sample db table_name 100) |];
      simpl; each_query. }
  assert (Hextreme : Forall (fun q => query_table q = None
                                      \/ query_table q = Some table_name)
                       (validate_extreme_values db table_name).2).
  { unfold validate_extreme_values.
    destruct (numeric_columns db table_name) as [columns|];
      [|simpl; each_query].
    pose proof (compare_extremes_queries table_name columns) as H.
    destruct (compare_extremes db table_name columns). simpl in *.
    each_query. eapply Forall_impl; [exact H|]. auto. }
  unfold validate_single_table.
  destruct (negb (connect_mssql db) || negb (connect_mariadb db));
    [simpl; each_query|].
  destruct (mssql_count db table_name); [|simpl; each_query].
  destruct (mariadb_count db table_name); [|simpl; each_query].
  destruct (_ && _).
  - destruct (validate_sample_data db table_name 100),
             (validate_extreme_values db table_name).
    simpl in *. each_query. apply Forall_app. auto.
  - simpl. each_query.
Qed.

Local Abbreviation entry := (Validator.entry db).

Lemma validate_step_tables (v : validation) (table_name : string) :
  tables (validate_step db v table_name)
  = <[table_name := entry table_name]> (tables v).
Proof.
  unfold validate_step, entry. destruct (bool_decide (table_name = "Memo"));
    [reflexivity|].
  destruct (validate_single_table db table_name). reflexivity.
Qed.

Lemma validate_loop_lookup (names : list string) (table_name : string) :
  forall v : validation,
    table_name ∈ names \/ tables v !! table_name = Some (entry table_name) ->
    tables (foldl (validate_step db) v names) !! table_name
    = Some (entry table_name).
Proof.
  induction names as [|name names IH]; intros v Hv; simpl.
  - destruct Hv as [Hin | Hv]; [apply elem_of_nil in Hin; destruct Hin | exact Hv].
  - apply IH. rewrite validate_step_tables.
    destruct (decide (name = table_name)) as [-> | Hne].
    + right. apply lookup_insert_eq.
    + destruct Hv as [Hin | Hv].
      * apply elem_of_cons in Hin as [Heq | Hin]; [congruence | auto].
      * right. rewrite lookup_insert_ne by exact Hne. exact Hv.
Qed.

Lemma validate_loop_entries (names : list string) :
  forall v : validation,
    map_Forall (fun name r => r = entry name) (tables v) ->
    map_Forall (fun name r => r = entry name)
      (tables (foldl (validate_step db) v names)).
Proof.
  induction names as [|name names IH]; intros v Hv; simpl; [exact Hv|].
  apply IH. rewrite validate_step_tables.
  apply map_Forall_insert_2; [reflexivity | exact Hv].
Qed.

Lemma validate_loop_queries (names : list string) :
  forall v : validation,
    Forall (fun q => query_table q <> Some "Memo") (queries v) ->
    Forall (fun q => query_table q <> Some "Memo")
      (queries (foldl (validate_step db) v names)).
Proof.
  induction names as [|name names IH]; intros v Hv; simpl; [exact Hv|].
  apply IH. unfold validate_step.
  destruct (bool_decide (name = "Memo")) eqn:Hname; [exact Hv|].
  apply bool_decide_eq_false in Hname.
  pose proof (validate_single_table_queries name) as Hq.
  destruct (validate_single_table db name) as [r asked]. simpl in *.
  apply Forall_app. split; [exact Hv|].
  eapply Forall_impl; [exact Hq|]. intros q [Hnone | Hsome]; congruence.
Qed.

(** One inconsistent table makes the overall verdict negative. *)
Lemma validate_loop_overall (names : list string) (table_name : string) :
  forall v : validation,
    (table_name ∈ names /\ data_consistency (entry table_name) = false)
    \/ overall_success v = false ->
    overall_success (foldl (validate_step db) v names) = false.
Proof.
  induction names as [|name names IH]; intros v Hv; simpl.
  - destruct Hv as [[Hin _] | Hv]; [apply elem_of_nil in Hin; destruct Hin | exact Hv].
  - apply IH. unfold validate_step, entry in *.
    destruct (decide (name = table_name)) as [-> | Hne].
    + destruct (bool_decide (table_name = "Memo")) eqn:Hmemo.
      * destruct Hv as [[_ Hbad] | Hv]; [discriminate | right; exact Hv].
      * destruct (validate_single_table db table_name) as [r asked]. simpl in *.
        destruct Hv as [[_ Hbad] | Hv]; right.
        -- now rewrite Hbad.
        -- now destruct (data_consistency r).
    + assert (Hkeep : table_name ∈ name :: names -> table_name ∈ names).
      { intros Hin. apply elem_of_cons in Hin as [Heq | Hin]; [congruence | auto]. }
      destruct (bool_decide (name = "Memo")).
      * destruct Hv as [[Hin Hbad] | Hv]; [left | right]; auto.
      * destruct (validate_single_table db name) as [r asked]. simpl.
        destruct Hv as [[Hin Hbad] | Hv]; [left; auto | right].
        now destruct (data_consistency r).
Qed.

(** A listed column of one of the seven types, with different extremes on
    the two sides, makes [validate_single_table] answer no. *)
Lemma validate_single_table_mismatch (table_name : string)
    (columns : list (string * string)) (col_name data_type : string)
    (lo hi lo' hi' : extreme) :
  information_schema_columns db table_name = Some columns ->
  (col_name, data_type) ∈ columns ->
  data_type ∈ numeric_types ->
  mssql_extremes db table_name col_name = Some (Some (lo, hi)) ->
  mariadb_extremes db table_name col_name = Some (Some (lo', hi')) ->
  differs lo lo' || differs hi hi' = true ->
  extreme_values_match (validate_single_table db table_name).1 = false
  /\ data_consistency (validate_single_table db table_name).1 = false.
Proof.
  intros Hcols Hin Hty Hms Hma Hdiff.
  assert (Hext : (validate_extreme_values db table_name).1 = false).
  { unfold validate_extreme_values, numeric_columns. rewrite Hcols.
    match goal with
    | |- context [compare_extremes db table_name ?l] =>
        pose proof (compare_extremes_mismatch table_name l col_name data_type
                      lo hi lo' hi') as H;
        destruct (compare_extremes db table_name l)
    end.
    simpl in *. apply H; auto.
    apply list_elem_of_In, filter_In. split; [apply list_elem_of_In, Hin|].
    simpl. apply bool_decide_eq_true. exact Hty. }
  unfold validate_single_table.
  destruct (negb (connect_mssql db) || negb (connect_mariadb db));
    [split; reflexivity|].
  destruct (mssql_count db table_name); [|split; reflexivity].
  destruct (mariadb_count db table_name); [|split; reflexivity].
  destruct (_ && _).
  - destruct (validate_sample_data db table_name 100) as [sample q1].
    destruct (validate_extreme_values db table_name) as [extremes q2].
    simpl in *. subst extremes. rewrite andb_false_r. auto.
  - simpl. rewrite andb_false_r. auto.
Qed.

Lemma entry_conjunction (table_name : string) :
  conjunction_holds (entry table_name).
Proof.
  unfold Validator.entry. destruct (bool_decide (table_name = "Memo"));
    [reflexivity | apply validate_single_table_conjunction].
Qed.

(** C5, amended: every per-table result of a validation run satisfies
    [data_consistency = record_count_match and sample_data_match and
    extreme_values_match].  For every source table other than Memo the
    result is the one of [validate_single_table], and if for such a table
    [MIN] or [MAX] differs between the two sides on a column declared int,
    bigint, decimal, numeric, float, real or money, then
    [extreme_values_match] and [data_consistency] are both false, whether
    or not the row counts are equal. *)
Theorem validator_consistency :
  let v := validate_migration_complete db in
  map_Forall (fun _ r => conjunction_holds r) (tables v)
  /\ forall table_name,
       table_name ∈ get_mssql_tables db -> table_name <> "Memo" ->
       exists r,
         tables v !! table_name = Some r
         /\ r = (validate_single_table db table_name).1
         /\ forall columns col_name data_type lo hi lo' hi',
              information_schema_columns db table_name = Some columns ->
              (col_name, data_type) ∈ columns ->
              data_type ∈ numeric_types ->
              mssql_extremes db table_name col_name = Some (Some (lo, hi)) ->
              mariadb_extremes db table_name col_name
              = Some (Some (lo', hi')) ->
              differs lo lo' || differs hi hi' = true ->
              extreme_values_match r = false /\ data_consistency r = false.
Proof.
  intros v. split.
  - eapply map_Forall_impl.
    + apply validate_loop_entries. apply map_Forall_empty.
    + intros name r ->. apply entry_conjunction.
  - intros table_name Hin Hmemo.
    exists (validate_single_table db table_name).1.
    split; [|split; [reflexivity|]].
    + subst v. unfold validate_migration_complete.
      rewrite (validate_loop_lookup _ table_name) by (left; exact Hin).
      unfold Validator.entry. rewrite bool_decide_eq_false_2 by exact Hmemo.
      reflexivity.
    + intros. eapply validate_single_table_mismatch; eauto.
Qed.

(** C6: the sample check looks at the sizes of the two samples and at
    nothing else.  An empty source sample passes.  Otherwise the check
    passes exactly when the target sample has as many rows.  Two pairs of
    databases whose samples have the same sizes get the same answer,
    whatever the rows contain. *)
Theorem validate_sample_data_cardinality (table_name : string) (n : nat) :
  (mssql_sample db table_name n = Some [] ->
     (validate_sample_data db table_name n).1 = true)
  /\ (forall source target,
        mssql_sample db table_name n = Some source -> source <> [] ->
        mariadb_sample db table_name n = Some target ->
        ((validate_sample_data db table_name n).1 = true
         <-> length source = length target))
  /\ (forall db' : Databases,
        length <$> mssql_sample db table_name n
        = length <$> mssql_sample db' table_name n ->
        length <$> mariadb_sample db table_name n
        = length <$> mariadb_sample db' table_name n ->
        (validate_sample_data db table_name n).1
        = (validate_sample_data db' table_name n).1).
Proof.
  unfold validate_sample_data. split; [|split].
  - intros ->. reflexivity.
  - intros source target -> Hne ->.
    destruct source as [|r source]; [congruence|]. cbn [fst].
    apply Nat.eqb_eq.
  - intros db' Hsource Htarget.
    destruct (mssql_sample db table_name n) as [[|r s]|],
             (mssql_sample db' table_name n) as [[|r' s']|];
      simpl in Hsource; try discriminate; try reflexivity.
    destruct (mariadb_sample db table_name n) as [t|],
             (mariadb_sample db' table_name n) as [t'|];
      simpl in Htarget; try discriminate; try reflexivity.
    simpl. injection Hsource as Hs. injection Htarget as Ht.
    rewrite Hs, Ht. reflexivity.
Qed.

(** C9: when the source lists a table named Memo, the validation run
    records it with all four flags true and both row counts 0, and none of
    the queries of the run reads that table. *)
Theorem memo_recorded_without_queries :
  "Memo" ∈ get_mssql_tables db ->
  let v := validate_migration_complete db in
  exists r,
    tables v !! "Memo" = Some r
    /\ record_count_match r = true /\ sample_data_match r = true
    /\ extreme_values_match r = true /\ data_consistency r = true
    /\ mssql_count_of r = 0%Z /\ mariadb_count_of r = 0%Z
    /\ Forall (fun q => query_table q <> Some "Memo") (queries v).
Proof.
  intros Hin v. exists memo_result.
  split; [|repeat (split; [reflexivity|])].
  - subst v. unfold validate_migration_complete.
    rewrite (validate_loop_lookup _ "Memo") by (left; exact Hin). reflexivity.
  - subst v. apply validate_loop_queries. simpl. each_query.
Qed.

(** C10: a table with no row on either side.  [validate_single_table]
    finds the counts equal and skips both further checks, so the sample and
    extreme flags keep their initial [False] and the table is reported as
    not consistent; in a validation run a table of another name than Memo
    gets this result, and the overall verdict is negative. *)
Theorem empty_table_reported_inconsistent (table_name : string) :
  connect_mssql db = true -> connect_mariadb db = true ->
  mssql_count db table_name = Some 0%Z ->
  mariadb_count db table_name = Some 0%Z ->
  let r := (validate_single_table db table_name).1 in
  record_count_match r = true
  /\ sample_data_match r = false
  /\ extreme_values_match r = false
  /\ data_consistency r = false
  /\ (table_name <> "Memo" -> table_name ∈ get_mssql_tables db ->
      tables (validate_migration_complete db) !! table_name = Some r
      /\ overall_success (validate_migration_complete db) = false).
Proof.
  intros Hc1 Hc2 Hn Hm r.
  assert (Hr : r = {| record_count_match := true; mssql_count_of := 0;
                      mariadb_count_of := 0; sample_data_match := false;
                      extreme_values_match := false;
                      data_consistency := false |}).
  { subst r. unfold validate_single_table. rewrite Hc1, Hc2, Hn, Hm.
    reflexivity. }
  rewrite Hr. simpl. repeat (split; [reflexivity|]).
  intros Hmemo Hin.
  assert (Hentry : entry table_name = r).
  { unfold Validator.entry. rewrite bool_decide_eq_false_2 by exact Hmemo.
    reflexivity. }
  rewrite <- Hr, <- Hentry. unfold validate_migration_complete. split.
  - apply validate_loop_lookup. left. exact Hin.
  - apply (validate_loop_overall _ table_name). left.
    split; [exact Hin|]. rewrite Hentry, Hr. reflexivity.
Qed.

End ValidatorFacts.

(** ** Runs on the sample data *)

Section Runs.
Import Driver Orchestrator Validator Samples.
Local Open Scope list_scope.

Lemma migrate_full_database_best_effort_witness :
  transfers (migrate_full_database_run source_tables schema_of create_ok
               all_but_factory).2
  = planned_transfers source_tables schema_of create_ok.
Proof.
  pose proof (migrate_full_database_best_effort source_tables schema_of
                create_ok all_but_factory) as (_ & _ & _ & Hplan & _).
  apply Hplan; [discriminate | vm_compute; discriminate].
Defined.

(** Factory fails first; Memo and Extra are still transferred. *)
Example migrate_full_database_run_sample :
  let run := migrate_full_database_run source_tables schema_of create_ok
               all_but_factory in
  run.1 = true
  /\ transfers run.2 = ["Factory"; "Memo"; "Extra"]
  /\ failed_tables run.2 = ["Factory"]
  /\ data_success_count run.2 = 2.
Proof. vm_compute. repeat split. Qed.

(** With no transfer that succeeds the run reports failure. *)
Example migrate_full_database_run_none :
  migrate_full_database source_tables schema_of create_ok (fun _ _ => false)
  = false.
Proof. vm_compute. reflexivity. Qed.

(** C5 as stated fails on the table named Memo: its row counts are equal
    and the largest [id] differs, yet the recorded result has
    [extreme_values_match] and [data_consistency] true. *)
Lemma validator_consistency_counterexample :
  ~ (forall (db : Databases) (table_name : string) (r : table_result)
       (columns : list (string * string)) (col_name data_type : string)
       (lo hi lo' hi' : extreme),
       table_name ∈ get_mssql_tables db ->
       tables (validate_migration_complete db) !! table_name = Some r ->
       mssql_count db table_name = mariadb_count db table_name ->
       information_schema_columns db table_name = Some columns ->
       (col_name, data_type) ∈ columns ->
       data_type ∈ numeric_types ->
       mssql_extremes db table_name col_name = Some (Some (lo, hi)) ->
       mariadb_extremes db table_name col_name = Some (Some (lo', hi')) ->
       differs lo lo' || differs hi hi' = true ->
       extreme_values_match r = false /\ data_consistency r = false).
Proof.
  intros Hclaim.
  destruct (Hclaim shop "Memo" memo_result
              [("id", "int"); ("name", "nvarchar")] "id" "int"
              (Some (inject_Z 1)) (Some (inject_Z 10))
              (Some (inject_Z 1)) (Some (inject_Z 20)))
    as [Hextreme _];
    try (vm_compute; reflexivity); try (repeat constructor).
  discriminate Hextreme.
Qed.

(** A column declared smallint is not among those the column query asks
    for: its extremes are never fetched, and the table passes. *)
Example smallint_extremes_not_compared :
  let res := validate_single_table ranked "Orders" in
  extreme_values_match res.1 = true
  /\ data_consistency res.1 = true
  /\ Forall (fun q => forall s c, q <> Extremes s "Orders" c) res.2.
Proof.
  vm_compute. repeat split. repeat constructor; discriminate.
Qed.

Lemma validator_consistency_witness :
  exists r,
    tables (validate_migration_complete shop) !! "Orders" = Some r
    /\ extreme_values_match r = false /\ data_consistency r = false.
Proof.
  destruct (proj2 (validator_consistency shop) "Orders")
    as (r & Hlookup & _ & Hmismatch);
    [repeat constructor | discriminate |].
  exists r. split; [exact Hlookup|].
  apply (Hmismatch [("id", "int"); ("name", "nvarchar")] "id" "int"
           (Some (inject_Z 1)) (Some (inject_Z 10))
           (Some (inject_Z 1)) (Some (inject_Z 20)));
    try reflexivity; repeat constructor.
Defined.

Lemma validate_sample_data_cardinality_witness :
  (validate_sample_data shop "Orders" 100).1 = true.
Proof.
  pose proof (proj1 (proj2 (validate_sample_data_cardinality shop "Orders" 100))
                [[VInt 1; VStr "a"]; [VInt 2; VStr "b"]]
                [[VInt 7; VStr "y"]; [VInt 8; VStr "z"]]
                eq_refl ltac:(discriminate) eq_refl) as [_ Hsame].
  apply Hsame. reflexivity.
Defined.

Lemma memo_recorded_without_queries_witness :
  exists r,
    tables (validate_migration_complete shop) !! "Memo" = Some r
    /\ record_count_match r = true /\ sample_data_match r = true
    /\ extreme_values_match r = true /\ data_consistency r = true
    /\ mssql_count_of r = 0%Z /\ mariadb_count_of r = 0%Z
    /\ Forall (fun q => query_table q <> Some "Memo")
         (queries (validate_migration_complete shop)).
Proof.
  apply (memo_recorded_without_queries shop). repeat constructor.
Defined.

Lemma empty_table_reported_inconsistent_witness :
  let r := (validate_single_table shop "Empty").1 in
  record_count_match r = true
  /\ sample_data_match r = false
  /\ extreme_values_match r = false
  /\ data_consistency r = false
  /\ ("Empty" <> "Memo" -> "Empty" ∈ get_mssql_tables shop ->
      tables (validate_migration_complete shop) !! "Empty" = Some r
      /\ overall_success (validate_migration_complete shop) = false).
Proof.
  apply (empty_table_reported_inconsistent shop "Empty");
    reflexivity.
Defined.

(** The whole validation of the sample databases. *)
Example validate_migration_complete_run :
  let v := validate_migration_complete shop in
  overall_success v = false
  /\ data_consistency <$> tables v !! "Memo" = Some true
  /\ data_consistency <$> tables v !! "Orders" = Some false
  /\ sample_data_match <$> tables v !! "Orders" = Some true
  /\ data_consistency <$> tables v !! "Empty" = Some false
  /\ length (queries v) = 14%nat.
Proof. vm_compute. repeat split. Qed.

End Runs.

(** * Further properties *)

(** ** More on the type mapper *)

Section TypeMapperMore.
Import TypeMapper.
Local Open Scope Z_scope.

Lemma str_in_true (k : string) (l : list string) : str_in k l = true <-> k ∈ l.
Proof. unfold str_in. apply bool_decide_eq_true. Qed.

Lemma str_in_false (k : string) (l : list string) : str_in k l = false <-> k ∉ l.
Proof. unfold str_in. apply bool_decide_eq_false. Qed.

(** The only entries of the table that map to a bare type name are those
    of the six names that [convert_datatype] handles before it consults
    the table. *)
Lemma bare_entries_shadowed (k v : string) :
  datatype_mapping !! k = Some v ->
  v ∈ ["VARCHAR"; "CHAR"; "DECIMAL"] ->
  k ∈ ["decimal"; "numeric"; "varchar"; "nvarchar"; "char"; "nchar"].
Proof.
  intros Hk Hv. apply datatype_mapping_lookup in Hk.
  assert (Hall : Forall (fun kv : string * string =>
                   kv.2 ∈ ["VARCHAR"; "CHAR"; "DECIMAL"] ->
                   kv.1 ∈ ["decimal"; "numeric"; "varchar"; "nvarchar";
                            "char"; "nchar"]) datatype_mapping_items).
  { compute_done. }
  rewrite Forall_forall in Hall. apply (Hall (k, v) Hk Hv).
Qed.

(** X1: [convert_datatype] never answers a bare [VARCHAR], [CHAR] or
    [DECIMAL]: the table entries that carry these names are never
    reached, because the six source types that map to them are given a
    length or a precision first. *)
Theorem convert_datatype_never_bare (t : string) (l p s : option Z) :
  convert_datatype t l p s ∉ ["VARCHAR"; "CHAR"; "DECIMAL"].
Proof.
  unfold convert_datatype.
  destruct (str_in (lower t) ["decimal"; "numeric"]) eqn:Hdec.
  { destruct p as [p|], s as [s|]; try (compute_done).
    destruct (truthy (Some p)); [|compute_done].
    intros Hin. repeat (apply elem_of_cons in Hin as [Hin | Hin]);
      try discriminate Hin. apply elem_of_nil in Hin. exact Hin. }
  destruct (str_in (lower t) ["varchar"; "nvarchar"]) eqn:Hvar.
  { destruct (positive_length l) as [n|];
      [destruct (16383 <? n)|];
      intros Hin; repeat (apply elem_of_cons in Hin as [Hin | Hin]);
      try discriminate Hin; apply elem_of_nil in Hin; exact Hin. }
  destruct (str_in (lower t) ["char"; "nchar"]) eqn:Hchar.
  { destruct (positive_length l) as [n|];
      [destruct (255 <? n)|];
      intros Hin; repeat (apply elem_of_cons in Hin as [Hin | Hin]);
      try discriminate Hin; apply elem_of_nil in Hin; exact Hin. }
  apply str_in_false in Hdec, Hvar, Hchar.
  destruct (datatype_mapping !! lower t) as [v|] eqn:Hv; simpl.
  - intros Hin. pose proof (bare_entries_shadowed _ _ Hv Hin) as Hk.
    repeat (apply elem_of_cons in Hk as [Hk | Hk]);
      try (rewrite Hk in *;
           first [ solve [apply Hdec; compute_done]
                 | solve [apply Hvar; compute_done]
                 | solve [apply Hchar; compute_done] ]).
    apply elem_of_nil in Hk. exact Hk.
  - compute_done.
Qed.

Lemma positive_length_some (n : Z) :
  0 < n -> positive_length (Some n) = Some n.
Proof.
  intros Hn. unfold positive_length, truthy.
  replace (n =? 0) with false by (symmetry; apply Z.eqb_neq; lia).
  replace (0 <? n) with true by (symmetry; apply Z.ltb_lt; lia).
  reflexivity.
Qed.

Lemma positive_length_none (n : Z) :
  n <= 0 -> positive_length (Some n) = None.
Proof.
  intros Hn. unfold positive_length, truthy.
  replace (0 <? n) with false by (symmetry; apply Z.ltb_ge; lia).
  now rewrite andb_false_r.
Qed.

Lemma convert_datatype_never_bare_witness :
  convert_datatype "VarChar" None None None ∉ ["VARCHAR"; "CHAR"; "DECIMAL"].
Proof. apply (convert_datatype_never_bare "VarChar" None None None). Defined.

(** X2: for a [varchar] or [nvarchar] column, in any letter case, the
    answer is [VARCHAR(n)] exactly when the declared length [n] lies
    between 1 and 16383, and [TEXT] when the length is absent, zero,
    negative (the [-1] of [varchar(max)]) or above 16383.  So a [VARCHAR]
    that comes from such a column never exceeds 16383 characters. *)
Theorem convert_datatype_varchar_bound (t : string) (l p s : option Z) :
  lower t ∈ ["varchar"; "nvarchar"] ->
  (forall n, l = Some n -> 1 <= n <= 16383 ->
     convert_datatype t l p s = "VARCHAR(" ++ str_of_int n ++ ")")
  /\ (forall n, l = Some n -> n <= 0 \/ 16383 < n ->
       convert_datatype t l p s = "TEXT")
  /\ (l = None -> convert_datatype t l p s = "TEXT").
Proof.
  intros Ht. unfold convert_datatype.
  assert (Hdec : str_in (lower t) ["decimal"; "numeric"] = false).
  { apply str_in_false. intros Hin.
    repeat (apply elem_of_cons in Ht as [Ht | Ht]);
      try (rewrite Ht in Hin; revert Hin; compute_done).
    apply elem_of_nil in Ht. exact Ht. }
  rewrite Hdec. replace (str_in (lower t) ["varchar"; "nvarchar"]) with true
    by (symmetry; apply str_in_true, Ht).
  split; [|split].
  - intros n -> Hn. rewrite positive_length_some by lia.
    replace (16383 <? n) with false by (symmetry; apply Z.ltb_ge; lia).
    reflexivity.
  - intros n -> [Hn | Hn].
    + rewrite positive_length_none by lia. reflexivity.
    + rewrite positive_length_some by lia.
      replace (16383 <? n) with true by (symmetry; apply Z.ltb_lt; lia).
      reflexivity.
  - intros ->. reflexivity.
Qed.

Lemma convert_datatype_varchar_bound_witness :
  convert_datatype "NVARCHAR" (Some 16383) None None = "VARCHAR(16383)"
  /\ convert_datatype "NVARCHAR" (Some 16384) None None = "TEXT"
  /\ convert_datatype "VarChar" (Some (-1)) None None = "TEXT".
Proof.
  destruct (convert_datatype_varchar_bound "NVARCHAR" (Some 16383) None None)
    as (Hin & _ & _); [compute_done|].
  destruct (convert_datatype_varchar_bound "NVARCHAR" (Some 16384) None None)
    as (_ & Hout & _); [compute_done|].
  destruct (convert_datatype_varchar_bound "VarChar" (Some (-1)) None None)
    as (_ & Hmax & _); [compute_done|].
  split; [apply (Hin 16383); [reflexivity | lia]|].
  split; [apply (Hout 16384); [reflexivity | lia]|].
  apply (Hmax (-1)); [reflexivity | lia].
Defined.

(** X3: for a [char] or [nchar] column the answer is [CHAR(n)] for a
    length between 1 and 255, [CHAR(1)] when the length is absent or not
    positive, and [VARCHAR(n)] for every longer length: the promotion to
    [VARCHAR] is not capped at 16383 and never falls back to [TEXT]. *)
Theorem convert_datatype_char_promotion (t : string) (l p s : option Z) :
  lower t ∈ ["char"; "nchar"] ->
  (forall n, l = Some n -> 1 <= n <= 255 ->
     convert_datatype t l p s = "CHAR(" ++ str_of_int n ++ ")")
  /\ (forall n, l = Some n -> 255 < n ->
       convert_datatype t l p s = "VARCHAR(" ++ str_of_int n ++ ")")
  /\ (l = None \/ (exists n, l = Some n /\ n <= 0) ->
       convert_datatype t l p s = "CHAR(1)").
Proof.
  intros Ht. unfold convert_datatype.
  assert (Hdec : str_in (lower t) ["decimal"; "numeric"] = false).
  { apply str_in_false. intros Hin.
    repeat (apply elem_of_cons in Ht as [Ht | Ht]);
      try (rewrite Ht in Hin; revert Hin; compute_done).
    apply elem_of_nil in Ht. exact Ht. }
  assert (Hvar : str_in (lower t) ["varchar"; "nvarchar"] = false).
  { apply str_in_false. intros Hin.
    repeat (apply elem_of_cons in Ht as [Ht | Ht]);
      try (rewrite Ht in Hin; revert Hin; compute_done).
    apply elem_of_nil in Ht. exact Ht. }
  rewrite Hdec, Hvar. replace (str_in (lower t) ["char"; "nchar"]) with true
    by (symmetry; apply str_in_true, Ht).
  split; [|split].
  - intros n -> Hn. rewrite positive_length_some by lia.
    replace (255 <? n) with false by (symmetry; apply Z.ltb_ge; lia).
    reflexivity.
  - intros n -> Hn. rewrite positive_length_some by lia.
    replace (255 <? n) with true by (symmetry; apply Z.ltb_lt; lia).
    reflexivity.
  - intros [-> | (n & -> & Hn)]; [reflexivity|].
    rewrite positive_length_none by lia. reflexivity.
Qed.

Lemma convert_datatype_char_promotion_witness :
  convert_datatype "NChar" (Some 20000) None None = "VARCHAR(20000)".
Proof.
  destruct (convert_datatype_char_promotion "NChar" (Some 20000) None None)
    as (_ & Hlong & _); [compute_done|].
  apply (Hlong 20000); [reflexivity | lia].
Defined.

End TypeMapperMore.

(** ** More on page insertion *)

Section InsertMore.
Import Driver Transfer Cells.
Local Open Scope nat_scope.
Local Open Scope list_scope.

Variable insert_error : list row -> row -> option error.

Lemma processed_value_plain (v : value) : plain (processed_value v).
Proof. destruct v; exact I. Qed.

(** X4: the rows that [insert_batch_to_mariadb] hands to the cursor have
    the shape of the page (as many rows, each as long as before), and
    none of their cells is NaN, a numpy integer, float or boolean box, or
    a timestamp object; normalising a cell twice changes nothing more. *)
Theorem data_tuples_plain (df : DataFrame) :
  length (data_tuples df) = len df
  /\ map (@length value) (data_tuples df) = map (@length value) (values df)
  /\ Forall (Forall plain) (data_tuples df)
  /\ (forall v, processed_value (processed_value v) = processed_value v).
Proof.
  unfold data_tuples, len. split; [apply length_map|]. split.
  - rewrite map_map. apply map_ext. intros r. apply length_map.
  - split.
    + apply List.Forall_forall. intros r Hr. apply in_map_iff in Hr as (r0 & <- & _).
      apply List.Forall_forall. intros v Hv. apply in_map_iff in Hv as (v0 & <- & _).
      apply processed_value_plain.
    + intros v. destruct v; reflexivity.
Qed.

Lemma slices_prefix (data : list row) (k : nat) :
  concat (map (chunk_at data) (map (fun j => j * chunk_size) (seq 0 k)))
  = take (k * chunk_size) data.
Proof.
  induction k as [|k IH]; [reflexivity|].
  rewrite seq_S, !map_app, concat_app, IH. simpl. rewrite app_nil_r.
  unfold chunk_at. rewrite take_take_drop. f_equal. unfold chunk_size. lia.
Qed.

(** The chunk loop, when it stops on a refused slice, has staged the
    slices before it. *)
Lemma insert_chunks_raise (data : list row) (starts : list nat) :
  forall (c c' : conn) (e : error),
    insert_chunks insert_error data starts c = (Raise e, c') ->
    exists k, k < length starts
      /\ pending c' = pending c ++ concat (map (chunk_at data) (take k starts)).
Proof.
  induction starts as [|i rest IH]; intros c c' e; simpl.
  - intros [=].
  - unfold mbind, M_bind, bind.
    destruct (executemany insert_error (chunk_at data i) c)
      as [[u|e1] c1] eqn:Hex.
    + intros Hrest. apply executemany_ok in Hex as (_ & Hp & _).
      destruct (IH _ _ _ Hrest) as (k & Hk & Hpending).
      exists (S k). split; [lia|]. simpl.
      rewrite Hpending, Hp, <- app_assoc. reflexivity.
    + intros [= <- <-]. apply executemany_raise in Hex as (_ & Hp & _).
      exists 0. split; [lia|]. simpl. rewrite app_nil_r. exact Hp.
Qed.

Lemma insert_calls_only (m : M unit) (c : conn) (new : list call) :
  calls (m c).2 = calls c ++ new ->
  Forall is_insert new ->
  exists new', calls (succeeds m c).2 = calls c ++ new'
               /\ Forall is_insert new'.
Proof.
  intros Hcalls Hnew. exists new. unfold succeeds.
  destruct (m c) as [[u|e] c1]; simpl in *; auto.
Qed.

(** X5: [insert_batch_to_mariadb] only ever inserts: it leaves the durable
    rows alone and issues no commit, rollback or close.  When it answers
    [True] the page's rows are staged, in order, after what was staged
    before.  When it answers [False] it has staged a whole number of
    100-row slices of the page (none for a page of at most 100 rows),
    which stay in the open transaction until the caller rolls back. *)
Theorem insert_batch_staging (df : DataFrame) (c : conn) :
  let res := insert_batch_to_mariadb insert_error df c in
  committed res.2 = committed c
  /\ (exists new, calls res.2 = calls c ++ new /\ Forall is_insert new)
  /\ (res.1 = true -> pending res.2 = pending c ++ staged df)
  /\ (res.1 = false ->
      exists k, pending res.2
                = pending c ++ take (k * chunk_size) (data_tuples df)
        /\ (len df <= 100 -> k = 0)).
Proof.
  intros res. subst res.
  split; [apply insert_batch_effect|].
  split; [|split; [apply insert_batch_staged|]].
  - unfold insert_batch_to_mariadb.
    destruct (empty df); [exists []; simpl; rewrite app_nil_r; auto|].
    cbv zeta. unfold succeeds.
    destruct (data_tuples df) as [|r [|r' data]] eqn:Hdata.
    + simpl. exists [ExecuteMany []]. split; [reflexivity|]. repeat constructor.
    + exists [Execute r].
      destruct (execute insert_error r c) as [[u|e] c1] eqn:Hex; simpl;
        [apply execute_ok in Hex | apply execute_raise in Hex];
        destruct Hex as (_ & _ & ->); split; auto; repeat constructor.
    + set (rows := r :: r' :: data) in *.
      destruct (length rows <=? 100).
      * exists [ExecuteMany rows].
        destruct (executemany insert_error rows c) as [[u|e] c1] eqn:Hex; simpl;
          [apply executemany_ok in Hex | apply executemany_raise in Hex];
          destruct Hex as (_ & _ & ->); split; auto; repeat constructor.
      * pose proof (insert_chunks_calls insert_error rows
                      (range 0 (length rows) chunk_size) c) as H.
        destruct (insert_chunks insert_error rows _ c) as [[u|e] c1]; simpl.
        -- destruct H as (_ & _ & ->). eexists. split; [reflexivity|].
           apply List.Forall_forall. intros x Hx.
           apply in_map_iff in Hx as (i & <- & _). exact I.
        -- destruct H as (_ & k & _ & ->). eexists. split; [reflexivity|].
           apply List.Forall_forall. intros x Hx.
           apply in_map_iff in Hx as (i & <- & _). exact I.
  - unfold insert_batch_to_mariadb.
    destruct (empty df); [intros [=]|].
    cbv zeta. unfold succeeds.
    assert (Hlen : length (data_tuples df) = len df)
      by apply data_tuples_length.
    destruct (data_tuples df) as [|r [|r' data]] eqn:Hdata.
    + simpl. intros [=].
    + destruct (execute insert_error r c) as [[u|e] c1] eqn:Hex; simpl;
        [intros [=]|]. intros _. apply execute_raise in Hex as (_ & Hp & _).
      exists 0. simpl. rewrite app_nil_r. auto.
    + set (rows := r :: r' :: data) in *.
      destruct (length rows <=? 100) eqn:Hsmall.
      * destruct (executemany insert_error rows c) as [[u|e] c1] eqn:Hex; simpl;
          [intros [=]|]. intros _.
        apply executemany_raise in Hex as (_ & Hp & _).
        exists 0. simpl. rewrite app_nil_r. auto.
      * apply Nat.leb_gt in Hsmall.
        destruct (insert_chunks insert_error rows _ c) as [[u|e] c1] eqn:Hrun;
          simpl; [intros [=]|]. intros _.
        rewrite range_from_0 in Hrun.
        apply insert_chunks_raise in Hrun as (k & _ & Hp).
        exists (min k ((length rows + 99) / 100)).
        split; [|lia].
        rewrite Hp, firstn_map, take_seq, slices_prefix. reflexivity.
Qed.

End InsertMore.

Section InsertRuns.
Import Driver Transfer Cells Samples.
Local Open Scope nat_scope.
Local Open Scope list_scope.

Lemma insert_batch_staging_witness :
  exists k,
    pending (insert_batch_to_mariadb (refuse_row [VInt 220; VStr "x"])
               (page (id_rows 250)) fresh).2
    = pending fresh ++ take (k * chunk_size) (data_tuples (page (id_rows 250)))
    /\ (len (page (id_rows 250)) <= 100 -> k = 0).
Proof.
  destruct (insert_batch_staging (refuse_row [VInt 220; VStr "x"])
              (page (id_rows 250)) fresh) as (_ & _ & _ & Hfalse).
  apply Hfalse. vm_compute. reflexivity.
Defined.

(** A 250-row page whose row 220 is refused: the first two slices stay
    staged. *)
Example insert_batch_staging_run :
  let res := insert_batch_to_mariadb (refuse_row [VInt 220; VStr "x"])
               (page (id_rows 250)) fresh in
  res.1 = false
  /\ pending res.2 = data_tuples (page (id_rows 200))
  /\ length (calls res.2) = 3.
Proof. vm_compute. repeat split. Qed.

End InsertRuns.

(** ** The batched insert with row-by-row diagnosis *)

Section RemainingFacts.
Import Driver Transfer Remaining.
Local Open Scope nat_scope.
Local Open Scope list_scope.
Local Arguments Nat.min : simpl never.

Variable insert_error : list row -> row -> option error.

Lemma visible_stage (r : row) (x : call) (c : conn) :
  visible (stage [r] (received x c)) = visible c ++ [r].
Proof. unfold visible. simpl. apply app_assoc. Qed.

(** If the multi-row statement would be refused, so is some row of the
    row-by-row loop: the loop meets the same row with the same rows before
    it. *)
Lemma fallback_meets_statement_error (cols : list string) (rows : list row) :
  forall (i : nat) (st : fallback_state) (c : conn) (e : error),
    statement_error insert_error (visible c) (map (map fallback_value) rows)
    = Some e ->
    error_count st
    < error_count (fallback_loop insert_error cols i rows st c).1.
Proof.
  induction rows as [|r rows IH]; intros i st c e; simpl; [intros [=]|].
  unfold execute at 1.
  change (visible (received (Execute (map fallback_value r)) c))
    with (visible c).
  destruct (insert_error (visible c) (map fallback_value r)) as [[errno msg]|]
    eqn:Hr.
  - intros _. destruct (10 <? S (error_count st)) eqn:Hlim; [simpl; lia|].
    apply Nat.ltb_ge in Hlim.
    match goal with
    | |- context [fallback_loop _ _ _ _ ?s ?c1] =>
        pose proof (fallback_loop_counts insert_error cols rows (S i) s c1)
          as Hmono
    end.
    simpl in Hmono. specialize (Hmono ltac:(lia)). simpl. lia.
  - intros Hrest.
    rewrite <- (visible_stage (map fallback_value r)
                  (Execute (map fallback_value r))) in Hrest.
    apply (IH (S i) {| success_count := S (success_count st);
                       error_count := error_count st;
                       reports := reports st |}) in Hrest.
    exact Hrest.
Qed.

(** A loop that counts no error has staged every row it was given. *)
Lemma fallback_loop_clean (cols : list string) (rows : list row) :
  forall (i : nat) (st : fallback_state) (c : conn),
    error_count st <= 10 ->
    error_count (fallback_loop insert_error cols i rows st c).1
    = error_count st ->
    pending (fallback_loop insert_error cols i rows st c).2
    = pending c ++ map (map fallback_value) rows
    /\ success_count (fallback_loop insert_error cols i rows st c).1
       = success_count st + length rows.
Proof.
  induction rows as [|r rows IH]; intros i st c Hst; simpl.
  - intros _. rewrite app_nil_r. auto with lia.
  - destruct (execute insert_error (map fallback_value r) c)
      as [[u|[errno msg]] c1] eqn:Hex.
    + intros Hsame. apply execute_ok in Hex as (_ & Hp & _).
      destruct (IH (S i) {| success_count := S (success_count st);
                            error_count := error_count st;
                            reports := reports st |} c1 Hst Hsame)
        as [Hpending Hcount].
      rewrite Hpending, Hcount, Hp, <- app_assoc. simpl. auto with lia.
    + destruct (10 <? S (error_count st)) eqn:Hlim; [simpl; lia|].
      apply Nat.ltb_ge in Hlim. intros Hsame.
      match goal with
      | H : error_count (fallback_loop _ _ _ _ ?s ?c1).1 = _ |- _ =>
          pose proof (fallback_loop_counts insert_error cols rows (S i) s c1)
            as Hmono
      end.
      simpl in Hmono. specialize (Hmono ltac:(lia)). lia.
Qed.

(** X6: when the row-by-row fallback reports success, every row of the
    page is staged, in order and with NaN turned into [None], after what
    was staged before; the success counter equals the number of rows and
    the durable rows are untouched. *)
Theorem fallback_success_stages_page (df : DataFrame) (c : conn) :
  (fallback_single_insert insert_error df c).1 = true ->
  pending (fallback_single_insert insert_error df c).2
  = pending c ++ remaining_tuples df
  /\ committed (fallback_single_insert insert_error df c).2 = committed c
  /\ success_count (fallback_run insert_error df c).1 = len df.
Proof.
  unfold fallback_single_insert, fallback_run, remaining_tuples, len.
  set (st0 := {| success_count := 0; error_count := 0; reports := [] |}).
  pose proof (fallback_loop_clean (columns df) (values df) 0 st0 c) as Hclean.
  pose proof (fallback_loop_calls insert_error (columns df) (values df) 0 st0 c)
    as (_ & _ & _ & _ & Hcomm).
  destruct (fallback_loop insert_error (columns df) 0 (values df) st0 c)
    as [st c'].
  simpl in *. intros Hzero. apply Nat.eqb_eq in Hzero.
  destruct Hclean as [Hp Hs]; [lia | exact Hzero |]. auto.
Qed.

(** When the rows are acceptable one after the other, the row-by-row
    loop counts no error. *)
Lemma fallback_accepts_statement (cols : list string) (rows : list row) :
  forall (i : nat) (st : fallback_state) (c : conn),
    statement_error insert_error (visible c) (map (map fallback_value) rows)
    = None ->
    error_count (fallback_loop insert_error cols i rows st c).1
    = error_count st.
Proof.
  induction rows as [|r rows IH]; intros i st c; simpl; [reflexivity|].
  unfold execute at 1.
  change (visible (received (Execute (map fallback_value r)) c))
    with (visible c).
  destruct (insert_error (visible c) (map fallback_value r)) as [[errno msg]|]
    eqn:Hr; [intros [=]|].
  intros Hrest.
  rewrite <- (visible_stage (map fallback_value r)
                (Execute (map fallback_value r))) in Hrest.
  apply (IH (S i) {| success_count := S (success_count st);
                     error_count := error_count st;
                     reports := reports st |}) in Hrest.
  exact Hrest.
Qed.

Variable batch_error : list row -> list row -> option error.

(** X7: the answer of [batch_insert_remaining] is decided by the rows
    alone.  It is [True] exactly when every row of the page is acceptable
    in its turn, and then every row is staged: by the multi-row statement
    when the server takes it, and otherwise by the row-by-row fallback,
    which heals a refusal of the statement as such (packet size, lock
    wait) by sending one [execute] per row.  A refusal that is due to a
    row is never healed: the fallback meets that row again and the answer
    is [False].  Durable rows are never touched. *)
Theorem batch_insert_remaining_rows_decide (df : DataFrame) (c : conn) :
  let res := batch_insert_remaining insert_error batch_error df c in
  let rows := remaining_tuples df in
  (res.1 = true <-> statement_error insert_error (visible c) rows = None)
  /\ (res.1 = true ->
      pending res.2 = pending c ++ rows
      /\ calls res.2
         = calls c ++ ExecuteMany rows
             :: match batch_error (visible c) rows with
                | None => []
                | Some _ => map Execute rows
                end)
  /\ committed res.2 = committed c.
Proof.
  intros res rows. subst res rows.
  unfold batch_insert_remaining, Remaining.executemany.
  set (st0 := {| success_count := 0; error_count := 0; reports := [] |}).
  set (c1 := received (ExecuteMany (remaining_tuples df)) c).
  assert (Hcomm1 : committed (fallback_single_insert insert_error df c1).2
                   = committed c).
  { unfold fallback_single_insert, fallback_run.
    pose proof (fallback_loop_calls insert_error (columns df) (values df) 0
                  st0 c1) as (_ & _ & _ & _ & Hcomm).
    fold st0. destruct (fallback_loop _ _ _ _ st0 c1) as [st c']. exact Hcomm. }
  assert (Hfail : forall e,
    statement_error insert_error (visible c) (remaining_tuples df) = Some e ->
    (fallback_single_insert insert_error df c1).1 = false).
  { intros e Hstmt. unfold fallback_single_insert, fallback_run.
    pose proof (fallback_meets_statement_error (columns df) (values df) 0
                  st0 c1 e Hstmt) as Hpos.
    fold st0. destruct (fallback_loop _ _ _ _ st0 c1) as [st c']. simpl in *.
    apply Nat.eqb_neq. lia. }
  assert (Hheal :
    statement_error insert_error (visible c) (remaining_tuples df) = None ->
    (fallback_single_insert insert_error df c1).1 = true
    /\ pending (fallback_single_insert insert_error df c1).2
       = pending c ++ remaining_tuples df
    /\ calls (fallback_single_insert insert_error df c1).2
       = calls c ++ ExecuteMany (remaining_tuples df)
           :: map Execute (remaining_tuples df)).
  { intros Hstmt. unfold fallback_single_insert, fallback_run.
    pose proof (fallback_accepts_statement (columns df) (values df) 0
                  st0 c1 Hstmt) as Hzero.
    pose proof (fallback_loop_clean (columns df) (values df) 0 st0 c1)
      as Hclean.
    pose proof (fallback_loop_calls insert_error (columns df) (values df) 0
                  st0 c1) as (n & Hn & Hsum & Hcalls & _).
    fold st0. destruct (fallback_loop _ _ _ _ st0 c1) as [st c'].
    cbn [fst snd] in *. cbn [error_count success_count st0] in *.
    destruct Hclean as [Hp Hs]; [lia | exact Hzero |].
    split; [apply Nat.eqb_eq; exact Hzero|]. split; [exact Hp|].
    rewrite Hcalls. cbn [calls c1 received]. rewrite <- app_assoc.
    cbn [app]. do 2 f_equal.
    assert (Hall : n = length (values df)) by lia.
    rewrite Hall, firstn_all. unfold remaining_tuples.
    rewrite map_map. reflexivity. }
  destruct (statement_error insert_error (visible c) (remaining_tuples df))
    as [e|] eqn:Hstmt.
  - specialize (Hfail e eq_refl).
    assert (Hres :
      (match batch_error (visible c) (remaining_tuples df) with
       | Some e0 => (Raise e0, c1)
       | None => Driver.executemany insert_error (remaining_tuples df) c
       end) = (Raise (A := unit)
                 (match batch_error (visible c) (remaining_tuples df) with
                  | Some e0 => e0
                  | None => e
                  end), c1)).
    { destruct (batch_error (visible c) (remaining_tuples df)); [reflexivity|].
      unfold Driver.executemany.
      change (visible (received (ExecuteMany (remaining_tuples df)) c))
        with (visible c).
      rewrite Hstmt. reflexivity. }
    rewrite Hres.
    destruct (match batch_error (visible c) (remaining_tuples df) with
              | Some e0 => e0
              | None => e
              end) as [errno msg].
    rewrite Hfail. split; [split; discriminate|].
    split; [discriminate | exact Hcomm1].
  - destruct (Hheal eq_refl) as (Htrue & Hp & Hcalls).
    destruct (batch_error (visible c) (remaining_tuples df))
      as [[errno msg]|] eqn:Hbatch.
    + rewrite Htrue. split; [split; auto|]. split; [auto | exact Hcomm1].
    + unfold Driver.executemany.
      change (visible (received (ExecuteMany (remaining_tuples df)) c))
        with (visible c).
      rewrite Hstmt. cbn. split; [split; auto|]. split; [auto|reflexivity].
Qed.

End RemainingFacts.

(** ** A transfer that meets no error *)

Section TransferClean.
Import Driver Transfer Samples.
Local Open Scope nat_scope.
Local Open Scope list_scope.
Local Arguments Nat.modulo : simpl never.
Local Arguments Nat.div : simpl never.
Local Arguments Nat.mul : simpl never.

Variable insert_error : list row -> row -> option error.
Variable commit_error : list row -> list row -> option error.
Variable batch_size : nat.
Variable preprocess_data : DataFrame -> DataFrame.

Hypothesis batch_size_pos : 0 < batch_size.
Hypothesis accepts : forall seen r, insert_error seen r = None.
Hypothesis commits : forall durable staged, commit_error durable staged = None.

Lemma statement_accepted (rs : list row) :
  forall seen, statement_error insert_error seen rs = None.
Proof.
  induction rs as [|r rs IH]; intros seen; simpl; [reflexivity|].
  rewrite accepts. apply IH.
Qed.

Lemma executemany_accepted (rs : list row) (c : conn) :
  executemany insert_error rs c
  = (Ok tt, stage rs (received (ExecuteMany rs) c)).
Proof. unfold executemany. cbv zeta. now rewrite statement_accepted. Qed.

Lemma execute_accepted (r : row) (c : conn) :
  execute insert_error r c = (Ok tt, stage [r] (received (Execute r) c)).
Proof. unfold execute. cbv zeta. now rewrite accepts. Qed.

Lemma commit_accepted (c : conn) :
  exists c', commit commit_error c = (Ok tt, c').
Proof. unfold commit. cbv zeta. rewrite commits. eexists. reflexivity. Qed.

Lemma insert_chunks_accepted (data : list row) (starts : list nat) :
  forall c, exists c', insert_chunks insert_error data starts c = (Ok tt, c').
Proof.
  induction starts as [|i rest IH]; intros c; simpl; [eexists; reflexivity|].
  unfold mbind, M_bind, bind. rewrite executemany_accepted. apply IH.
Qed.

Lemma insert_batch_accepted (df : DataFrame) (c : conn) :
  (insert_batch_to_mariadb insert_error df c).1 = true.
Proof.
  unfold insert_batch_to_mariadb. destruct (empty df); [reflexivity|].
  cbv zeta. unfold succeeds.
  assert (Hmany : forall data : list row,
            ((if length data <=? 100 then executemany insert_error data
              else insert_chunks insert_error data
                     (range 0 (length data) chunk_size)) c).1 = Ok tt).
  { intros data. destruct (length data <=? 100).
    - rewrite executemany_accepted. reflexivity.
    - destruct (insert_chunks_accepted data
                  (range 0 (length data) chunk_size) c) as [c' ->].
      reflexivity. }
  destruct (data_tuples df) as [|r [|r' data]]; cbv iota beta.
  - specialize (Hmany []). destruct (_ c) as [o c']. simpl in Hmany.
    now subst o.
  - rewrite execute_accepted. reflexivity.
  - specialize (Hmany (r :: r' :: data)). destruct (_ c) as [o c'].
    simpl in Hmany. now subst o.
Qed.

(** With a source that always answers, the loop is left, never returned
    from. *)
Lemma batch_loop_no_error (src : Source) (total_records fuel : nat) :
  (forall offset n, read_sql src offset n <> None) ->
  forall (offset migrated_count batch_number : nat) (c c' : conn)
         (ex : loop_exit),
    batch_loop insert_error commit_error batch_size preprocess_data src
      total_records fuel offset migrated_count batch_number c = Some (ex, c') ->
    exists migrated, ex = Left migrated.
Proof.
  intros Hread. induction fuel as [|fuel IH];
    intros offset mc k c c' ex; simpl.
  - destruct (offset <? total_records); [intros [=] | intros [= <- _]; eauto].
  - destruct (offset <? total_records); [|intros [= <- _]; eauto].
    destruct (read_sql src offset batch_size) as [df|] eqn:Hdf;
      [|destruct (Hread _ _ Hdf)].
    destruct (empty df); [intros [= <- _]; eauto|].
    pose proof (insert_batch_accepted (preprocess_data df) c) as Hok.
    destruct (insert_batch_to_mariadb insert_error (preprocess_data df) c)
      as [ok c1].
    simpl in Hok. subst ok.
    destruct (_ || _); [|apply IH].
    destruct (commit_accepted c1) as [c2 ->]. apply IH.
Qed.

Variable convert_row : row -> row.
Hypothesis preprocess_rows : forall df,
  preprocess_data df
  = {| columns := columns df; values := map convert_row (values df) |}.

(** What the target receives for a list of source rows. *)
Local Abbreviation moved :=
  (map (fun r => map processed_value (convert_row r))).

Lemma staged_page (x : list row) :
  staged (preprocess_data (page x)) = moved x.
Proof.
  rewrite preprocess_rows. unfold staged, empty, len, data_tuples. simpl.
  rewrite orb_false_r, map_map.
  destruct x; reflexivity.
Qed.

Lemma rows_between_table (rows : list row) (K : nat) :
  rows_between batch_size preprocess_data (table_source rows) 0 K
  = moved (take (K * batch_size) rows).
Proof.
  induction K as [|K IH].
  - rewrite rows_between_nil. reflexivity.
  - rewrite rows_between_snoc, IH by lia. unfold batch_rows. simpl.
    rewrite staged_page, <- map_app, Nat.sub_0_r, take_take_drop.
    do 2 f_equal. lia.
Qed.

(** X8: a transfer that meets no error moves the whole table.  With a
    positive batch size, a source table that does not change while it is
    read, a server that accepts every row and every commit, and a
    preprocessing that works row by row, [migrate_table_data] returns
    [True] and the target then holds, after the rows it held before, one
    row for every source row, in the source's order, with nothing left
    staged. *)
Theorem migrate_table_data_round_trip (rows : list row) (c0 : conn) :
  pending c0 = [] ->
  exists e c',
    migrate_table_session insert_error commit_error batch_size
      preprocess_data (Some (table_source rows)) (Some c0) = Some (e, Some c')
    /\ migrate_table_data insert_error commit_error batch_size
         preprocess_data (Some (table_source rows)) (Some c0) = Some true
    /\ success e = true
    /\ committed c' = committed c0 ++ moved rows
    /\ pending c' = [].
Proof.
  intros Hfresh. unfold migrate_table_data, migrate_table_session.
  cbn [count_rows table_source].
  destruct (length rows =? 0) eqn:Hzero.
  { apply Nat.eqb_eq in Hzero. destruct rows; [|discriminate Hzero].
    eexists _, _. split; [reflexivity|]. simpl. rewrite app_nil_r. auto. }
  destruct (batch_loop_spec insert_error commit_error batch_size
              preprocess_data batch_size_pos (table_source rows)
              (length rows) (committed c0) (length rows) 0 0 0 c0)
    as (ex & c1 & Hrun & Hpost).
  { lia. }
  { rewrite rows_between_nil, app_nil_r. reflexivity. }
  { rewrite rows_between_nil. exact Hfresh. }
  { lia. }
  { left. reflexivity. }
  rewrite Nat.mul_0_l in Hrun.
  destruct (batch_loop_no_error (table_source rows) (length rows)
              (length rows) ltac:(discriminate) _ _ _ _ _ _ Hrun)
    as [migrated ->].
  rewrite Hrun.
  destruct Hpost as (K & m' & _ & HmK & _ & Hc & Hp & Hend).
  destruct (commit_accepted c1) as [c2 Hcommit]. rewrite Hcommit.
  apply commit_ok in Hcommit as (Hcc & Hcp & _).
  eexists _, _. split; [reflexivity|]. split; [reflexivity|].
  split; [reflexivity|]. split; [|reflexivity]. simpl.
  rewrite Hcc, Hc, Hp, <- app_assoc, rows_between_app, rows_between_table
    by lia.
  do 2 f_equal. apply take_ge.
  destruct Hend as [Hend | (df & Hdf & Hempty)]; [exact Hend|].
  simpl in Hdf. injection Hdf as <-.
  unfold empty, len in Hempty. simpl in Hempty.
  rewrite orb_false_r in Hempty. apply Nat.eqb_eq in Hempty.
  rewrite length_take, length_drop in Hempty. lia.
Qed.

End TransferClean.

Section TransferCleanRuns.
Import Driver Transfer Samples MoreSamples.
Local Open Scope nat_scope.
Local Open Scope list_scope.

Lemma preprocess_id (df : DataFrame) :
  id df = {| columns := columns df; values := map id (values df) |}.
Proof. destruct df as [cols vals]. simpl. now rewrite map_id. Defined.

Lemma migrate_table_data_round_trip_witness :
  exists e c',
    migrate_table_session accept_all commit_always 100 id
      (Some (table_source (id_rows 250))) (Some fresh) = Some (e, Some c')
    /\ migrate_table_data accept_all commit_always 100 id
         (Some (table_source (id_rows 250))) (Some fresh) = Some true
    /\ success e = true
    /\ committed c'
       = committed fresh
         ++ map (fun r => map processed_value (id r)) (id_rows 250)
    /\ pending c' = [].
Proof.
  apply (migrate_table_data_round_trip accept_all commit_always 100 id
           ltac:(lia) (fun _ _ => eq_refl) (fun _ _ => eq_refl) id
           preprocess_id (id_rows 250) fresh eq_refl).
Defined.

(** 250 rows in pages of 100: three pages of 100, 100 and 50 rows, one
    commit when the last page reaches the row count and one after the
    loop. *)
Example migrate_table_data_round_trip_run :
  exists c',
    migrate_table_session accept_all commit_always 100 id
      (Some (table_source (id_rows 250))) (Some fresh)
    = Some (Migrated 250, Some c')
    /\ length (committed c') = 250
    /\ map (fun x => match x with
                     | ExecuteMany rs => length rs
                     | _ => 0
                     end) (calls c') = [100; 100; 50; 0; 0; 0].
Proof. eexists. vm_compute. repeat split. Qed.

Lemma fallback_success_stages_page_witness :
  pending (fallback_single_insert accept_all (page (id_rows 3)) fresh).2
  = pending fresh ++ Remaining.remaining_tuples (page (id_rows 3))
  /\ committed (fallback_single_insert accept_all (page (id_rows 3)) fresh).2
     = committed fresh
  /\ success_count (fallback_run accept_all (page (id_rows 3)) fresh).1
     = len (page (id_rows 3)).
Proof.
  apply (fallback_success_stages_page accept_all (page (id_rows 3)) fresh).
  vm_compute. reflexivity.
Defined.

Lemma batch_insert_remaining_rows_decide_witness :
  pending (Remaining.batch_insert_remaining accept_all no_batches
             (page (id_rows 3)) fresh).2
  = pending fresh ++ Remaining.remaining_tuples (page (id_rows 3)).
Proof.
  destruct (batch_insert_remaining_rows_decide accept_all no_batches
              (page (id_rows 3)) fresh) as (_ & Hstaged & _).
  apply Hstaged. vm_compute. reflexivity.
Defined.

(** A server that takes no multi-row statement but every row: the
    fallback inserts the three rows and the answer is [True].  A page
    with one row that the server refuses: the multi-row statement fails,
    the fallback retries the three rows and fails on the same one. *)
Example batch_insert_remaining_run :
  let healed := Remaining.batch_insert_remaining accept_all no_batches
                  (page (id_rows 3)) fresh in
  let res := Remaining.batch_insert_remaining
               (refuse_row [VNpInt 1; VStr "x"]) any_batch
               (page (id_rows 3)) fresh in
  healed.1 = true
  /\ length (calls healed.2) = 4
  /\ pending healed.2 = id_rows 3
  /\ res.1 = false
  /\ length (calls res.2) = 4
  /\ pending res.2 = [[VNpInt 0; VStr "x"]; [VNpInt 2; VStr "x"]].
Proof. vm_compute. repeat split. Qed.

End TransferCleanRuns.

(** ** More on the orchestrator *)

Section OrchestratorMore.
Import Orchestrator.
Local Open Scope nat_scope.
Local Open Scope list_scope.

Variable all_tables : list string.
Variable get_table_schema : string -> list Column * list string.
Variable create_mariadb_table : string -> list Column -> list string -> bool.
Variable migrate_table_data : string -> list string -> bool.

Local Abbreviation run :=
  (migrate_full_database_run all_tables get_table_schema create_mariadb_table
     migrate_table_data).
Local Abbreviation structures :=
  (foldl (structure_step all_tables get_table_schema create_mariadb_table)
     0 table_order).
Local Abbreviation planned :=
  (planned_transfers all_tables get_table_schema create_mariadb_table).

(** The tables handed to [migrate_table_data]: none when the run stops
    early, the planned ones otherwise. *)
Lemma transfers_of_run :
  (all_tables <> [] -> structures <> 0 -> transfers run.2 = planned)
  /\ (all_tables = [] \/ structures = 0 -> transfers run.2 = []).
Proof.
  unfold migrate_full_database_run.
  destruct all_tables as [|first others] eqn:Hall.
  { simpl. split; [congruence | auto]. }
  rewrite <- Hall.
  destruct (structures =? 0) eqn:Hzero.
  { apply Nat.eqb_eq in Hzero.
    split; [intros _ Hs; contradiction | intros _; reflexivity]. }
  apply Nat.eqb_neq in Hzero.
  set (t0 := {| structure_success_count := structures;
                data_success_count := 0; failed_tables := [];
                transfers := [] |}).
  assert (Ht0 : consistent_tally get_table_schema migrate_table_data t0)
    by (split; reflexivity).
  destruct (data_loop_tally all_tables get_table_schema migrate_table_data
              table_order t0 Ht0) as [Ht1 Htr1].
  destruct (remaining_loop_tally get_table_schema create_mariadb_table
              migrate_table_data (remaining_tables all_tables) _ Ht1)
    as [_ Htr2].
  cbn [snd]. split.
  - intros _ _. rewrite Htr2, Htr1. reflexivity.
  - intros [Hnone | Hnone]; [congruence | contradiction].
Qed.

(** X9: once one structure of [table_order] has been created, the data of
    every source table that [table_order] names is handed to
    [migrate_table_data], also that of a table whose own structure could
    not be read or created: the data loop does not look at the outcome of
    the structure loop for the table. *)
Theorem transfer_despite_structure_failure (table_name : string) :
  table_name ∈ table_order ->
  table_name ∈ all_tables ->
  structures <> 0 ->
  table_name ∈ transfers run.2.
Proof.
  intros Horder Hall Hstruct.
  destruct transfers_of_run as [Hplan _].
  rewrite Hplan; [|intros Hnil; rewrite Hnil in Hall;
                   apply elem_of_nil in Hall; exact Hall | exact Hstruct].
  unfold planned_transfers. apply elem_of_app. left.
  apply list_elem_of_In, filter_In. split; [apply list_elem_of_In, Horder|].
  apply bool_decide_eq_true. exact Hall.
Qed.

Lemma planned_from_source (table_name : string) :
  table_name ∈ planned -> table_name ∈ all_tables.
Proof.
  unfold planned_transfers, remaining_tables. intros Hin.
  apply elem_of_app in Hin as [Hin | Hin]; apply list_elem_of_In in Hin.
  - apply filter_In in Hin as [_ Hin]. apply bool_decide_eq_true in Hin.
    exact Hin.
  - apply filter_In in Hin as [Hin _]. apply filter_In in Hin as [Hin _].
    apply list_elem_of_In, Hin.
Qed.

Lemma NoDup_list_filter (f : string -> bool) (l : list string) :
  NoDup l -> NoDup (List.filter f l).
Proof.
  intros Hl. apply NoDup_ListNoDup, List.NoDup_filter, NoDup_ListNoDup, Hl.
Qed.

(** X10: only source tables are transferred, and when the source lists
    each table once, no table is transferred twice: a table of
    [table_order] is not taken up again by the loop over the remaining
    tables. *)
Theorem transfers_once :
  (forall table_name, table_name ∈ transfers run.2 -> table_name ∈ all_tables)
  /\ (NoDup all_tables -> NoDup (transfers run.2)).
Proof.
  destruct transfers_of_run as [Hplan Hnone].
  destruct (decide (all_tables = [])) as [Hnil | Hnil];
    [rewrite Hnone by auto; split;
       [intros t Ht; apply elem_of_nil in Ht; destruct Ht | constructor]|].
  destruct (decide (structures = 0)) as [Hzero | Hzero];
    [rewrite Hnone by auto; split;
       [intros t Ht; apply elem_of_nil in Ht; destruct Ht | constructor]|].
  rewrite Hplan by assumption. split; [apply planned_from_source|].
  intros Hnodup. unfold planned_transfers, remaining_tables.
  apply NoDup_app. split; [|split].
  - apply NoDup_list_filter. compute_done.
  - intros t Hfirst Hsecond. apply list_elem_of_In in Hfirst, Hsecond.
    apply filter_In in Hfirst as [Hfirst _].
    apply filter_In in Hsecond as [Hsecond _].
    apply filter_In in Hsecond as [_ Hsecond].
    apply negb_true_iff, bool_decide_eq_false in Hsecond.
    apply Hsecond, list_elem_of_In, Hfirst.
  - apply NoDup_list_filter, NoDup_list_filter, Hnodup.
Qed.

End OrchestratorMore.

Section OrchestratorMoreRuns.
Import Orchestrator Samples MoreSamples.
Local Open Scope list_scope.

Lemma transfer_despite_structure_failure_witness :
  "Factory" ∈ transfers (migrate_full_database_run source_tables schema_of
                           create_all_but_factory (fun _ _ => true)).2.
Proof.
  apply (transfer_despite_structure_failure source_tables schema_of
           create_all_but_factory (fun _ _ => true) "Factory");
    [compute_done | compute_done | vm_compute; discriminate].
Defined.

Lemma transfers_once_witness :
  NoDup (transfers (migrate_full_database_run source_tables schema_of
                      create_ok all_but_factory).2).
Proof.
  apply (transfers_once source_tables schema_of create_ok all_but_factory).
  compute_done.
Defined.

End OrchestratorMoreRuns.

(** ** More on the validator *)

Section ValidatorMore.
Import Driver Validator Queries.
Local Open Scope list_scope.

Variable db : Databases.

Local Abbreviation entry := (Validator.entry db).

Lemma validate_step_overall (v : validation) (table_name : string) :
  overall_success (validate_step db v table_name)
  = overall_success v && data_consistency (entry table_name).
Proof.
  unfold validate_step, Validator.entry.
  destruct (bool_decide (table_name = "Memo")); simpl;
    [now rewrite andb_true_r|].
  destruct (validate_single_table db table_name) as [r asked]. simpl.
  destruct (data_consistency r), (overall_success v); reflexivity.
Qed.

Lemma validate_loop_verdict (names : list string) :
  forall v : validation,
    overall_success (foldl (validate_step db) v names)
    = overall_success v
      && forallb (fun name => data_consistency (entry name)) names.
Proof.
  induction names as [|name names IH]; intros v; simpl.
  - now rewrite andb_true_r.
  - rewrite IH, validate_step_overall, andb_assoc. reflexivity.
Qed.

(** X11: the overall verdict of a validation run is positive exactly when
    [validate_single_table] finds every listed table other than Memo
    consistent.  With no source table at all, for instance when the table
    list cannot be read, the verdict is positive. *)
Theorem overall_success_iff :
  (overall_success (validate_migration_complete db) = true
   <-> forall table_name,
         table_name ∈ get_mssql_tables db -> table_name <> "Memo" ->
         data_consistency (validate_single_table db table_name).1 = true)
  /\ (get_mssql_tables db = [] ->
      overall_success (validate_migration_complete db) = true).
Proof.
  unfold validate_migration_complete. rewrite validate_loop_verdict. simpl.
  split.
  - rewrite forallb_forall. split.
    + intros Hall name Hin Hmemo. specialize (Hall name).
      unfold Validator.entry in Hall.
      rewrite bool_decide_eq_false_2 in Hall by exact Hmemo.
      apply Hall, list_elem_of_In, Hin.
    + intros Hall name Hin. unfold Validator.entry.
      destruct (bool_decide (name = "Memo")) eqn:Hmemo; [reflexivity|].
      apply bool_decide_eq_false in Hmemo.
      apply Hall; [apply list_elem_of_In, Hin | exact Hmemo].
  - intros ->. reflexivity.
Qed.

Lemma validate_loop_dom (names : list string) :
  forall v : validation,
    dom (tables (foldl (validate_step db) v names))
    = dom (tables v) ∪ list_to_set names.
Proof.
  induction names as [|name names IH]; intros v; simpl.
  - apply set_eq. intros x. rewrite elem_of_union, elem_of_empty. tauto.
  - rewrite IH, validate_step_tables, dom_insert_L.
    apply set_eq. intros x. rewrite !elem_of_union. tauto.
Qed.

(** X12: the result of a validation run has one entry for every table
    the source lists and no other entry; the entry of Memo is the fixed
    all-true one, and every other entry is the result of
    [validate_single_table] for that table, also when the table is listed
    more than once. *)
Theorem one_entry_per_table :
  dom (tables (validate_migration_complete db))
  = list_to_set (get_mssql_tables db)
  /\ forall table_name r,
       tables (validate_migration_complete db) !! table_name = Some r ->
       table_name ∈ get_mssql_tables db
       /\ r = (if bool_decide (table_name = "Memo") then memo_result
               else (validate_single_table db table_name).1).
Proof.
  assert (Hdom : dom (tables (validate_migration_complete db))
                 = list_to_set (get_mssql_tables db)).
  { unfold validate_migration_complete. rewrite validate_loop_dom. simpl.
    rewrite dom_empty_L. apply set_eq. intros x.
    rewrite elem_of_union, elem_of_empty. tauto. }
  split; [exact Hdom|]. intros name r Hlookup. split.
  - assert (Hin : name ∈ dom (tables (validate_migration_complete db)))
      by (apply elem_of_dom; eauto).
    rewrite Hdom in Hin. apply elem_of_list_to_set in Hin. exact Hin.
  - pose proof (validate_loop_entries db (get_mssql_tables db)
                  {| tables := ∅; overall_success := true;
                     queries := [ListTables] |}
                  (map_Forall_empty _)) as Hall.
    apply (Hall name r Hlookup).
Qed.

(** X13: [validate_single_table] finds a table consistent only if both
    connections were opened, both counts were read and are the same
    positive number, and the sample check and the extremes check both
    passed.  In particular a table is never found consistent when a count
    query raises or when the table is empty. *)
Theorem consistent_needs_rows (table_name : string) :
  data_consistency (validate_single_table db table_name).1 = true ->
  connect_mssql db = true /\ connect_mariadb db = true
  /\ exists n,
       mssql_count db table_name = Some n
       /\ mariadb_count db table_name = Some n
       /\ (0 < n)%Z
       /\ mssql_count_of (validate_single_table db table_name).1 = n
       /\ mariadb_count_of (validate_single_table db table_name).1 = n
       /\ (validate_sample_data db table_name 100).1 = true
       /\ (validate_extreme_values db table_name).1 = true.
Proof.
  unfold validate_single_table.
  destruct (connect_mssql db), (connect_mariadb db); simpl;
    try discriminate.
  destruct (mssql_count db table_name) as [n|]; [|discriminate].
  destruct (mariadb_count db table_name) as [m|]; [|discriminate].
  destruct ((n =? m)%Z) eqn:Hnm; [|simpl; discriminate].
  destruct ((0 <? n)%Z) eqn:Hpos; [|simpl; discriminate].
  apply Z.eqb_eq in Hnm. apply Z.ltb_lt in Hpos. subst m. simpl.
  destruct (validate_sample_data db table_name 100) as [sample q1].
  destruct (validate_extreme_values db table_name) as [extremes q2].
  simpl. intros Hboth. apply andb_true_iff in Hboth as [-> ->].
  split; [reflexivity|]. split; [reflexivity|]. exists n. auto 10.
Qed.

(** X14: [validate_single_table] samples rows, reads column types or
    reads extremes only for a table whose two counts are the same
    positive number: in every other case its queries are connection
    attempts and row counts, and all flags but possibly
    [record_count_match] are false. *)
Theorem no_checks_unless_counts_match (table_name : string) :
  (exists n,
     mssql_count db table_name = Some n
     /\ mariadb_count db table_name = Some n /\ (0 < n)%Z)
  \/ (Forall is_count_or_connect (validate_single_table db table_name).2
      /\ sample_data_match (validate_single_table db table_name).1 = false
      /\ extreme_values_match (validate_single_table db table_name).1 = false
      /\ data_consistency (validate_single_table db table_name).1 = false).
Proof.
  unfold validate_single_table.
  destruct (negb (connect_mssql db) || negb (connect_mariadb db));
    [right; simpl; repeat constructor|].
  destruct (mssql_count db table_name) as [n|];
    [|right; simpl; repeat constructor].
  destruct (mariadb_count db table_name) as [m|];
    [|right; simpl; repeat constructor].
  destruct ((n =? m)%Z) eqn:Hnm;
    [|right; simpl; repeat constructor].
  destruct ((0 <? n)%Z) eqn:Hpos;
    [|right; simpl; repeat constructor].
  apply Z.eqb_eq in Hnm. apply Z.ltb_lt in Hpos. subst m.
  left. exists n. auto.
Qed.

Lemma compare_extremes_true (table_name : string)
    (columns : list (string * string)) :
  (compare_extremes db table_name columns).1 = true
  <-> forall col_name data_type,
        (col_name, data_type) ∈ columns ->
        exists source target,
          mssql_extremes db table_name col_name = Some source
          /\ mariadb_extremes db table_name col_name = Some target
          /\ extremes_agree source target.
Proof.
  induction columns as [|[c ty] rest IH]; simpl.
  - split; [|reflexivity]. intros _ col ty Hin.
    apply elem_of_nil in Hin. destruct Hin.
  - destruct (mssql_extremes db table_name c) as [source|] eqn:Hs.
    2:{ split; [discriminate|]. intros Hall.
        destruct (Hall c ty) as (s & t & Hs' & _); [left|congruence]. }
    destruct (mariadb_extremes db table_name c) as [target|] eqn:Ht.
    2:{ split; [discriminate|]. intros Hall.
        destruct (Hall c ty) as (s & t & _ & Ht' & _); [left|congruence]. }
    assert (Hagree :
      (match source, target with
       | Some (lo, hi), Some (lo', hi') => differs lo lo' || differs hi hi'
       | _, _ => false
       end) = false <-> extremes_agree source target).
    { unfold extremes_agree.
      destruct source as [[lo hi]|], target as [[lo' hi']|];
        try (split; auto; fail).
      apply orb_false_iff. }
    match goal with
    | |- context [if ?b then _ else _] => destruct b eqn:Hmis
    end.
    + split; [discriminate|]. intros Hall.
      destruct (Hall c ty) as (s & t & Hs' & Ht' & Hok); [left|].
      rewrite Hs in Hs'. rewrite Ht in Ht'.
      injection Hs' as <-. injection Ht' as <-.
      apply Hagree in Hok. congruence.
    + destruct (compare_extremes db table_name rest) as [answer asked].
      simpl in *. rewrite IH. split.
      * intros Hrest col ty' Hin.
        apply elem_of_cons in Hin as [[= -> ->] | Hin]; [|eauto].
        exists source, target. split; [exact Hs|]. split; [exact Ht|].
        apply Hagree. reflexivity.
      * intros Hall col ty' Hin. apply (Hall col ty'). now right.
Qed.

(** X15: the extremes check passes exactly when the column list of the
    table can be read and, for every listed column declared int, bigint,
    decimal, numeric, float, real or money, both [MIN]/[MAX] queries
    succeed and give the same minimum and the same maximum (numbers are
    compared by value, and NULL only equals NULL).  A table without such
    a column passes. *)
Theorem validate_extreme_values_iff (table_name : string) :
  (validate_extreme_values db table_name).1 = true
  <-> exists columns,
        information_schema_columns db table_name = Some columns
        /\ forall col_name data_type,
             (col_name, data_type) ∈ columns ->
             data_type ∈ numeric_types ->
             exists source target,
               mssql_extremes db table_name col_name = Some source
               /\ mariadb_extremes db table_name col_name = Some target
               /\ extremes_agree source target.
Proof.
  unfold validate_extreme_values, numeric_columns.
  destruct (information_schema_columns db table_name) as [columns|].
  2:{ split; [discriminate | intros (columns & [=] & _)]. }
  pose proof (compare_extremes_true table_name
                (List.filter (fun c : string * string =>
                                bool_decide (c.2 ∈ numeric_types)) columns))
    as Hiff.
  destruct (compare_extremes db table_name _) as [answer asked].
  simpl in *. rewrite Hiff. split.
  - intros Hall. exists columns. split; [reflexivity|].
    intros col ty Hin Hty. apply (Hall col ty).
    apply list_elem_of_In, filter_In. split; [apply list_elem_of_In, Hin|].
    apply bool_decide_eq_true. exact Hty.
  - intros (columns' & [= <-] & Hall) col ty Hin.
    apply list_elem_of_In, filter_In in Hin as [Hin Hty].
    apply bool_decide_eq_true in Hty.
    apply (Hall col ty); [apply list_elem_of_In, Hin | exact Hty].
Qed.

End ValidatorMore.

Section ValidatorMoreRuns.
Import Driver Validator Queries Samples MoreSamples.
Local Open Scope list_scope.

Lemma overall_success_iff_witness :
  overall_success (validate_migration_complete tidy) = true.
Proof.
  apply (proj1 (overall_success_iff tidy)).
  intros name Hin Hmemo.
  repeat (apply elem_of_cons in Hin as [-> | Hin]);
    [contradiction | vm_compute; reflexivity |].
  apply elem_of_nil in Hin. destruct Hin.
Defined.

Lemma one_entry_per_table_witness :
  "Orders" ∈ get_mssql_tables shop
  /\ (validate_single_table shop "Orders").1
     = (if bool_decide ("Orders" = "Memo") then memo_result
        else (validate_single_table shop "Orders").1).
Proof.
  apply (proj2 (one_entry_per_table shop) "Orders"
           (validate_single_table shop "Orders").1).
  vm_compute. reflexivity.
Defined.

Lemma consistent_needs_rows_witness :
  connect_mssql tidy = true /\ connect_mariadb tidy = true
  /\ exists n,
       mssql_count tidy "Orders" = Some n
       /\ mariadb_count tidy "Orders" = Some n
       /\ (0 < n)%Z
       /\ mssql_count_of (validate_single_table tidy "Orders").1 = n
       /\ mariadb_count_of (validate_single_table tidy "Orders").1 = n
       /\ (validate_sample_data tidy "Orders" 100).1 = true
       /\ (validate_extreme_values tidy "Orders").1 = true.
Proof.
  apply (consistent_needs_rows tidy "Orders"). vm_compute. reflexivity.
Defined.

Lemma validate_extreme_values_iff_witness :
  exists columns,
    information_schema_columns tidy "Orders" = Some columns
    /\ forall col_name data_type,
         (col_name, data_type) ∈ columns ->
         data_type ∈ numeric_types ->
         exists source target,
           mssql_extremes tidy "Orders" col_name = Some source
           /\ mariadb_extremes tidy "Orders" col_name = Some target
           /\ extremes_agree source target.
Proof.
  apply (proj1 (validate_extreme_values_iff tidy "Orders")).
  vm_compute. reflexivity.
Defined.

(** A validation with nothing to object to, and one of a table whose
    target count cannot be read. *)
Example validate_runs :
  overall_success (validate_migration_complete tidy) = true
  /\ (validate_single_table
        {| connect_mssql := true; connect_mariadb := true;
           get_mssql_tables := ["Orders"];
           mssql_count := fun _ => Some 7%Z;
           mariadb_count := fun _ => None;
           mssql_sample := mssql_sample shop;
           mariadb_sample := mariadb_sample shop;
           information_schema_columns := information_schema_columns shop;
           mssql_extremes := mssql_extremes shop;
           mariadb_extremes := mariadb_extremes shop |} "Orders").1
     = {| record_count_match := false; mssql_count_of := 7;
          mariadb_count_of := 0; sample_data_match := false;
          extreme_values_match := false; data_consistency := false |}.
Proof. vm_compute. repeat split. Qed.

End ValidatorMoreRuns.

(** ** The schema introspector *)

Section IntrospectorFacts.
Import Orchestrator Introspector.
Local Open Scope list_scope.

Variable cat : Catalog.
Variable table_name : string.

Local Abbreviation found_schema := (get_table_schema cat table_name).

Ltac case_keys :=
  unfold find_primary_keys;
  destruct (key_column_usage cat table_name) as [[|k ks]|];
    [destruct (sys_key_constraints cat table_name)| |].

(** X16: the three ways of reading the columns are tried in a fixed
    order and the first that yields a column wins.  When the
    information-schema query yields columns, neither the system catalog
    nor the probe query is asked; when it yields none or raises and the
    system catalog yields columns, the probe query is not asked; only
    when both yield nothing are the columns built from the description of
    the probe query. *)
Theorem first_method_wins :
  connected cat = true ->
  table_exists cat table_name = Some true ->
  (forall c cs, information_schema cat table_name = Some (c :: cs) ->
     columns found_schema = c :: cs
     /\ (SysColumns ∉ lookups found_schema)
     /\ (ProbeQuery ∉ lookups found_schema))
  /\ (forall c cs,
        rows_or_none (information_schema cat table_name) = [] ->
        sys_columns cat table_name = Some (c :: cs) ->
        columns found_schema = c :: cs
        /\ (SysColumns ∈ lookups found_schema)
        /\ (ProbeQuery ∉ lookups found_schema))
  /\ (rows_or_none (information_schema cat table_name) = [] ->
      rows_or_none (sys_columns cat table_name) = [] ->
      columns found_schema
      = map column_of_description (rows_or_none (probe cat table_name))).
Proof.
  intros Hconn Hexists. unfold get_table_schema. rewrite Hconn, Hexists.
  unfold find_columns. split; [|split].
  - intros c cs ->. simpl. case_keys; simpl; repeat split; compute_done.
  - intros c cs -> ->. simpl. case_keys; simpl; repeat split; compute_done.
  - intros -> ->. simpl.
    destruct (map column_of_description _) as [|c cs]; [reflexivity|].
    case_keys; reflexivity.
Qed.

(** X17: [get_table_schema] never returns keys without columns.  When the
    column list it returns is empty (no connection, no such table, a
    failing existence check, or three methods without result), the
    primary key and the foreign keys are empty too and no key query was
    issued; and a non-empty column list means that the connection was
    opened and the table was found. *)
Theorem no_columns_no_keys :
  (columns found_schema = [] ->
   primary_keys found_schema = [] /\ foreign_keys found_schema = []
   /\ (KeyColumnUsage ∉ lookups found_schema)
   /\ (SysKeyConstraints ∉ lookups found_schema)
   /\ (ReferentialConstraints ∉ lookups found_schema))
  /\ (columns found_schema <> [] ->
      connected cat = true /\ table_exists cat table_name = Some true).
Proof.
  unfold get_table_schema.
  destruct (connected cat); simpl;
    [|split; [intros _; repeat split; compute_done | congruence]].
  destruct (table_exists cat table_name) as [[|]|]; simpl;
    try (split; [intros _; repeat split; compute_done | congruence]).
  split; [|auto].
  unfold find_columns.
  destruct (rows_or_none (information_schema cat table_name)) as [|c cs];
    [|case_keys; simpl; discriminate].
  destruct (rows_or_none (sys_columns cat table_name)) as [|c cs];
    [|case_keys; simpl; discriminate].
  destruct (map column_of_description _) as [|c cs];
    [intros _; simpl; repeat split; compute_done|].
  case_keys; simpl; discriminate.
Qed.

(** X18: the key lookups degrade without losing the columns.  When the
    first primary-key query raises, the key is empty and the second query
    is not tried; when it yields rows, they are the key; when it yields
    none, the key is whatever the second query yields, or empty if that
    one raises.  The foreign keys are those found, or none when that
    query raises.  In every case the columns are those that were found. *)
Theorem key_lookups_degrade :
  columns found_schema <> [] ->
  columns found_schema = (find_columns cat table_name).1
  /\ (key_column_usage cat table_name = None ->
      primary_keys found_schema = []
      /\ (SysKeyConstraints ∉ lookups found_schema))
  /\ (forall k ks, key_column_usage cat table_name = Some (k :: ks) ->
        primary_keys found_schema = k :: ks
        /\ (SysKeyConstraints ∉ lookups found_schema))
  /\ (key_column_usage cat table_name = Some [] ->
      primary_keys found_schema
      = rows_or_none (sys_key_constraints cat table_name)
      /\ (SysKeyConstraints ∈ lookups found_schema))
  /\ foreign_keys found_schema
     = rows_or_none (referential_constraints cat table_name).
Proof.
  unfold get_table_schema.
  destruct (connected cat); simpl; [|congruence].
  destruct (table_exists cat table_name) as [[|]|]; simpl; try congruence.
  assert (Hasked : SysKeyConstraints ∉ (find_columns cat table_name).2).
  { unfold find_columns.
    destruct (rows_or_none (information_schema cat table_name));
      [destruct (rows_or_none (sys_columns cat table_name))|];
      compute_done. }
  destruct (find_columns cat table_name) as [[|c cs] asked]; simpl in *;
    [congruence|].
  intros _.
  destruct (find_primary_keys cat table_name) as [keys asked_keys] eqn:Hkeys.
  unfold find_primary_keys in Hkeys. simpl.
  split; [reflexivity|].
  assert (Hother : forall tail : list lookup,
            SysKeyConstraints ∉ tail ->
            SysKeyConstraints
            ∉ ConnectSource :: TableExists :: asked ++ tail).
  { intros tail Htail.
    rewrite !not_elem_of_cons, not_elem_of_app.
    repeat split; try discriminate; assumption. }
  split; [|split; [|split]].
  - intros Hfirst. rewrite Hfirst in Hkeys. injection Hkeys as <- <-.
    split; [reflexivity|]. apply Hother. compute_done.
  - intros k ks Hfirst. rewrite Hfirst in Hkeys. injection Hkeys as <- <-.
    split; [reflexivity|]. apply Hother. compute_done.
  - intros Hfirst. rewrite Hfirst in Hkeys.
    assert (Hin : forall tail : list lookup,
              SysKeyConstraints ∈ tail ->
              SysKeyConstraints
              ∈ ConnectSource :: TableExists :: asked ++ tail).
    { intros tail Htail. do 2 right. apply elem_of_app. now right. }
    destruct (sys_key_constraints cat table_name);
      injection Hkeys as <- <-; (split; [reflexivity|]);
      apply Hin; compute_done.
  - reflexivity.
Qed.

Lemma type_of_code_known (code : option Z) :
  type_of_code code
  ∈ ["varchar"; "int"; "float"; "real"; "date"; "datetime"; "text"; "bit"].
Proof.
  unfold type_of_code. destruct code as [n|]; [|compute_done].
  destruct (type_mapping !! n) as [v|] eqn:Hn; simpl; [|compute_done].
  apply elem_of_list_to_map_2 in Hn.
  assert (Hall : Forall (fun kv : Z * string =>
                   kv.2 ∈ ["varchar"; "int"; "float"; "real"; "date";
                           "datetime"; "text"; "bit"]) type_mapping_items)
    by compute_done.
  rewrite Forall_forall in Hall. apply (Hall (n, v) Hn).
Qed.

End IntrospectorFacts.

Section IntrospectorMapping.
Import Orchestrator Introspector.
Local Open Scope list_scope.
Local Open Scope Z_scope.

Lemma convert_varchar_length (n : Z) (p s : option Z) :
  TypeMapper.convert_datatype "varchar"
    (TypeMapper.positive_length (Some n)) p s
  = if (0 <? n) && (n <=? 16383)
    then ("VARCHAR(" ++ TypeMapper.str_of_int n ++ ")")%string
    else "TEXT".
Proof.
  unfold TypeMapper.convert_datatype.
  change (TypeMapper.str_in (TypeMapper.lower "varchar")
            ["decimal"; "numeric"]) with false.
  change (TypeMapper.str_in (TypeMapper.lower "varchar")
            ["varchar"; "nvarchar"]) with true.
  cbv iota.
  destruct (Z_lt_le_dec 0 n) as [Hn | Hn].
  - rewrite !positive_length_some by exact Hn.
    replace (0 <? n) with true by (symmetry; apply Z.ltb_lt; exact Hn).
    rewrite Z.leb_antisym. simpl. now destruct (16383 <? n).
  - rewrite !positive_length_none by exact Hn.
    replace (0 <? n) with false by (symmetry; apply Z.ltb_ge; exact Hn).
    reflexivity.
Qed.

(** X19: a column built by the third method always has a source type the
    type mapper knows.  An integer code outside the ten of the code table,
    and any description whose type is not an integer, is taken for
    [varchar]; the length is kept only when positive.  So the target type
    of such a column is one of INT, DOUBLE, FLOAT, DATE, DATETIME, TEXT
    and BOOLEAN, or [VARCHAR(n)] with the display size [n] between 1 and
    16383. *)
Theorem probe_columns_mapped (d : description) :
  let c := column_of_description d in
  is_Some (TypeMapper.datatype_mapping !! data_type c)
  /\ ((forall n, desc_type_code d = Some n ->
         n ∉ [1; 4; 6; 7; 8; 12; 91; 93; -1; -7]) ->
      data_type c = "varchar")
  /\ (max_length c = None
      \/ exists n, desc_display_size d = Some n /\ max_length c = Some n
                   /\ 0 < n)
  /\ (TypeMapper.convert_datatype (data_type c) (max_length c)
        (numeric_precision c) (numeric_scale c)
      ∈ ["INT"; "DOUBLE"; "FLOAT"; "DATE"; "DATETIME"; "TEXT"; "BOOLEAN"]
      \/ exists n, desc_display_size d = Some n /\ 1 <= n <= 16383
           /\ TypeMapper.convert_datatype (data_type c) (max_length c)
                (numeric_precision c) (numeric_scale c)
              = ("VARCHAR(" ++ TypeMapper.str_of_int n ++ ")")%string).
Proof.
  intros c. subst c. unfold column_of_description. simpl.
  pose proof (type_of_code_known (desc_type_code d)) as Hknown.
  assert (Hlen : TypeMapper.positive_length (desc_display_size d) = None
                 \/ exists n, desc_display_size d = Some n
                      /\ TypeMapper.positive_length (desc_display_size d)
                         = Some n /\ 0 < n).
  { destruct (desc_display_size d) as [n|]; [|now left].
    destruct (Z_lt_le_dec 0 n) as [Hn | Hn].
    - right. exists n. rewrite positive_length_some by exact Hn. auto.
    - left. apply positive_length_none, Hn. }
  split; [|split; [|split; [exact Hlen|]]].
  - repeat (apply elem_of_cons in Hknown as [-> | Hknown]);
      try compute_done.
    apply elem_of_nil in Hknown. destruct Hknown.
  - intros Hcode. unfold type_of_code.
    destruct (desc_type_code d) as [n|]; [|reflexivity].
    destruct (type_mapping !! n) as [v|] eqn:Hn; [|reflexivity].
    exfalso. apply (Hcode n eq_refl).
    apply elem_of_list_to_map_2 in Hn.
    assert (Hall : Forall (fun kv : Z * string =>
                     kv.1 ∈ [1; 4; 6; 7; 8; 12; 91; 93; -1; -7])
                     type_mapping_items) by compute_done.
    rewrite Forall_forall in Hall. apply (Hall (n, v) Hn).
  - repeat (apply elem_of_cons in Hknown as [-> | Hknown]);
      try (apply elem_of_nil in Hknown; destruct Hknown);
      try (left;
           match goal with
           | |- ?x ∈ _ => let y := eval vm_compute in x in
                          replace x with y by (vm_compute; reflexivity)
           end; compute_done).
    destruct (desc_display_size d) as [n|]; [|left; compute_done].
    rewrite convert_varchar_length.
    destruct ((0 <? n) && (n <=? 16383)) eqn:Hrange; [|left; compute_done].
    apply andb_true_iff in Hrange as [Hpos Hsmall].
    apply Z.ltb_lt in Hpos. apply Z.leb_le in Hsmall.
    right. exists n. auto with lia.
Qed.

End IntrospectorMapping.

Section IntrospectorOrchestrator.
Import Orchestrator Introspector.
Local Open Scope nat_scope.
Local Open Scope list_scope.

Variable cat : Catalog.
Variable all_tables : list string.
Variable create_mariadb_table : string -> list Column -> list string -> bool.
Variable migrate_table_data : string -> list string -> bool.

Lemma structure_loop_unreadable (names : list string) (count : nat) :
  (forall table_name, table_name ∈ all_tables ->
     columns (get_table_schema cat table_name) = []) ->
  foldl (structure_step all_tables (schema_of cat) create_mariadb_table)
    count names = count.
Proof.
  intros Hnone. revert count.
  induction names as [|name names IH]; intros count; simpl; [reflexivity|].
  rewrite IH. unfold structure_step, schema_of, name_in.
  destruct (bool_decide (name ∈ all_tables)) eqn:Hin; [|reflexivity].
  apply bool_decide_eq_true in Hin. rewrite (Hnone name Hin). reflexivity.
Qed.

(** X20: when [get_table_schema] finds no column for any source table
    (for instance because the source cannot be reached for schema
    queries), [migrate_full_database] creates no structure, hands no
    table to [migrate_table_data] and returns [False], even though the
    table list itself was read. *)
Theorem unreadable_schema_stops_run :
  (forall table_name, table_name ∈ all_tables ->
     columns (get_table_schema cat table_name) = []) ->
  let run := migrate_full_database_run all_tables (schema_of cat)
               create_mariadb_table migrate_table_data in
  run.1 = false
  /\ transfers run.2 = []
  /\ structure_success_count run.2 = 0
  /\ data_success_count run.2 = 0.
Proof.
  intros Hnone run. subst run. unfold migrate_full_database_run.
  destruct all_tables as [|first others] eqn:Hall; [simpl; auto|].
  rewrite <- Hall in *.
  rewrite structure_loop_unreadable by exact Hnone. simpl. auto.
Qed.

End IntrospectorOrchestrator.

Section IntrospectorRuns.
Import Orchestrator Introspector CatalogSamples.
Local Open Scope list_scope.

Lemma first_method_wins_witness :
  columns (get_table_schema legacy "Factory") = [Samples.id_column]
  /\ (SysColumns ∈ lookups (get_table_schema legacy "Factory"))
  /\ (ProbeQuery ∉ lookups (get_table_schema legacy "Factory")).
Proof.
  destruct (first_method_wins legacy "Factory" eq_refl eq_refl)
    as (_ & Hsecond & _).
  apply (Hsecond Samples.id_column []); reflexivity.
Defined.

Lemma no_columns_no_keys_witness :
  primary_keys (get_table_schema offline "Factory") = []
  /\ foreign_keys (get_table_schema offline "Factory") = []
  /\ (KeyColumnUsage ∉ lookups (get_table_schema offline "Factory"))
  /\ (SysKeyConstraints ∉ lookups (get_table_schema offline "Factory"))
  /\ (ReferentialConstraints ∉ lookups (get_table_schema offline "Factory")).
Proof.
  apply (proj1 (no_columns_no_keys offline "Factory")). reflexivity.
Defined.

Lemma key_lookups_degrade_witness :
  primary_keys (get_table_schema legacy "Factory") = ["id"]
  /\ foreign_keys (get_table_schema legacy "Factory") = [].
Proof.
  destruct (key_lookups_degrade legacy "Factory" ltac:(discriminate))
    as (_ & _ & _ & Hsecond & Hforeign).
  split; [apply Hsecond; reflexivity | exact Hforeign].
Defined.

Lemma probe_columns_mapped_witness :
  data_type (column_of_description decimal_entry) = "varchar".
Proof.
  destruct (probe_columns_mapped decimal_entry) as (_ & Hdefault & _).
  apply Hdefault. intros n [= <-]. compute_done.
Defined.

Lemma unreadable_schema_stops_run_witness :
  (migrate_full_database_run Samples.source_tables (schema_of offline)
     Samples.create_ok (fun _ _ => true)).1 = false.
Proof.
  apply (unreadable_schema_stops_run offline Samples.source_tables
           Samples.create_ok (fun _ _ => true)).
  intros table_name _. reflexivity.
Defined.

(** The decimal column read through the probe query ends up as text. *)
Example probe_columns_mapped_run :
  TypeMapper.convert_datatype
    (data_type (column_of_description decimal_entry))
    (max_length (column_of_description decimal_entry))
    (numeric_precision (column_of_description decimal_entry))
    (numeric_scale (column_of_description decimal_entry))
  = "VARCHAR(12)".
Proof. vm_compute. reflexivity. Qed.

End IntrospectorRuns.

(** ** Target administration *)

Section AdminFacts.
Import Orchestrator Admin.
Local Open Scope nat_scope.
Local Open Scope list_scope.

Variable str_lower : string -> string.
Variable tgt : Target.

Lemma dropped_app (l1 l2 : list event) :
  dropped (l1 ++ l2) = dropped l1 ++ dropped l2.
Proof. unfold dropped. apply omap_app. Qed.

(** The loop over [target_tables] asks for exactly the listed tables
    that [SHOW TABLES] returned under some capitalisation, in the order
    of the list, whatever the target answers; [cleaned_count] counts the
    answers that were not refusals. *)
Lemma drop_loop_spec (tables names : list string) (n : nat)
    (log : list event) :
  let st := foldl (drop_step str_lower tgt tables) (n, log) names in
  dropped st.2 = dropped log ++ List.filter (table_exists str_lower tables) names
  /\ n <= st.1
  /\ st.1 <= n + length (List.filter (table_exists str_lower tables) names)
  /\ ((forall h e, is_drop e = true -> raises tgt h e = true) -> st.1 = n).
Proof.
  cbv zeta. revert n log.
  induction names as [|name names IH]; intros n log.
  - simpl. rewrite app_nil_r. repeat split; auto; lia.
  - cbn [foldl List.filter].
    destruct (drop_step str_lower tgt tables (n, log) name) as [n1 log1] eqn:Hstep.
    destruct (IH n1 log1) as (Hd & Hlo & Hhi & Hall).
    unfold drop_step, send in Hstep.
    destruct (table_exists str_lower tables name) eqn:Hex.
    + destruct (raises tgt log (Execute (DropTableIfExists name))) eqn:Hok;
        cbn [negb] in Hstep; inversion Hstep; subst n1 log1; clear Hstep;
        rewrite Hd, dropped_app; cbn [length];
        (split; [rewrite <- app_assoc; reflexivity|]);
        (split; [lia|]); (split; [lia|]).
      * exact Hall.
      * intros Hrefuse. exfalso.
        rewrite (Hrefuse log (Execute (DropTableIfExists name)) eq_refl)
          in Hok. discriminate.
    + inversion Hstep; subst n1 log1. auto.
Qed.

Lemma table_exists_spec (tables : list string) (table : string) :
  table_exists str_lower tables table = true
  <-> exists t, t ∈ tables /\ str_lower t = str_lower table.
Proof.
  unfold table_exists. rewrite existsb_exists. split.
  - intros (t & Hin & Heq). exists t. split.
    + apply list_elem_of_In. exact Hin.
    + apply String.eqb_eq. exact Heq.
  - intros (t & Hin & Heq). exists t. split.
    + apply list_elem_of_In. exact Hin.
    + apply String.eqb_eq. exact Heq.
Qed.

(** X21: a call of [create_mariadb_table] that reaches the target always
    drops the old table first, then sends the generated [CREATE], and
    always closes the connection at the end.  [True] is returned only
    after the commit and the [DESCRIBE]; [False] can come with nothing
    created, with the table created but not committed by the method, or
    with the table created and committed (when only [DESCRIBE] was
    refused). *)
Theorem create_mariadb_table_session (table_name : string)
    (columns : list Column) (primary_keys : list string) :
  connects tgt = true ->
  let drop := Execute (DropTableIfExists table_name) in
  let create :=
    Execute (CreateTable (create_sql table_name columns primary_keys)) in
  let describe := Execute (Describe table_name) in
  let result := create_mariadb_table tgt table_name columns primary_keys in
  exists rest,
    result.2 = drop :: create :: rest ++ [Close]
    /\ (result.1 = true -> rest = [Commit; describe])
    /\ (result.1 = false ->
        (rest = [] /\ raises tgt [drop] create = true)
        \/ (rest = [Commit] /\ raises tgt [drop; create] Commit = true)
        \/ (rest = [Commit; describe]
            /\ raises tgt [drop; create; Commit] describe = true)).
Proof.
  intros Hconn drop create describe result. subst result.
  unfold create_mariadb_table. rewrite Hconn. unfold send. cbn [app].
  fold drop. fold create. fold describe.
  destruct (raises tgt [drop] create) eqn:Hcreate; cbn [negb].
  { exists []. cbn. split; [reflexivity|]. split; [discriminate|]. auto. }
  destruct (raises tgt [drop; create] Commit) eqn:Hcommit; cbn [negb].
  { exists [Commit]. cbn. split; [reflexivity|].
    split; [discriminate|]. auto. }
  destruct (raises tgt [drop; create; Commit] describe) eqn:Hdesc;
    cbn [negb].
  { exists [Commit; describe]. cbn. split; [reflexivity|].
    split; [discriminate|]. auto. }
  exists [Commit; describe]. cbn. split; [reflexivity|].
  split; [reflexivity|discriminate].
Qed.

(** X22: the answer of the target to the initial [DROP] has no influence
    on [create_mariadb_table]: two targets that differ only in what they
    answer to [DROP] statements give the same result and receive the
    same calls. *)
Theorem create_ignores_drop_outcome (other : Target) (table_name : string)
    (columns : list Column) (primary_keys : list string) :
  connects tgt = connects other ->
  (forall log e, is_drop e = false -> raises tgt log e = raises other log e) ->
  create_mariadb_table tgt table_name columns primary_keys
  = create_mariadb_table other table_name columns primary_keys.
Proof.
  intros Hconn Hsame. unfold create_mariadb_table, send.
  rewrite <- Hconn. destruct (connects tgt); [|reflexivity].
  cbn [app]. rewrite !Hsame by reflexivity. reflexivity.
Qed.

(** X23: [clean_mariadb_tables] only ever asks the target to drop tables
    of its own list that [SHOW TABLES] returned under some
    capitalisation; a call that returns [True] has asked for every such
    table, in the order of the list; and [cleaned_count] never exceeds
    the number of tables asked for. *)
Theorem clean_drops_only_listed :
  let result := clean_mariadb_tables str_lower tgt in
  (forall table, table ∈ dropped result.2.2 ->
     table ∈ target_tables
     /\ exists t, t ∈ shown tgt /\ str_lower t = str_lower table)
  /\ (result.1 = true ->
      dropped result.2.2
      = List.filter (table_exists str_lower (shown tgt)) target_tables)
  /\ result.2.1 <= length (dropped result.2.2).
Proof.
  intros result.
  assert (Hshape :
    (dropped result.2.2 = [] /\ result.1 = false /\ result.2.1 = 0)
    \/ (dropped result.2.2
        = List.filter (table_exists str_lower (shown tgt)) target_tables
        /\ result.2.1
           <= length (List.filter (table_exists str_lower (shown tgt)) target_tables))).
  { subst result.
    destruct (clean_mariadb_tables str_lower tgt) as [ok [count log]] eqn:Hrun.
    cbn [fst snd]. unfold clean_mariadb_tables, send in Hrun.
    cbn [app] in Hrun.
    destruct (connects tgt); [|inversion Hrun; left; auto].
    destruct (raises tgt [] (Execute ShowTables)); cbn [negb] in Hrun;
      [inversion Hrun; left; auto|].
    destruct (raises tgt [Execute ShowTables]
                (Execute (SetForeignKeyChecks false))); cbn [negb] in Hrun;
      [inversion Hrun; left; auto|].
    pose proof (drop_loop_spec (shown tgt) target_tables 0
                  [Execute ShowTables; Execute (SetForeignKeyChecks false)])
      as (Hd & _ & Hhi & _).
    destruct (foldl (drop_step str_lower tgt (shown tgt))
                (0, [Execute ShowTables; Execute (SetForeignKeyChecks false)])
                target_tables) as [cleaned_count sent] eqn:Hloop.
    cbn [fst snd] in Hd, Hhi. cbn [dropped omap app] in Hd.
    right.
    destruct (raises tgt sent (Execute (SetForeignKeyChecks true)));
      cbn [negb] in Hrun;
      [|destruct (raises tgt
                    (sent ++ [Execute (SetForeignKeyChecks true)]) Commit);
        cbn [negb] in Hrun];
      inversion Hrun; subst ok count log;
      rewrite !dropped_app, Hd; cbn [dropped omap app];
      rewrite !app_nil_r; split; auto; lia. }
  split; [|split].
  - intros table Hin. destruct Hshape as [(Hnil & _) | (Hd & _)].
    + rewrite Hnil in Hin. inversion Hin.
    + rewrite Hd in Hin. apply list_elem_of_In, List.filter_In in Hin.
      destruct Hin as [Hlisted Hex]. split.
      * apply list_elem_of_In. exact Hlisted.
      * apply table_exists_spec. exact Hex.
  - intros Htrue. destruct Hshape as [(_ & Hfalse & _) | (Hd & _)].
    + rewrite Hfalse in Htrue. discriminate.
    + exact Hd.
  - destruct Hshape as [(_ & _ & Hzero) | (Hd & Hhi)].
    + rewrite Hzero. lia.
    + rewrite Hd. exact Hhi.
Qed.

(** X24: [clean_mariadb_tables] returns [True] although the target
    refused every [DROP]: with a target that refuses these statements
    and nothing else, the result is [True], [cleaned_count] is 0, and
    the foreign key checks are switched off before the first [DROP] and
    on again after the last. *)
Theorem clean_reports_success_without_dropping :
  connects tgt = true ->
  (forall log e, raises tgt log e = is_drop e) ->
  let result := clean_mariadb_tables str_lower tgt in
  result.1 = true
  /\ result.2.1 = 0
  /\ result.2.2
     = [Execute ShowTables; Execute (SetForeignKeyChecks false)]
       ++ map (fun table => Execute (DropTableIfExists table))
            (List.filter (table_exists str_lower (shown tgt)) target_tables)
       ++ [Execute (SetForeignKeyChecks true); Commit; Close].
Proof.
  intros Hconn Hrefuse result.
  assert (Hloop : forall names n log,
    foldl (drop_step str_lower tgt (shown tgt)) (n, log) names
    = (n, log ++ map (fun table => Execute (DropTableIfExists table))
                   (List.filter (table_exists str_lower (shown tgt)) names))).
  { induction names as [|name names IH]; intros n log.
    - simpl. rewrite app_nil_r. reflexivity.
    - cbn [foldl List.filter].
      assert (Hstep : drop_step str_lower tgt (shown tgt) (n, log) name
                = if table_exists str_lower (shown tgt) name
                  then (n, log ++ [Execute (DropTableIfExists name)])
                  else (n, log)).
      { unfold drop_step, send. rewrite Hrefuse. reflexivity. }
      rewrite Hstep. destruct (table_exists str_lower (shown tgt) name).
      + rewrite IH. cbn [map]. rewrite <- app_assoc. reflexivity.
      + apply IH. }
  assert (Hrun : clean_mariadb_tables str_lower tgt
    = (true, (0,
        [Execute ShowTables; Execute (SetForeignKeyChecks false)]
        ++ map (fun table => Execute (DropTableIfExists table))
             (List.filter (table_exists str_lower (shown tgt)) target_tables)
        ++ [Execute (SetForeignKeyChecks true); Commit; Close]))).
  { unfold clean_mariadb_tables, send. rewrite Hconn, !Hrefuse.
    cbn [is_drop negb app]. rewrite Hloop, !Hrefuse. cbn [is_drop negb].
    rewrite <- !app_assoc. reflexivity. }
  subst result. rewrite Hrun. auto.
Qed.

End AdminFacts.

Section AdminRuns.
Import Orchestrator Admin AdminSamples.
Local Open Scope nat_scope.
Local Open Scope list_scope.

Lemma create_mariadb_table_session_witness :
  exists rest,
    (create_mariadb_table no_describe "Factory" [Samples.id_column] ["id"]).2
    = Execute (DropTableIfExists "Factory")
      :: Execute (CreateTable
                    (create_sql "Factory" [Samples.id_column] ["id"]))
      :: rest ++ [Close].
Proof.
  destruct (create_mariadb_table_session no_describe "Factory"
              [Samples.id_column] ["id"] eq_refl) as (rest & Hlog & _).
  exists rest. exact Hlog.
Defined.

Lemma create_ignores_drop_outcome_witness :
  create_mariadb_table willing "Factory" [Samples.id_column] ["id"]
  = create_mariadb_table keeps_tables "Factory" [Samples.id_column] ["id"].
Proof.
  apply (create_ignores_drop_outcome willing keeps_tables).
  - reflexivity.
  - intros log e He. simpl. rewrite He. reflexivity.
Defined.

Lemma clean_drops_only_listed_witness :
  dropped (clean_mariadb_tables ascii_lower willing).2.2
  = List.filter (table_exists ascii_lower (shown willing)) target_tables.
Proof.
  apply (proj1 (proj2 (clean_drops_only_listed ascii_lower willing))). reflexivity.
Defined.

Lemma clean_reports_success_without_dropping_witness :
  (clean_mariadb_tables ascii_lower keeps_tables).1 = true
  /\ (clean_mariadb_tables ascii_lower keeps_tables).2.1 = 0.
Proof.
  destruct (clean_reports_success_without_dropping ascii_lower keeps_tables eq_refl
              ltac:(reflexivity)) as (Htrue & Hzero & _).
  split; assumption.
Defined.

(** The statement generated for a table with one key column, and the
    calls of a creation whose [DESCRIBE] is refused: the table has been
    created and committed, and the method returns [False]. *)
Example create_mariadb_table_run :
  create_mariadb_table no_describe "Factory" [Samples.id_column] ["id"]
  = (false,
     [ Execute (DropTableIfExists "Factory");
       Execute (CreateTable
                  (create_sql "Factory" [Samples.id_column] ["id"]));
       Commit;
       Execute (Describe "Factory");
       Close ]).
Proof. vm_compute. reflexivity. Qed.

(** With tables [factory], [Memo] and [Customers] in the target, the
    method asks for [Memo] and [Factory], in the order of its list, and
    leaves [Customers] alone. *)
Example clean_mariadb_tables_run :
  dropped (clean_mariadb_tables ascii_lower willing).2.2 = ["Memo"; "Factory"]
  /\ (clean_mariadb_tables ascii_lower willing).2.1 = 2
  /\ (clean_mariadb_tables ascii_lower keeps_tables).1 = true.
Proof. vm_compute. auto. Qed.

End AdminRuns.

(** ** The command line *)

Section CliFacts.
Import Cli.
Local Open Scope list_scope.

Variable str_lower : string -> string.
Variable m : Migrator.

Lemma missing_tables_nil (existing_tables mssql_tables : list string) :
  missing_tables str_lower existing_tables mssql_tables = []
  <-> forall table, table ∈ mssql_tables ->
        exists t, t ∈ existing_tables /\ str_lower t = str_lower table.
Proof.
  unfold missing_tables. induction mssql_tables as [|name names IH].
  - simpl. split; [|reflexivity]. intros _ table Hin. inversion Hin.
  - cbn [List.filter].
    destruct (existsb (fun t => String.eqb (str_lower t) (str_lower name))
                existing_tables) eqn:Hex; cbn [negb].
    + rewrite IH. split.
      * intros Hall table Hin. apply elem_of_cons in Hin as [-> | Hin].
        -- apply existsb_exists in Hex as (t & Hin & Heq).
           exists t. split; [apply list_elem_of_In; exact Hin|].
           apply String.eqb_eq. exact Heq.
        -- apply Hall. exact Hin.
      * intros Hall table Hin. apply Hall. apply elem_of_cons. auto.
    + split; [discriminate|]. intros Hall. exfalso.
      destruct (Hall name) as (t & Hin & Heq); [apply elem_of_cons; auto|].
      assert (Htrue : existsb (fun t => String.eqb (str_lower t) (str_lower name))
                        existing_tables = true).
      { apply existsb_exists. exists t. split.
        - apply list_elem_of_In. exact Hin.
        - apply String.eqb_eq. exact Heq. }
      rewrite Htrue in Hex. discriminate.
Qed.

(** X25: when no method raises, the process ends with status 1 only in
    two cases: under [validate] when a source table is missing in the
    target and the automatic migration returns [False], and under
    [optimize] when the target has no table and the automatic migration
    returns [False].  In particular [migrate], [clean] and [all] end
    with status 0 whatever the migration, the cleaning or the validation
    reports. *)
Theorem main_exit_status (a : action) (existing_tables mssql_tables : list string)
    (migrate_success : bool) :
  quiet m ->
  check_mariadb_tables_exist m = Some existing_tables ->
  get_mssql_tables m = Some mssql_tables ->
  migrate_full_database m = Some migrate_success ->
  ((main str_lower a m).1 = 1%Z
   <-> migrate_success = false
       /\ ((a = Validate
            /\ missing_tables str_lower existing_tables mssql_tables <> [])
           \/ (a = Optimize /\ existing_tables = [])))
  /\ ((main str_lower a m).1 = 0%Z \/ (main str_lower a m).1 = 1%Z).
Proof.
  intros (Hclean & _ & _ & _ & Hvalidate & Hoptimize) Hcheck Hlist Hmigrate.
  destruct Hclean as [cleaned Hclean].
  destruct Hvalidate as [verdict Hvalidate].
  destruct Hoptimize as [[] Hoptimize].
  unfold main, call, finish, exit1.
  rewrite Hclean, Hcheck, Hlist, Hmigrate, Hvalidate, Hoptimize.
  destruct a; cbn [fst].
  - split; [|auto]. split; [discriminate|].
    intros (_ & [(Ha & _) | (Ha & _)]); discriminate.
  - destruct (missing_tables str_lower existing_tables mssql_tables) as [|t ts];
      [|destruct migrate_success]; cbn [fst]; (split; [|auto]).
    + split; [discriminate|]. intros (_ & [(_ & Hne) | (Ha & _)]);
        [contradiction|discriminate].
    + split; [discriminate|]. intros (Hfalse & _). discriminate.
    + split; [|reflexivity]. intros _. split; [reflexivity|].
      left. split; [reflexivity|discriminate].
  - destruct existing_tables as [|t ts];
      [destruct migrate_success|]; cbn [fst]; (split; [|auto]).
    + split; [discriminate|]. intros (Hfalse & _). discriminate.
    + split; [|reflexivity]. intros _. split; [reflexivity|].
      right. split; reflexivity.
    + split; [discriminate|]. intros (_ & [(Ha & _) | (_ & Hnil)]);
        discriminate.
  - split; [|auto]. split; [discriminate|].
    intros (_ & [(Ha & _) | (Ha & _)]); discriminate.
  - split; [|auto]. split; [discriminate|].
    intros (_ & [(Ha & _) | (Ha & _)]); discriminate.
Qed.

(** X26: when no method raises, [all] runs the migration, the validation
    and the optimization in this order whatever the migration returned;
    under [validate] the validation is run exactly when the process
    ends with status 0, and under [optimize] the optimization is run
    exactly when the process ends with status 0. *)
Theorem main_steps :
  quiet m ->
  (main str_lower All m).2 = [MigrateDatabase; ValidateMigration; OptimizeTables]
  /\ (ValidateMigration ∈ (main str_lower Validate m).2 <-> (main str_lower Validate m).1 = 0%Z)
  /\ (OptimizeTables ∈ (main str_lower Optimize m).2 <-> (main str_lower Optimize m).1 = 0%Z).
Proof.
  intros (_ & Hmigrate & Hcheck & Hlist & Hvalidate & Hoptimize).
  destruct Hmigrate as [migrate_success Hmigrate].
  destruct Hcheck as [existing_tables Hcheck].
  destruct Hlist as [mssql_tables Hlist].
  destruct Hvalidate as [verdict Hvalidate].
  destruct Hoptimize as [[] Hoptimize].
  unfold main, call, finish, exit1.
  rewrite Hcheck, Hlist, Hmigrate, Hvalidate, Hoptimize.
  split; [reflexivity|]. split.
  - destruct (missing_tables str_lower existing_tables mssql_tables) as [|t ts];
      [|destruct migrate_success]; cbn [fst snd app].
    + split; [reflexivity|]. intros _. compute_done.
    + split; [reflexivity|]. intros _. compute_done.
    + split; [|discriminate]. intros Hin. exfalso. revert Hin. compute_done.
  - destruct existing_tables as [|t ts];
      [destruct migrate_success|]; cbn [fst snd app].
    + split; [reflexivity|]. intros _. compute_done.
    + split; [|discriminate]. intros Hin. exfalso. revert Hin. compute_done.
    + split; [reflexivity|]. intros _. compute_done.
Qed.

(** X27: under [validate], the automatic migration is run exactly when
    some source table has no table of the same name up to capitalisation
    in the target; with an empty list of source tables it is never
    run. *)
Theorem validate_migrates_iff_missing
    (existing_tables mssql_tables : list string) :
  check_mariadb_tables_exist m = Some existing_tables ->
  get_mssql_tables m = Some mssql_tables ->
  MigrateDatabase ∈ (main str_lower Validate m).2
  <-> exists table, table ∈ mssql_tables
        /\ forall t, t ∈ existing_tables -> str_lower t <> str_lower table.
Proof.
  intros Hcheck Hlist. unfold main, call, finish, exit1.
  rewrite Hcheck, Hlist.
  pose proof (missing_tables_nil existing_tables mssql_tables) as Hnil.
  destruct (missing_tables str_lower existing_tables mssql_tables) as [|name names]
    eqn:Hmissing.
  - split.
    + intros Hin. exfalso. revert Hin.
      destruct (validate_migration_complete m); cbn [snd app]; compute_done.
    + intros (table & Hin & Hnone). exfalso.
      destruct (proj1 Hnil eq_refl table Hin) as (t & Ht & Heq).
      exact (Hnone t Ht Heq).
  - split.
    + intros _.
      assert (Hname : name ∈ missing_tables str_lower existing_tables mssql_tables).
      { rewrite Hmissing. apply elem_of_cons. auto. }
      unfold missing_tables in Hname.
      apply list_elem_of_In, List.filter_In in Hname as [Hin Hnot].
      exists name. split; [apply list_elem_of_In; exact Hin|].
      intros t Ht Heq. apply negb_true_iff in Hnot.
      assert (Htrue : existsb (fun t => String.eqb (str_lower t) (str_lower name))
                        existing_tables = true).
      { apply existsb_exists. exists t. split.
        - apply list_elem_of_In. exact Ht.
        - apply String.eqb_eq. exact Heq. }
      rewrite Htrue in Hnot. discriminate.
    + intros _.
      destruct (migrate_full_database m) as [[]|];
        [destruct (validate_migration_complete m)| |];
        cbn [snd app]; compute_done.
Qed.

End CliFacts.

Section CliRuns.
Import Cli AdminSamples.
Local Open Scope list_scope.

Lemma failing_quiet : quiet failing.
Proof. repeat split; eexists; reflexivity. Defined.

Lemma main_exit_status_witness :
  (main ascii_lower Validate failing).1 = 1%Z /\ (main ascii_lower All failing).1 <> 1%Z.
Proof.
  split.
  - apply (proj1 (main_exit_status ascii_lower failing Validate ["factory"]
                    ["Factory"; "Memo"] false failing_quiet
                    eq_refl eq_refl eq_refl)).
    split; [reflexivity|]. left. split; [reflexivity|discriminate].
  - intros Hone.
    apply (proj1 (main_exit_status ascii_lower failing All ["factory"]
                    ["Factory"; "Memo"] false failing_quiet
                    eq_refl eq_refl eq_refl)) in Hone.
    destruct Hone as (_ & [(Ha & _) | (Ha & _)]); discriminate.
Defined.

Lemma main_steps_witness :
  (main ascii_lower All failing).2 = [MigrateDatabase; ValidateMigration; OptimizeTables].
Proof. apply (proj1 (main_steps ascii_lower failing failing_quiet)). Defined.

Lemma validate_migrates_iff_missing_witness :
  MigrateDatabase ∈ (main ascii_lower Validate failing).2.
Proof.
  apply (validate_migrates_iff_missing ascii_lower failing ["factory"]
           ["Factory"; "Memo"] eq_refl eq_refl).
  exists "Memo". split; [compute_done|].
  intros t Ht. apply list_elem_of_singleton in Ht as ->. vm_compute.
  discriminate.
Defined.

(** A migration that reports a failure leaves the status of [migrate]
    and of [all] at 0. *)
Example main_run :
  main ascii_lower Migrate failing = (0%Z, [MigrateDatabase])
  /\ main ascii_lower All failing
     = (0%Z, [MigrateDatabase; ValidateMigration; OptimizeTables])
  /\ main ascii_lower Validate failing = (1%Z, [CheckTarget; ListSource; MigrateDatabase]).
Proof. vm_compute. auto. Qed.

End CliRuns.
